(** * saneyaml: load and dump over the YAML engine

    A shallow embedding of [src/attributecode/saneyaml.py] (Python 2) and of
    the part of the PyYAML engine its two entry points drive: the implicit
    tag resolver, the composer and the constructor tables on the load side,
    the representer tables, the serializer and the tag/style decisions of
    the emitter on the dump side.

    The character level of the engine (its scanner and the writer of the
    emitter) is not embedded.  Both halves meet at the engine's event
    interface, modelled by the type [presentation]: what the emitter decides
    to write for a node and what the parser reads back for it (explicit tag
    or none, scalar style, scalar text).  Only a reader for flat documents
    made of plain words is given, so that [load] can run on a text.

    Values are trees ([pyobj]); where it matters that one object is met
    twice, module [Sharing] gives them addresses and follows the engine's
    anchors and aliases. *)

From Stdlib Require Import ZArith NArith String Ascii List Bool Lia.
From Stdlib Require Import DecimalString.
From stdpp Require Import base option list strings gmap.

Local Open Scope string_scope.
Local Open Scope list_scope.
Set Warnings "-register-all".

(** ** Text *)

(** A unicode text is its sequence of code points. *)
Definition unicode := list N.

Definition u (s : string) : unicode :=
  map N_of_ascii (list_ascii_of_string s).

Definition LF : N := 10%N.
Definition SPACE : N := 32%N.

Definition char_in (c : N) (cs : unicode) : bool :=
  existsb (N.eqb c) cs.

Definition unicode_eqb (a b : unicode) : bool :=
  bool_decide (a = b).

Fixpoint startswith (p s : unicode) : bool :=
  match p, s with
  | [], _ => true
  | c :: p', d :: s' => N.eqb c d && startswith p' s'
  | _ :: _, [] => false
  end.

(** ** Outcomes of a call *)

(** [LoadError]: an exception leaves [yaml.load] (ComposerError,
    ConstructorError, TypeError, KeyError or AssertionError).  Which of them
    is not modelled: the engine resumes the bodies of its generator
    constructors after the enclosing call, so two failures may surface in
    another order than in the recursion of [construct_object] below. *)
Inductive exn :=
| LoadError
| RepresenterError
| UnicodeDecodeError.

(** [NotModelled] marks an input on which the call leaves the embedded part
    of the engine (an inherited constructor that is not embedded, a text
    outside the flat reader). *)
Inductive result (A : Type) :=
| Ok (a : A)
| Raise (e : exn)
| NotModelled.
Arguments Ok {A} a.
Arguments Raise {A} e.
Arguments NotModelled {A}.

Definition bind {A B} (r : result A) (k : A -> result B) : result B :=
  match r with
  | Ok a => k a
  | Raise e => Raise e
  | NotModelled => NotModelled
  end.

Notation "'do' x <- r ; k" := (bind r (fun x => k))
  (at level 10, x name, r at level 100, k at level 200).

Section Each.
Context {A B : Type} (f : A -> result B).

(** [[f(a) for a in l]], stopping at the first failure. *)
Fixpoint mapM (l : list A) : result (list B) :=
  match l with
  | [] => Ok []
  | a :: l' => do b <- f a; do bs <- mapM l'; Ok (b :: bs)
  end.

(** The same over the items of a mapping: key first, then value. *)
Fixpoint mapM_pairs (l : list (A * A)) : result (list (B * B)) :=
  match l with
  | [] => Ok []
  | (k, v) :: l' =>
      do k' <- f k; do v' <- f v; do rest <- mapM_pairs l';
      Ok ((k', v') :: rest)
  end.
End Each.

(** ** Regular expressions of the resolver *)

Module Regex.

Inductive regex :=
| Void
| Eps
| Range (lo hi : N)
| Seq (r1 r2 : regex)
| Alt (r1 r2 : regex)
| Star (r : regex).

Fixpoint nullable (r : regex) : bool :=
  match r with
  | Void => false
  | Eps => true
  | Range _ _ => false
  | Seq r1 r2 => nullable r1 && nullable r2
  | Alt r1 r2 => nullable r1 || nullable r2
  | Star _ => true
  end.

Fixpoint deriv (c : N) (r : regex) : regex :=
  match r with
  | Void => Void
  | Eps => Void
  | Range lo hi => if N.leb lo c && N.leb c hi then Eps else Void
  | Seq r1 r2 =>
      if nullable r1 then Alt (Seq (deriv c r1) r2) (deriv c r2)
      else Seq (deriv c r1) r2
  | Alt r1 r2 => Alt (deriv c r1) (deriv c r2)
  | Star r1 => Seq (deriv c r1) (Star r1)
  end.

(** Smart simplification keeps the derivatives small. *)
Fixpoint simp (r : regex) : regex :=
  match r with
  | Seq r1 r2 =>
      match simp r1, simp r2 with
      | Void, _ => Void
      | _, Void => Void
      | Eps, r2' => r2'
      | r1', r2' => Seq r1' r2'
      end
  | Alt r1 r2 =>
      match simp r1, simp r2 with
      | Void, r2' => r2'
      | r1', Void => r1'
      | r1', r2' => Alt r1' r2'
      end
  | _ => r
  end.

Fixpoint full_match (r : regex) (s : unicode) : bool :=
  match s with
  | [] => nullable r
  | c :: s' => full_match (simp (deriv c r)) s'
  end.

Definition chr (c : N) : regex := Range c c.
Definition opt (r : regex) : regex := Alt Eps r.
Definition plus (r : regex) : regex := Seq r (Star r).
Definition alts (rs : list regex) : regex := fold_right Alt Void rs.
Definition seqs (rs : list regex) : regex := fold_right Seq Eps rs.
Definition lit (s : string) : regex := seqs (map chr (u s)).
Definition set (s : string) : regex := alts (map chr (u s)).
Definition words (ws : list string) : regex := alts (map lit ws).

(** [re.match] of a pattern written [^(?:...)$]: the dollar also matches
    just before a line feed that ends the text. *)
Definition py_match (r : regex) (s : unicode) : bool :=
  full_match r s ||
  match List.rev s with
  | c :: rest => N.eqb c LF && full_match r (List.rev rest)
  | [] => false
  end.

End Regex.

(** ** The implicit resolver of the engine *)

Module Tag.
Definition str := "tag:yaml.org,2002:str".
Definition null := "tag:yaml.org,2002:null".
Definition bool := "tag:yaml.org,2002:bool".
Definition int := "tag:yaml.org,2002:int".
Definition float := "tag:yaml.org,2002:float".
Definition timestamp := "tag:yaml.org,2002:timestamp".
Definition binary := "tag:yaml.org,2002:binary".
Definition merge := "tag:yaml.org,2002:merge".
Definition value := "tag:yaml.org,2002:value".
Definition yaml := "tag:yaml.org,2002:yaml".
Definition seq := "tag:yaml.org,2002:seq".
Definition map := "tag:yaml.org,2002:map".
Definition omap := "tag:yaml.org,2002:omap".
Definition pairs := "tag:yaml.org,2002:pairs".
Definition set := "tag:yaml.org,2002:set".
(** The tag written at line 113 of saneyaml.py. *)
Definition boolean := "tag:yaml.org,2002:boolean".
End Tag.

Module Resolver.
Import Regex.

Definition digit := Range 48 57.
Definition digit_ := Alt digit (chr 95).
Definition sign := opt (set "-+").
Definition exponent := opt (seqs [set "eE"; set "-+"; plus digit]).
Definition sexagesimal := plus (seqs [chr 58; opt (Range 48 53); digit]).
Definition blank := Alt (chr 32) (chr 9).

(** yes|Yes|YES|no|No|NO|true|True|TRUE|false|False|FALSE|on|On|ON|off|Off|OFF *)
Definition bool_re : regex :=
  words ["yes"; "Yes"; "YES"; "no"; "No"; "NO";
         "true"; "True"; "TRUE"; "false"; "False"; "FALSE";
         "on"; "On"; "ON"; "off"; "Off"; "OFF"].

(** The float pattern of the engine (version 3 of PyYAML), one
    alternative per line of [alts]:
    sign? digit (digit|_)STAR dot (digit|_)STAR exponent?
    dot (digit|_)+ exponent?
    sign? digit (digit|_)STAR (colon [0-5]? digit)+ dot (digit|_)STAR
    sign? dot (inf|Inf|INF)
    dot (nan|NaN|NAN) *)
Definition float_re : regex :=
  alts [ seqs [sign; digit; Star digit_; chr 46; Star digit_; exponent];
         seqs [chr 46; plus digit_; exponent];
         seqs [sign; digit; Star digit_; sexagesimal; chr 46; Star digit_];
         seqs [sign; chr 46; words ["inf"; "Inf"; "INF"]];
         seqs [chr 46; words ["nan"; "NaN"; "NAN"]] ].

(** The int pattern: sign? 0b (0|1|_)+ ; sign? 0 ([0-7]|_)+ ;
    sign? (0 | [1-9] (digit|_)STAR) ; sign? 0x (hex|_)+ ;
    sign? [1-9] (digit|_)STAR (colon [0-5]? digit)+ *)
Definition int_re : regex :=
  alts [ seqs [sign; lit "0b"; plus (Alt (Range 48 49) (chr 95))];
         seqs [sign; chr 48; plus (Alt (Range 48 55) (chr 95))];
         seqs [sign; Alt (chr 48) (Seq (Range 49 57) (Star digit_))];
         seqs [sign; lit "0x";
               plus (alts [digit; Range 97 102; Range 65 70; chr 95])];
         seqs [sign; Range 49 57; Star digit_; sexagesimal] ].

Definition merge_re : regex := lit "<<".

(** ~ | null|Null|NULL | (empty) *)
Definition null_re : regex :=
  alts [chr 126; words ["null"; "Null"; "NULL"]; Eps].

(** The timestamp pattern: yyyy-dd-dd, or
    yyyy-d{1,2}-d{1,2} (T|t|blanks) d{1,2}:dd:dd (dot digitSTAR)?
    (blankSTAR (Z | sign d{1,2} (colon dd)?))? *)
Definition timestamp_re : regex :=
  let year := seqs [digit; digit; digit; digit] in
  let d2 := Seq digit digit in
  let d12 := Seq digit (opt digit) in
  alts [ seqs [year; chr 45; d2; chr 45; d2];
         seqs [year; chr 45; d12; chr 45; d12;
               Alt (set "Tt") (plus blank); d12;
               chr 58; d2; chr 58; d2;
               opt (Seq (chr 46) (Star digit));
               opt (seqs [Star blank;
                          Alt (chr 90)
                              (seqs [set "-+"; d12; opt (Seq (chr 58) d2)])])] ].

Definition value_re : regex := lit "=".
Definition yaml_re : regex := set "!&*".

Record implicit_resolver := {
  ir_tag : string;
  ir_regexp : regex;
  (** first characters under which the resolver is filed *)
  ir_first : unicode;
  (** filed under the empty text too *)
  ir_empty : bool;
}.

(** The [add_implicit_resolver] calls of the engine, in their order. *)
Definition yaml_implicit_resolvers : list implicit_resolver :=
  [ {| ir_tag := Tag.bool; ir_regexp := bool_re;
       ir_first := u "yYnNtTfFoO"; ir_empty := false |};
    {| ir_tag := Tag.float; ir_regexp := float_re;
       ir_first := u "-+0123456789."; ir_empty := false |};
    {| ir_tag := Tag.int; ir_regexp := int_re;
       ir_first := u "-+0123456789"; ir_empty := false |};
    {| ir_tag := Tag.merge; ir_regexp := merge_re;
       ir_first := u "<"; ir_empty := false |};
    {| ir_tag := Tag.null; ir_regexp := null_re;
       ir_first := u "~nN"; ir_empty := true |};
    {| ir_tag := Tag.timestamp; ir_regexp := timestamp_re;
       ir_first := u "0123456789"; ir_empty := false |};
    {| ir_tag := Tag.value; ir_regexp := value_re;
       ir_first := u "="; ir_empty := false |};
    {| ir_tag := Tag.yaml; ir_regexp := yaml_re;
       ir_first := u "!&*"; ir_empty := false |} ].

Definition filed_under (value : unicode) (r : implicit_resolver) : bool :=
  match value with
  | [] => ir_empty r
  | c :: _ => char_in c (ir_first r)
  end.

Fixpoint first_match (rs : list implicit_resolver) (value : unicode)
  : option string :=
  match rs with
  | [] => None
  | r :: rs' =>
      if filed_under value r && py_match (ir_regexp r) value
      then Some (ir_tag r)
      else first_match rs' value
  end.

Inductive node_kind := KScalar | KSequence | KMapping.

Definition default_tag (kind : node_kind) : string :=
  match kind with
  | KScalar => Tag.str
  | KSequence => Tag.seq
  | KMapping => Tag.map
  end.

(** [resolve(kind, value, implicit)]; [implicit] is the pair of the engine
    for scalars ([implicit[0]]: plain and untagged). *)
Definition resolve (kind : node_kind) (value : unicode)
    (implicit : Datatypes.bool * Datatypes.bool) : string :=
  match kind, implicit with
  | KScalar, (true, _) =>
      match first_match yaml_implicit_resolvers value with
      | Some t => t
      | None => default_tag kind
      end
  | _, _ => default_tag kind
  end.

End Resolver.

Import Resolver.

(** ** Python values *)

(** Values exchanged with [load] and [dump].  A float is carried by the
    text [repr] gives for it, a date by its [isoformat] text: that is all
    the dumper reads of them.  [PStr] is the byte string of Python 2,
    [PInstance] an instance of any class the engine knows nothing about. *)
Inductive pyobj :=
| PNone
| PBool (b : bool)
| PInt (z : Z)
| PFloat (repr : string)
| PStr (bytes : string)
| PUnicode (text : unicode)
| PList (items : list pyobj)
| PTuple (items : list pyobj)
| POrderedDict (items : list (pyobj * pyobj))
| PDate (isoformat : string)
| PInstance (class_name : string).

Inductive pytype :=
| T_NoneType | T_bool | T_int | T_long | T_float | T_str | T_unicode
| T_list | T_tuple | T_dict | T_set | T_date | T_datetime | T_OrderedDict
| T_class (name : string).

Definition type_of (data : pyobj) : pytype :=
  match data with
  | PNone => T_NoneType
  | PBool _ => T_bool
  | PInt _ => T_int
  | PFloat _ => T_float
  | PStr _ => T_str
  | PUnicode _ => T_unicode
  | PList _ => T_list
  | PTuple _ => T_tuple
  | POrderedDict _ => T_OrderedDict
  | PDate _ => T_date
  | PInstance c => T_class c
  end.

#[global] Instance pytype_eq_dec : EqDecision pytype.
Proof. solve_decision. Defined.

Definition pytype_code (t : pytype) : nat + string :=
  match t with
  | T_NoneType => inl 0 | T_bool => inl 1 | T_int => inl 2 | T_long => inl 3
  | T_float => inl 4 | T_str => inl 5 | T_unicode => inl 6 | T_list => inl 7
  | T_tuple => inl 8 | T_dict => inl 9 | T_set => inl 10 | T_date => inl 11
  | T_datetime => inl 12 | T_OrderedDict => inl 13
  | T_class n => inr n
  end.

Definition pytype_decode (c : nat + string) : pytype :=
  match c with
  | inl 0 => T_NoneType | inl 1 => T_bool | inl 2 => T_int | inl 3 => T_long
  | inl 4 => T_float | inl 5 => T_str | inl 6 => T_unicode | inl 7 => T_list
  | inl 8 => T_tuple | inl 9 => T_dict | inl 10 => T_set | inl 11 => T_date
  | inl 12 => T_datetime | inl _ => T_OrderedDict
  | inr n => T_class n
  end.

#[global] Instance pytype_countable : Countable pytype.
Proof.
  apply (inj_countable' pytype_code pytype_decode).
  intros []; reflexivity.
Defined.

(** ** Nodes and events of the engine *)

Inductive style_char := SingleQuoted | DoubleQuoted | Literal | Folded.

#[global] Instance style_char_eq_dec : EqDecision style_char.
Proof. solve_decision. Defined.

(** The representation graph.  [style] is [None] for a plain scalar on the
    load side and for "no style asked" on the dump side. *)
Inductive node :=
| ScalarNode (tag : string) (value : unicode) (style : option style_char)
| SequenceNode (tag : string) (value : list node)
| MappingNode (tag : string) (value : list (node * node)).

(** What stands in the text for a node: the tag written in front of it, if
    any (with its handle expanded), the style a scalar is written in
    ([None]: plain) and its text. *)
Inductive presentation :=
| EScalar (tag : option string) (style : option style_char) (value : unicode)
| ESequence (tag : option string) (items : list presentation)
| EMapping (tag : option string) (pairs : list (presentation * presentation)).

(** ** Composer *)

Definition untagged (tag : option string) : bool :=
  match tag with
  | None => true
  | Some t => bool_decide (t = "!")
  end.

(** The [implicit] pair the parser attaches to a scalar event. *)
Definition parser_implicit (tag : option string) (style : option style_char)
  : bool * bool :=
  if (bool_decide (style = None) && bool_decide (tag = None))
     || bool_decide (tag = Some "!")
  then (true, false)
  else if bool_decide (tag = None) then (false, true)
  else (false, false).

Definition composed_tag (kind : node_kind) (tag : option string)
    (value : unicode) (implicit : bool * bool) : string :=
  match tag with
  | Some t => if bool_decide (t = "!") then resolve kind value implicit else t
  | None => resolve kind value implicit
  end.

Fixpoint compose_node (e : presentation) : node :=
  match e with
  | EScalar tag style value =>
      ScalarNode (composed_tag KScalar tag value (parser_implicit tag style))
                 value style
  | ESequence tag items =>
      SequenceNode (composed_tag KSequence tag [] (untagged tag, false))
                   (map compose_node items)
  | EMapping tag pairs =>
      MappingNode (composed_tag KMapping tag [] (untagged tag, false))
                  (map (fun kv => (compose_node kv.1, compose_node kv.2)) pairs)
  end.

(** [get_single_node] on the documents of a stream. *)
Definition get_single_node (stream : list presentation)
  : result (option node) :=
  match stream with
  | [] => Ok None
  | [document] => Ok (Some (compose_node document))
  | _ :: _ :: _ => Raise LoadError
  end.

(** ** Class tables and the statements of the module *)

(** Constructors: those [SafeConstructor] registers and the two functions
    of saneyaml.py. *)
Inductive constructor :=
| construct_yaml_null | construct_yaml_bool | construct_yaml_int
| construct_yaml_float | construct_yaml_binary | construct_yaml_timestamp
| construct_yaml_omap | construct_yaml_pairs | construct_yaml_set
| construct_yaml_str | construct_yaml_seq | construct_yaml_map
| construct_undefined
| string_loader
| ordered_loader.

(** Representers: those [SafeRepresenter] registers and the functions of
    saneyaml.py; [string_dumper] carries its [_tag] argument. *)
Inductive representer :=
| represent_none | represent_str | represent_unicode | represent_bool
| represent_int | represent_long | represent_float | represent_list
| represent_dict | represent_set | represent_date | represent_datetime
| represent_undefined
| ordered_dumper
| null_dumper
| string_dumper (_tag : string)
| boolean_dumper.

(** The tables are keyed by tag, respectively by type; the key [None] holds
    the fallback. *)
Abbreviation constructors := (gmap (option string) constructor).
Abbreviation representers := (gmap (option pytype) representer).

Definition SafeConstructor_yaml_constructors : constructors :=
  list_to_map
    [ (Some Tag.null, construct_yaml_null);
      (Some Tag.bool, construct_yaml_bool);
      (Some Tag.int, construct_yaml_int);
      (Some Tag.float, construct_yaml_float);
      (Some Tag.binary, construct_yaml_binary);
      (Some Tag.timestamp, construct_yaml_timestamp);
      (Some Tag.omap, construct_yaml_omap);
      (Some Tag.pairs, construct_yaml_pairs);
      (Some Tag.set, construct_yaml_set);
      (Some Tag.str, construct_yaml_str);
      (Some Tag.seq, construct_yaml_seq);
      (Some Tag.map, construct_yaml_map);
      (None, construct_undefined) ].

Definition SafeRepresenter_yaml_representers : representers :=
  list_to_map
    [ (Some T_NoneType, represent_none);
      (Some T_str, represent_str);
      (Some T_unicode, represent_unicode);
      (Some T_bool, represent_bool);
      (Some T_int, represent_int);
      (Some T_long, represent_long);
      (Some T_float, represent_float);
      (Some T_list, represent_list);
      (Some T_tuple, represent_list);
      (Some T_dict, represent_dict);
      (Some T_set, represent_set);
      (Some T_date, represent_date);
      (Some T_datetime, represent_datetime);
      (None, represent_undefined) ].

Inductive loader_class := SafeLoader | SaneLoader.
Inductive dumper_class := SafeDumper | SaneDumper.

(** The [yaml_constructors] and [yaml_representers] attributes the four
    classes hold in their own [__dict__], if they do. *)
Record class_tables := {
  SafeLoader_own : option constructors;
  SaneLoader_own : option constructors;
  SafeDumper_own : option representers;
  SaneDumper_own : option representers;
}.

(** At the [class] statements nothing is registered yet. *)
Definition classes_declared : class_tables :=
  {| SafeLoader_own := None; SaneLoader_own := None;
     SafeDumper_own := None; SaneDumper_own := None |}.

(** Attribute lookup along the bases: SaneLoader(SafeLoader),
    SafeLoader(..., SafeConstructor, ...), and the same for the dumpers. *)
Definition yaml_constructors (cls : loader_class) (st : class_tables)
  : constructors :=
  let safe := default SafeConstructor_yaml_constructors (SafeLoader_own st) in
  match cls with
  | SafeLoader => safe
  | SaneLoader => default safe (SaneLoader_own st)
  end.

Definition yaml_representers (cls : dumper_class) (st : class_tables)
  : representers :=
  let safe := default SafeRepresenter_yaml_representers (SafeDumper_own st) in
  match cls with
  | SafeDumper => safe
  | SaneDumper => default safe (SaneDumper_own st)
  end.

(** [add_constructor]: the class copies the table it sees into its own
    [__dict__] the first time, then stores the entry there. *)
Definition add_constructor (cls : loader_class) (tag : string)
    (c : constructor) (st : class_tables) : class_tables :=
  let own := <[Some tag := c]> (yaml_constructors cls st) in
  match cls with
  | SafeLoader =>
      {| SafeLoader_own := Some own; SaneLoader_own := SaneLoader_own st;
         SafeDumper_own := SafeDumper_own st;
         SaneDumper_own := SaneDumper_own st |}
  | SaneLoader =>
      {| SafeLoader_own := SafeLoader_own st; SaneLoader_own := Some own;
         SafeDumper_own := SafeDumper_own st;
         SaneDumper_own := SaneDumper_own st |}
  end.

Definition add_representer (cls : dumper_class) (data_type : pytype)
    (r : representer) (st : class_tables) : class_tables :=
  let own := <[Some data_type := r]> (yaml_representers cls st) in
  match cls with
  | SafeDumper =>
      {| SafeLoader_own := SafeLoader_own st;
         SaneLoader_own := SaneLoader_own st;
         SafeDumper_own := Some own; SaneDumper_own := SaneDumper_own st |}
  | SaneDumper =>
      {| SafeLoader_own := SafeLoader_own st;
         SaneLoader_own := SaneLoader_own st;
         SafeDumper_own := SafeDumper_own st; SaneDumper_own := Some own |}
  end.

(** The registrations of saneyaml.py, in the order of the file. *)
Definition saneyaml_statements : list (class_tables -> class_tables) :=
  [ (* 102 *) add_constructor SaneLoader "tag:yaml.org,2002:str" string_loader;
    (* 112 *) add_constructor SaneLoader "tag:yaml.org,2002:null" string_loader;
    (* 113 *) add_constructor SaneLoader "tag:yaml.org,2002:boolean" string_loader;
    (* 114 *) add_constructor SaneLoader "tag:yaml.org,2002:timestamp" string_loader;
    (* 115 *) add_constructor SaneLoader "tag:yaml.org,2002:float" string_loader;
    (* 116 *) add_constructor SaneLoader "tag:yaml.org,2002:int" string_loader;
    (* 117 *) add_constructor SaneLoader "tag:yaml.org,2002:null" string_loader;
    (* 133 *) add_constructor SaneLoader "tag:yaml.org,2002:map" ordered_loader;
    (* 134 *) add_constructor SaneLoader "tag:yaml.org,2002:omap" ordered_loader;
    (* 151 *) add_representer SaneDumper T_OrderedDict ordered_dumper;
    (* 160 *) add_representer SafeDumper T_NoneType null_dumper;
    (* 201 *) add_representer SaneDumper T_str (string_dumper "tag:yaml.org,2002:str");
    (* 202 *) add_representer SaneDumper T_unicode (string_dumper "tag:yaml.org,2002:str");
    (* 203 *) add_representer SaneDumper T_int (string_dumper "tag:yaml.org,2002:int");
    (* 204 *) add_representer SaneDumper T_float (string_dumper "tag:yaml.org,2002:float");
    (* 215 *) add_representer SaneDumper T_bool boolean_dumper ].

(** The tables once the module is imported. *)
Definition saneyaml : class_tables :=
  fold_left (fun st stmt => stmt st) saneyaml_statements classes_declared.

(** ** Constructor (load side) *)

Definition node_tag (n : node) : string :=
  match n with
  | ScalarNode t _ _ | SequenceNode t _ | MappingNode t _ => t
  end.

(** [SafeConstructor.construct_scalar]: the text of a scalar node; of a
    mapping node, the scalar under its first key tagged [value]. *)
Section ValueKey.
Variable construct_scalar : node -> result unicode.

Fixpoint under_value_key (ps : list (node * node)) : result unicode :=
  match ps with
  | [] => Raise LoadError
  | (key_node, value_node) :: ps' =>
      if bool_decide (node_tag key_node = Tag.value)
      then construct_scalar value_node
      else under_value_key ps'
  end.
End ValueKey.

Fixpoint construct_scalar (n : node) : result unicode :=
  match n with
  | ScalarNode _ value _ => Ok value
  | SequenceNode _ _ => Raise LoadError
  | MappingNode _ pairs => under_value_key construct_scalar pairs
  end.

Definition is_ascii (s : unicode) : bool := forallb (fun c => N.ltb c 128) s.

Definition bytes_of (s : unicode) : string :=
  string_of_list_ascii (map ascii_of_N s).

Definition lower_char (c : N) : N :=
  if N.leb 65 c && N.leb c 90 then (c + 32)%N else c.

(** [bool_values[value.lower()]]; only the letters A to Z are lowered, no
    other code point lowers to a letter of the six words. *)
Definition bool_values (value : unicode) : result bool :=
  let v := map lower_char value in
  if existsb (unicode_eqb v) [u "yes"; u "true"; u "on"] then Ok true
  else if existsb (unicode_eqb v) [u "no"; u "false"; u "off"] then Ok false
  else Raise LoadError.

(** Hashing a list or a dict raises TypeError. *)
Fixpoint hashable (o : pyobj) : bool :=
  match o with
  | PList _ | POrderedDict _ => false
  | PTuple items => forallb hashable items
  | _ => true
  end.

(** [==] on the hashable values a loader builds: None, booleans, byte
    strings and unicode texts (a byte string equals a text when it is ASCII
    and has the same characters). *)
Definition key_eqb (a b : pyobj) : bool :=
  match a, b with
  | PNone, PNone => true
  | PBool x, PBool y => Bool.eqb x y
  | PUnicode x, PUnicode y => unicode_eqb x y
  | PStr x, PStr y => String.eqb x y
  | PStr x, PUnicode y | PUnicode y, PStr x =>
      is_ascii (u x) && unicode_eqb (u x) y
  | _, _ => false
  end.

(** [omap[key] = value] on the items of an OrderedDict: a key already there
    keeps its place (and its first key object), a new one goes last. *)
Fixpoint odict_set (items : list (pyobj * pyobj)) (key value : pyobj)
  : list (pyobj * pyobj) :=
  match items with
  | [] => [(key, value)]
  | (k, v) :: rest =>
      if key_eqb k key then (k, value) :: rest
      else (k, v) :: odict_set rest key value
  end.

Definition odict_setitem (items : list (pyobj * pyobj)) (key value : pyobj)
  : result (list (pyobj * pyobj)) :=
  if hashable key then Ok (odict_set items key value) else Raise LoadError.

Section OrderedLoop.
Variable construct_object : node -> result pyobj.

(** The loop of [ordered_loader] over [node.value]. *)
Fixpoint ordered_loop (ps : list (node * node))
    (omap : list (pyobj * pyobj)) : result (list (pyobj * pyobj)) :=
  match ps with
  | [] => Ok omap
  | (key_node, value_node) :: ps' =>
      do key <- construct_object key_node;
      do value <- construct_object value_node;
      do omap' <- odict_setitem omap key value;
      ordered_loop ps' omap'
  end.
End OrderedLoop.

Section Constructor.

(** The [yaml_constructors] of the loader class in use. *)
Variable table : constructors.

Definition constructor_for (n : node) : option constructor :=
  match table !! Some (node_tag n) with
  | Some c => Some c
  | None => table !! None
  end.

Fixpoint construct_object (n : node) : result pyobj :=
  let construct_sequence (n : node) : result (list pyobj) :=
    match n with
    | SequenceNode _ items => mapM construct_object items
    | _ => Raise LoadError
    end in
  match constructor_for n with
  | Some string_loader =>
      (* return loader.construct_scalar(node) *)
      do value <- construct_scalar n; Ok (PUnicode value)
  | Some ordered_loader =>
      match n with
      | MappingNode _ pairs =>
          do omap <- ordered_loop construct_object pairs [];
          Ok (POrderedDict omap)
      | _ => (* assert isinstance(node, yaml.MappingNode) *) Raise LoadError
      end
  | Some construct_yaml_null =>
      do _ <- construct_scalar n; Ok PNone
  | Some construct_yaml_bool =>
      do value <- construct_scalar n;
      do b <- bool_values value;
      Ok (PBool b)
  | Some construct_yaml_str =>
      do value <- construct_scalar n;
      Ok (if is_ascii value then PStr (bytes_of value) else PUnicode value)
  | Some construct_yaml_seq =>
      do items <- construct_sequence n; Ok (PList items)
  | Some construct_undefined => Raise LoadError
  | Some _ => NotModelled
  | None =>
      match n with
      | ScalarNode _ _ _ => do value <- construct_scalar n; Ok (PUnicode value)
      | SequenceNode _ _ => do items <- construct_sequence n; Ok (PList items)
      | MappingNode _ _ => NotModelled
      end
  end.

Definition construct_document (n : node) : result pyobj := construct_object n.

End Constructor.

(** [yaml.load(stream, Loader)] on the documents the parser finds. *)
Definition yaml_load (stream : list presentation) (Loader : loader_class)
    (st : class_tables) : result pyobj :=
  do n <- get_single_node stream;
  match n with
  | Some n => construct_document (yaml_constructors Loader st) n
  | None => Ok PNone
  end.

(** [load] of saneyaml.py, on the documents of the text. *)
Definition load_stream (stream : list presentation) : result pyobj :=
  yaml_load stream SaneLoader saneyaml.

(** ** Representer (dump side) *)

Definition CR : N := 13%N.

(** The line boundaries of [unicode.splitlines]. *)
Definition is_linebreak (c : N) : bool :=
  char_in c [10; 11; 12; 13; 28; 29; 30; 133; 8232; 8233]%N.

(** [value.splitlines(False)]: the lines without their ends; a carriage
    return followed by a line feed ends one line; no empty last line.
    [cur] holds the current line, reversed. *)
Fixpoint splitlines_from (after_cr : bool) (cur : unicode) (s : unicode)
  : list unicode :=
  match s with
  | [] => match cur with [] => [] | _ => [List.rev cur] end
  | c :: s' =>
      if after_cr && N.eqb c LF then splitlines_from false cur s'
      else if is_linebreak c
           then List.rev cur :: splitlines_from (N.eqb c CR) [] s'
           else splitlines_from false (c :: cur) s'
  end.

Definition splitlines (s : unicode) : list unicode :=
  splitlines_from false [] s.

(** [repr] of the values that reach [string_dumper] without being strings:
    an int gives its decimal digits, a float the text it is carried by. *)
Definition repr (value : pyobj) : result string :=
  match value with
  | PInt z => Ok (NilZero.string_of_int (Z.to_int z))
  | PFloat r => Ok r
  | _ => NotModelled
  end.

(** A continuation byte, 80 to BF. *)
Definition continuation (b : N) : bool := N.leb 128 b && N.leb b 191.

(** The UTF-8 decoder of CPython 2.7 in strict mode, on the values of the
    bytes: the sequences of one to four bytes of RFC 3629, the shortest
    form only and no code point above 10FFFF; the three-byte forms of the
    surrogates D800 to DFFF go through, as that decoder lets them.  A lead
    byte 80 to C1 or F5 to FF, a missing or wrong continuation byte raises
    UnicodeDecodeError.  A four-byte sequence gives one code point (wide
    build). *)
Fixpoint utf8_decode (bs : list N) : result unicode :=
  match bs with
  | [] => Ok []
  | b0 :: bs1 =>
      if N.ltb b0 128 then
        do s <- utf8_decode bs1; Ok (b0 :: s)
      else if N.leb 194 b0 && N.leb b0 223 then
        match bs1 with
        | b1 :: bs2 =>
            if continuation b1
            then do s <- utf8_decode bs2;
                 Ok (((b0 - 192) * 64 + (b1 - 128))%N :: s)
            else Raise UnicodeDecodeError
        | _ => Raise UnicodeDecodeError
        end
      else if N.leb 224 b0 && N.leb b0 239 then
        match bs1 with
        | b1 :: b2 :: bs3 =>
            if continuation b1 && continuation b2
               && negb (N.eqb b0 224 && N.ltb b1 160)
            then do s <- utf8_decode bs3;
                 Ok (((b0 - 224) * 4096 + (b1 - 128) * 64 + (b2 - 128))%N :: s)
            else Raise UnicodeDecodeError
        | _ => Raise UnicodeDecodeError
        end
      else if N.leb 240 b0 && N.leb b0 244 then
        match bs1 with
        | b1 :: b2 :: b3 :: bs4 =>
            if continuation b1 && continuation b2 && continuation b3
               && negb (N.eqb b0 240 && N.ltb b1 144)
               && negb (N.eqb b0 244 && N.ltb 143 b1)
            then do s <- utf8_decode bs4;
                 Ok (((b0 - 240) * 262144 + (b1 - 128) * 4096
                      + (b2 - 128) * 64 + (b3 - 128))%N :: s)
            else Raise UnicodeDecodeError
        | _ => Raise UnicodeDecodeError
        end
      else Raise UnicodeDecodeError
  end.

(** [value.decode('utf-8')] (line 174). *)
Definition decode_utf8 (b : string) : result unicode := utf8_decode (u b).

(** [unicode(s)] on a byte string: the default codec is ASCII. *)
Definition ascii_decode (b : string) : result unicode :=
  if is_ascii (u b) then Ok (u b) else Raise UnicodeDecodeError.

Definition folded_style : style_char := Folded.
Definition verbatim_style : style_char := Literal.

(** The style [string_dumper] asks for (lines 181 to 191). *)
Definition string_style (value : unicode) : option style_char :=
  let long_lines :=
    existsb (fun line => Nat.ltb 40 (length line)) (splitlines value)
    && char_in SPACE value in
  let multilines := char_in LF value in
  if multilines then Some verbatim_style
  else if long_lines then Some folded_style
  else None.

Inductive basestring :=
| Bytes (b : string)
| Text (s : unicode).

Section Representer.

Variable table : representers.
(** [default_style] of the dumper. *)
Variable default_style : option style_char.

Definition represent_scalar (tag : string) (value : unicode)
    (style : option style_char) : node :=
  ScalarNode tag value
    (match style with None => default_style | Some _ => style end).

(** [string_dumper(dumper, value, _tag)]. *)
Definition run_string_dumper (_tag : string) (value : pyobj) : result node :=
  do value1 <-
    (match value with
     | PStr b => Ok (Bytes b)
     | PUnicode s => Ok (Text s)
     | _ => (* value = repr(value) *) do r <- repr value; Ok (Bytes r)
     end);
  do value2 <-
    (match value1 with
     | Bytes b => decode_utf8 b
     | Text s => Ok s
     end);
  Ok (represent_scalar _tag value2 (string_style value2)).

(** [boolean_dumper(dumper, value)]. *)
Definition run_boolean_dumper (value : bool) : node :=
  let value := if value then u "yes" else u "no" in
  let style := None in
  represent_scalar "tag:yaml.org,2002:bool" value style.

Definition representer_for (data : pyobj) : option representer :=
  match table !! Some (type_of data) with
  | Some r => Some r
  | None => table !! None
  end.

Fixpoint represent_data (data : pyobj) : result node :=
  let represent_sequence (tag : string) (sequence : list pyobj) :=
    do value <- mapM represent_data sequence;
    Ok (SequenceNode tag value) in
  let represent_mapping (tag : string) (mapping : list (pyobj * pyobj)) :=
    do value <- mapM_pairs represent_data mapping;
    Ok (MappingNode tag value) in
  match representer_for data with
  | Some ordered_dumper =>
      match data with
      | POrderedDict items =>
          (* dumper.represent_mapping(u'tag:yaml.org,2002:map', data.items()) *)
          represent_mapping "tag:yaml.org,2002:map" items
      | _ => NotModelled
      end
  | Some null_dumper =>
      Ok (represent_scalar "tag:yaml.org,2002:null" (u "") None)
  | Some (string_dumper _tag) => run_string_dumper _tag data
  | Some boolean_dumper =>
      match data with
      | PBool b => Ok (run_boolean_dumper b)
      | _ => NotModelled
      end
  | Some represent_none =>
      Ok (represent_scalar "tag:yaml.org,2002:null" (u "null") None)
  | Some represent_list =>
      match data with
      | PList items | PTuple items =>
          represent_sequence "tag:yaml.org,2002:seq" items
      | _ => NotModelled
      end
  | Some represent_date =>
      match data with
      | PDate iso =>
          (* value = unicode(data.isoformat()) *)
          do value <- ascii_decode iso;
          Ok (represent_scalar "tag:yaml.org,2002:timestamp" value None)
      | _ => NotModelled
      end
  | Some represent_undefined => Raise RepresenterError
  | Some _ => NotModelled
  | None => NotModelled
  end.

End Representer.

(** ** Serializer and emitter: what gets written for a node *)

Record ScalarAnalysis := {
  empty : bool;
  multiline : bool;
  allow_flow_plain : bool;
  allow_block_plain : bool;
  allow_single_quoted : bool;
  allow_double_quoted : bool;
  allow_block : bool;
}.

Definition node_style (n : node) : option style_char :=
  match n with
  | ScalarNode _ _ style => style
  | _ => None
  end.

Section Emitter.

(** The analysis of a scalar's characters and the text of a tag as the
    emitter in use computes them (the engine has a Python emitter and a C
    one); the results below hold for any. *)
Variable analyze_scalar : unicode -> ScalarAnalysis.
Variable prepare_tag : string -> string.
Variable canonical : bool.

(** The [implicit] pair the serializer attaches to a scalar event. *)
Definition serializer_implicit (tag : string) (value : unicode)
  : bool * bool :=
  (bool_decide (tag = resolve KScalar value (true, false)),
   bool_decide (tag = resolve KScalar value (false, true))).

(** [choose_scalar_style]; the result [None] is the plain style.  Block
    collections only: [flow_level] is 0 wherever a scalar stands. *)
Definition choose_scalar_style (style : option style_char)
    (implicit : bool * bool) (simple_key_context : bool)
    (analysis : ScalarAnalysis) : option style_char :=
  let flow_level := false in
  if bool_decide (style = Some DoubleQuoted) || canonical
  then Some DoubleQuoted
  else if bool_decide (style = None) && implicit.1
          && negb (simple_key_context
                   && (empty analysis || multiline analysis))
          && (if flow_level then allow_flow_plain analysis
              else allow_block_plain analysis)
  then None
  else if (bool_decide (style = Some Literal)
           || bool_decide (style = Some Folded))
          && negb flow_level && negb simple_key_context
          && allow_block analysis
  then style
  else if (bool_decide (style = None)
           || bool_decide (style = Some SingleQuoted))
          && allow_single_quoted analysis
          && negb (simple_key_context && multiline analysis)
  then Some SingleQuoted
  else Some DoubleQuoted.

(** [process_tag] for a scalar: is the tag left out? *)
Definition scalar_tag_written (tag : string) (implicit : bool * bool)
    (chosen : option style_char) : option string :=
  if negb canonical
     && ((bool_decide (chosen = None) && implicit.1)
         || (negb (bool_decide (chosen = None)) && implicit.2))
  then None
  else Some tag.

(** [process_tag] for a collection, whose [implicit] is one flag. *)
Definition collection_tag_written (tag : string) (implicit : bool)
  : option string :=
  if negb canonical && implicit then None else Some tag.

(** [check_simple_key] on the event of a key node. *)
Definition check_simple_key (key : node) : bool :=
  match key with
  | ScalarNode tag value _ =>
      let analysis := analyze_scalar value in
      Nat.ltb (String.length (prepare_tag tag) + length value) 128
      && negb (empty analysis) && negb (multiline analysis)
  | SequenceNode tag items =>
      Nat.ltb (String.length (prepare_tag tag)) 128
      && bool_decide (items = [])
  | MappingNode tag pairs =>
      Nat.ltb (String.length (prepare_tag tag)) 128
      && bool_decide (pairs = [])
  end.

Fixpoint emit_node (simple_key_context : bool) (n : node) : presentation :=
  match n with
  | ScalarNode tag value style =>
      let implicit := serializer_implicit tag value in
      let chosen :=
        choose_scalar_style style implicit simple_key_context
                            (analyze_scalar value) in
      EScalar (scalar_tag_written tag implicit chosen) chosen value
  | SequenceNode tag items =>
      ESequence
        (collection_tag_written tag
           (bool_decide (tag = resolve KSequence [] (true, false))))
        (map (emit_node false) items)
  | MappingNode tag pairs =>
      EMapping
        (collection_tag_written tag
           (bool_decide (tag = resolve KMapping [] (true, false))))
        (map (fun kv => (emit_node (check_simple_key kv.1) kv.1,
                         emit_node false kv.2)) pairs)
  end.

End Emitter.

(** ** The Python emitter's analysis *)

Module PyEmitter.

Definition is_ws (c : N) : bool := char_in c [0; 32; 9; 13; 10; 133; 8232; 8233]%N.
Definition is_break (c : N) : bool := char_in c [10; 133; 8232; 8233]%N.

Record flags := {
  block_indicators : bool;
  flow_indicators : bool;
  line_breaks : bool;
  special_characters : bool;
  leading_space : bool;
  leading_break : bool;
  trailing_space : bool;
  trailing_break : bool;
  break_space : bool;
  space_break : bool;
  preceded_by_whitespace : bool;
  previous_space : bool;
  previous_break : bool;
}.

(** One turn of the loop of [analyze_scalar] on character [ch];
    [first]: index 0, [last]: index len-1, [followed]: the flag
    [followed_by_whitespace]. *)
Definition step (allow_unicode first last followed : bool) (ch : N)
    (f : flags) : flags :=
  let ind1 := first && char_in ch (u "#,[]{}&*!|>'%@`" ++ [34%N]) in
  let ind2 := first && char_in ch (u "?:") in
  let ind3 := first && N.eqb ch 45 && followed in
  let ind4 := negb first && char_in ch (u ",?[]{}") in
  let ind5 := negb first && N.eqb ch 58 in
  let ind6 := negb first && N.eqb ch 35 && preceded_by_whitespace f in
  let printable := N.eqb ch 10 || (N.leb 32 ch && N.leb ch 126) in
  let unicode_character :=
    (N.eqb ch 133 || (N.leb 160 ch && N.leb ch 55295)
     || (N.leb 57344 ch && N.leb ch 65533))
    && negb (N.eqb ch 65279) in
  let special :=
    negb printable && (if unicode_character then negb allow_unicode else true) in
  let sp := N.eqb ch 32 in
  let br := negb sp && is_break ch in
  {| flow_indicators :=
       flow_indicators f || ind1 || ind2 || ind3 || ind4 || ind5 || ind6;
     block_indicators :=
       block_indicators f || ind1 || (ind2 && followed) || ind3
       || (ind5 && followed) || ind6;
     line_breaks := line_breaks f || is_break ch;
     special_characters := special_characters f || special;
     leading_space := leading_space f || (sp && first);
     leading_break := leading_break f || (br && first);
     trailing_space := trailing_space f || (sp && last);
     trailing_break := trailing_break f || (br && last);
     break_space := break_space f || (sp && previous_break f);
     space_break := space_break f || (br && previous_space f);
     preceded_by_whitespace := is_ws ch;
     previous_space := sp;
     previous_break := br |}.

Fixpoint loop (allow_unicode first : bool) (s : unicode) (f : flags) : flags :=
  match s with
  | [] => f
  | ch :: rest =>
      let last := match rest with [] => true | _ => false end in
      let followed := match rest with [] => true | c :: _ => is_ws c end in
      loop allow_unicode false rest (step allow_unicode first last followed ch f)
  end.

Definition analyze_scalar (allow_unicode : bool) (scalar : unicode)
  : ScalarAnalysis :=
  match scalar with
  | [] =>
      {| empty := true; multiline := false;
         allow_flow_plain := false; allow_block_plain := true;
         allow_single_quoted := true; allow_double_quoted := true;
         allow_block := false |}
  | _ =>
      let document_indicator :=
        startswith (u "---") scalar || startswith (u "...") scalar in
      let f :=
        loop allow_unicode true scalar
          {| block_indicators := document_indicator;
             flow_indicators := document_indicator;
             line_breaks := false; special_characters := false;
             leading_space := false; leading_break := false;
             trailing_space := false; trailing_break := false;
             break_space := false; space_break := false;
             preceded_by_whitespace := true;
             previous_space := false; previous_break := false |} in
      let edge := leading_space f || leading_break f
                  || trailing_space f || trailing_break f in
      let only_double := space_break f || special_characters f in
      {| empty := false;
         multiline := line_breaks f;
         allow_flow_plain :=
           negb (edge || break_space f || only_double || line_breaks f
                 || flow_indicators f);
         allow_block_plain :=
           negb (edge || break_space f || only_double || line_breaks f
                 || block_indicators f);
         allow_single_quoted := negb (break_space f || only_double);
         allow_double_quoted := true;
         allow_block := negb (trailing_space f || only_double) |}
  end.

Definition tag_char_safe (handle_is_bang : bool) (c : ascii) : bool :=
  let n := N_of_ascii c in
  (N.leb 48 n && N.leb n 57) || (N.leb 65 n && N.leb n 90)
  || (N.leb 97 n && N.leb n 122)
  || char_in n (u "-;/?:@&=+$,_.~*'()[]")
  || (N.eqb n 33 && negb handle_is_bang).

Definition hex_digit (n : N) : ascii :=
  ascii_of_N (if N.ltb n 10 then 48 + n else 55 + n).

Fixpoint escape_suffix (handle_is_bang : bool) (s : string) : string :=
  match s with
  | EmptyString => EmptyString
  | String c s' =>
      if tag_char_safe handle_is_bang c
      then String c (escape_suffix handle_is_bang s')
      else let n := N_of_ascii c in
           String "%" (String (hex_digit (n / 16)) (String (hex_digit (n mod 16))
             (escape_suffix handle_is_bang s')))
  end.

(** [prepare_tag] with the two default tag prefixes. *)
Definition prepare_tag (tag : string) : string :=
  let yaml_prefix := "tag:yaml.org,2002:" in
  if String.eqb tag "!" then tag
  else if String.prefix yaml_prefix tag
          && Nat.ltb (String.length yaml_prefix) (String.length tag)
  then "!!" ++ escape_suffix false
                 (String.substring (String.length yaml_prefix)
                    (String.length tag - String.length yaml_prefix) tag)
  else if String.prefix "!" tag
  then "!" ++ escape_suffix true
                (String.substring 1 (String.length tag - 1) tag)
  else "!<" ++ escape_suffix false tag ++ ">".

End PyEmitter.

(** ** The two entry points *)

Record dump_kwargs := {
  Dumper : dumper_class;
  default_style : option style_char;
  canonical : bool;
  allow_unicode : bool;
}.

Section Dump.

Variable analyze_scalar : bool -> unicode -> ScalarAnalysis.
Variable prepare_tag : string -> string.

(** [yaml.dump(data, **kwargs)], up to the document the emitter writes. *)
Definition yaml_dump (st : class_tables) (kwargs : dump_kwargs)
    (data : pyobj) : result presentation :=
  do n <- represent_data (yaml_representers (Dumper kwargs) st)
                         (default_style kwargs) data;
  Ok (emit_node (analyze_scalar (allow_unicode kwargs)) prepare_tag
                (canonical kwargs) false n).

(** The keyword arguments of [dump] that bear on the document; the others
    (block style, indent=4, width=80, line_break, no document markers)
    only lay out the text. *)
Definition sane_kwargs : dump_kwargs :=
  {| Dumper := SaneDumper; default_style := None;
     canonical := false; allow_unicode := true |}.

Definition dump_with (obj : pyobj) : result presentation :=
  yaml_dump saneyaml sane_kwargs obj.

End Dump.

(** [dump] of saneyaml.py with the Python emitter. *)
Definition dump (obj : pyobj) : result presentation :=
  dump_with PyEmitter.analyze_scalar PyEmitter.prepare_tag obj.

(** ** A reader for flat documents

    The part of the engine's scanner and parser that [load] needs on the
    simplest texts: lines ended by line feeds, empty lines aside; either one
    line holding a plain word, or lines [key: value] of plain words, which
    make one block mapping.  A word starts with a letter, a digit or a
    tilde and goes on with letters, digits, dots, dashes, underscores and
    tildes, so that no indicator of the format occurs in it.  Any other
    text is outside the reader. *)

Module FlatReader.

Definition is_alnum (c : N) : bool :=
  (N.leb 48 c && N.leb c 57) || (N.leb 65 c && N.leb c 90)
  || (N.leb 97 c && N.leb c 122).

Definition word_char (c : N) : bool := is_alnum c || char_in c (u ".-_~").

Definition is_word (w : unicode) : bool :=
  match w with
  | [] => false
  | c :: rest => (is_alnum c || N.eqb c 126) && forallb word_char rest
  end.

(** The text cut at its line feeds; [cur] is the current line, reversed. *)
Fixpoint lines_from (cur : unicode) (s : unicode) : list unicode :=
  match s with
  | [] => [List.rev cur]
  | c :: s' =>
      if N.eqb c LF then List.rev cur :: lines_from [] s'
      else lines_from (c :: cur) s'
  end.

(** [key: value] cut at its first colon. *)
Fixpoint cut_entry (key : unicode) (s : unicode) : option (unicode * unicode) :=
  match s with
  | [] => None
  | c :: s' =>
      if N.eqb c 58 then
        match s' with
        | sp :: value =>
            if N.eqb sp SPACE then Some (List.rev key, value) else None
        | [] => None
        end
      else cut_entry (c :: key) s'
  end.

Definition plain (w : unicode) : presentation := EScalar None None w.

(** A simple key must meet its colon within 1024 characters. *)
Definition entry (line : unicode) : option (presentation * presentation) :=
  match cut_entry [] line with
  | Some (key, value) =>
      if is_word key && Nat.leb (length key) 1000 && is_word value
      then Some (plain key, plain value)
      else None
  | None => None
  end.

Fixpoint entries (ls : list unicode)
  : option (list (presentation * presentation)) :=
  match ls with
  | [] => Some []
  | l :: ls' =>
      match entry l, entries ls' with
      | Some e, Some es => Some (e :: es)
      | _, _ => None
      end
  end.

Definition nonempty (l : unicode) : bool :=
  match l with [] => false | _ => true end.

(** The documents of the text. *)
Definition read (text : unicode) : result (list presentation) :=
  match List.filter nonempty (lines_from [] text) with
  | [] => Ok []
  | [l] =>
      if is_word l then Ok [plain l]
      else match entry l with
           | Some e => Ok [EMapping None [e]]
           | None => NotModelled
           end
  | ls =>
      match entries ls with
      | Some es => Ok [EMapping None es]
      | None => NotModelled
      end
  end.

End FlatReader.

(** [load(s)] of saneyaml.py. *)
Definition load (s : unicode) : result pyobj :=
  do stream <- FlatReader.read s;
  load_stream stream.

(** ** Notions used by the statements *)

Definition SaneLoader_table : constructors := yaml_constructors SaneLoader saneyaml.
Definition SaneDumper_table : representers := yaml_representers SaneDumper saneyaml.

(** One cycle through the text: what [load] returns on what [dump] wrote. *)
Definition load_dump (obj : pyobj) : result pyobj :=
  do d <- dump obj; load_stream [d].

Definition dump_load_dump (obj : pyobj) : result presentation :=
  do obj' <- load_dump obj; dump obj'.

Definition is_text (o : pyobj) : bool :=
  match o with PUnicode _ => true | _ => false end.

Definition is_scalar_key (o : pyobj) : bool :=
  match o with PUnicode _ | PBool _ => true | _ => false end.

(** No two keys are equal for Python. *)
Fixpoint distinct_keys (ks : list pyobj) : bool :=
  match ks with
  | [] => true
  | k :: rest => negb (existsb (key_eqb k) rest) && distinct_keys rest
  end.

(** Trees whose scalars are all texts: unicode strings, lists and
    OrderedDicts keyed by distinct unicode strings. *)
Fixpoint text_tree (t : pyobj) : bool :=
  match t with
  | PUnicode _ => true
  | PList items => forallb text_tree items
  | POrderedDict items =>
      forallb (fun kv => is_text kv.1 && text_tree kv.2) items
      && distinct_keys (map fst items)
  | _ => false
  end.

(** The trees [load] builds from a document: texts and booleans, lists,
    OrderedDicts keyed by distinct texts and booleans. *)
Fixpoint loaded_tree (t : pyobj) : bool :=
  match t with
  | PUnicode _ | PBool _ => true
  | PList items => forallb loaded_tree items
  | POrderedDict items =>
      forallb (fun kv => is_scalar_key kv.1 && loaded_tree kv.2) items
      && distinct_keys (map fst items)
  | _ => false
  end.

(** The seven kinds of the specification: null, boolean, integer, float,
    string (of bytes or of code points), sequence, mapping. *)
Fixpoint seven_kinds (t : pyobj) : bool :=
  match t with
  | PNone | PBool _ | PInt _ | PFloat _ | PStr _ | PUnicode _ => true
  | PList items => forallb seven_kinds items
  | POrderedDict items =>
      forallb (fun kv => seven_kinds kv.1 && seven_kinds kv.2) items
  | PTuple _ | PDate _ | PInstance _ => false
  end.

(** Some node of the tree is an instance of a class without representer. *)
Fixpoint has_instance (t : pyobj) : bool :=
  match t with
  | PInstance _ => true
  | PList items | PTuple items => existsb has_instance items
  | POrderedDict items =>
      existsb (fun kv => has_instance kv.1 || has_instance kv.2) items
  | _ => false
  end.

(** Every byte string, float text and date text of the tree is ASCII. *)
Fixpoint ascii_bytes (t : pyobj) : bool :=
  match t with
  | PFloat r | PStr r | PDate r => is_ascii (u r)
  | PList items | PTuple items => forallb ascii_bytes items
  | POrderedDict items =>
      forallb (fun kv => ascii_bytes kv.1 && ascii_bytes kv.2) items
  | _ => true
  end.

(** The value bound to the first key equal to [k]. *)
Fixpoint odict_get (items : list (pyobj * pyobj)) (k : pyobj) : option pyobj :=
  match items with
  | [] => None
  | (k', v) :: rest => if key_eqb k' k then Some v else odict_get rest k
  end.

(** The value of the last pair whose key equals [k]. *)
Definition last_value (kvs : list (pyobj * pyobj)) (k : pyobj) : option pyobj :=
  odict_get (List.rev kvs) k.

(** The keys in the order of their first occurrence. *)
Fixpoint first_occurrences (seen ks : list pyobj) : list pyobj :=
  match ks with
  | [] => []
  | k :: rest =>
      if existsb (fun k' => key_eqb k' k) seen then first_occurrences seen rest
      else k :: first_occurrences (seen ++ [k]) rest
  end.

(** Each key and each value of a mapping, loaded on its own. *)
Definition load_pairs (pairs : list (presentation * presentation))
  : result (list (pyobj * pyobj)) :=
  mapM_pairs (fun e => load_stream [e]) pairs.

Definition NL : string := String (ascii_of_N 10) "".

(** ** Induction on nodes and on values *)

Section NodeInduction.
Variable P : node -> Prop.
Hypothesis scalar_case : forall tag value style, P (ScalarNode tag value style).
Hypothesis sequence_case :
  forall tag items, Forall P items -> P (SequenceNode tag items).
Hypothesis mapping_case :
  forall tag pairs, Forall (fun kv => P kv.1 /\ P kv.2) pairs ->
                    P (MappingNode tag pairs).

Fixpoint node_nested_ind (n : node) : P n :=
  match n with
  | ScalarNode tag value style => scalar_case tag value style
  | SequenceNode tag items =>
      sequence_case tag items
        ((fix all (l : list node) : Forall P l :=
            match l with
            | [] => @List.Forall_nil _ _
            | x :: l' => @List.Forall_cons _ _ x l' (node_nested_ind x) (all l')
            end) items)
  | MappingNode tag pairs =>
      mapping_case tag pairs
        ((fix all (l : list (node * node))
            : Forall (fun kv => P kv.1 /\ P kv.2) l :=
            match l with
            | [] => @List.Forall_nil _ _
            | (k, v) :: l' =>
                @List.Forall_cons _ _ (k, v) l'
                  (conj (node_nested_ind k) (node_nested_ind v)) (all l')
            end) pairs)
  end.
End NodeInduction.

Section ValueInduction.
Variable P : pyobj -> Prop.
Hypothesis none_case : P PNone.
Hypothesis bool_case : forall b, P (PBool b).
Hypothesis int_case : forall z, P (PInt z).
Hypothesis float_case : forall r, P (PFloat r).
Hypothesis str_case : forall b, P (PStr b).
Hypothesis unicode_case : forall s, P (PUnicode s).
Hypothesis list_case : forall items, Forall P items -> P (PList items).
Hypothesis tuple_case : forall items, Forall P items -> P (PTuple items).
Hypothesis odict_case :
  forall items, Forall (fun kv => P kv.1 /\ P kv.2) items ->
                P (POrderedDict items).
Hypothesis date_case : forall d, P (PDate d).
Hypothesis instance_case : forall c, P (PInstance c).

Fixpoint pyobj_nested_ind (t : pyobj) : P t :=
  let all :=
    fix all (l : list pyobj) : Forall P l :=
      match l with
      | [] => @List.Forall_nil _ _
      | x :: l' => @List.Forall_cons _ _ x l' (pyobj_nested_ind x) (all l')
      end in
  match t with
  | PNone => none_case
  | PBool b => bool_case b
  | PInt z => int_case z
  | PFloat r => float_case r
  | PStr b => str_case b
  | PUnicode s => unicode_case s
  | PList items => list_case items (all items)
  | PTuple items => tuple_case items (all items)
  | POrderedDict items =>
      odict_case items
        ((fix allp (l : list (pyobj * pyobj))
            : Forall (fun kv => P kv.1 /\ P kv.2) l :=
            match l with
            | [] => @List.Forall_nil _ _
            | (k, v) :: l' =>
                @List.Forall_cons _ _ (k, v) l'
                  (conj (pyobj_nested_ind k) (pyobj_nested_ind v)) (allp l')
            end) items)
  | PDate d => date_case d
  | PInstance c => instance_case c
  end.
End ValueInduction.

(** A node without its scalar styles. *)
Fixpoint strip (n : node) : node :=
  match n with
  | ScalarNode tag value _ => ScalarNode tag value None
  | SequenceNode tag items => SequenceNode tag (map strip items)
  | MappingNode tag pairs =>
      MappingNode tag (map (fun kv => (strip kv.1, strip kv.2)) pairs)
  end.

(** No node carries the non-specific tag. *)
Fixpoint specific_tags (n : node) : bool :=
  negb (String.eqb (node_tag n) "!") &&
  match n with
  | ScalarNode _ _ _ => true
  | SequenceNode _ items => forallb specific_tags items
  | MappingNode _ pairs =>
      forallb (fun kv => specific_tags kv.1 && specific_tags kv.2) pairs
  end.

(** The representer [SaneDumper] holds for each type of value. *)
Definition sane_representer (data : pyobj) : representer :=
  match data with
  | PNone => represent_none
  | PBool _ => boolean_dumper
  | PInt _ => string_dumper Tag.int
  | PFloat _ => string_dumper Tag.float
  | PStr _ | PUnicode _ => string_dumper Tag.str
  | PList _ | PTuple _ => represent_list
  | POrderedDict _ => ordered_dumper
  | PDate _ => represent_date
  | PInstance _ => represent_undefined
  end.

(** The items after the assignments [omap[k] = v] of a list of pairs. *)
Definition odict_fold (kvs omap : list (pyobj * pyobj)) : list (pyobj * pyobj) :=
  fold_left (fun o kv => odict_set o kv.1 kv.2) kvs omap.

(** A mapping of three keys, as the flat reader hands it over, and what it
    loads as. *)
Definition example_pairs : list (presentation * presentation) :=
  [(FlatReader.plain (u "k1"), FlatReader.plain (u "x"));
   (FlatReader.plain (u "k2"), FlatReader.plain (u "y"));
   (FlatReader.plain (u "k3"), FlatReader.plain (u "z"))].

Definition example_items : list (pyobj * pyobj) :=
  [(PUnicode (u "k1"), PUnicode (u "x"));
   (PUnicode (u "k2"), PUnicode (u "y"));
   (PUnicode (u "k3"), PUnicode (u "z"))].

(** The text a scalar other than a boolean is written as. *)
Definition scalar_text (t : pyobj) : unicode :=
  match t with
  | PNone => u "null"
  | PInt z => u (NilZero.string_of_int (Z.to_int z))
  | PFloat r | PStr r | PDate r => u r
  | PUnicode s => s
  | _ => []
  end.

(** What a tree comes back as after [dump] and [load]: a scalar as its
    text, a boolean as itself, a list or a tuple as a list, an OrderedDict
    as the OrderedDict its items, taken through the cycle, are assigned
    into. *)
Fixpoint as_loaded (t : pyobj) : pyobj :=
  match t with
  | PBool b => PBool b
  | PList items | PTuple items => PList (map as_loaded items)
  | POrderedDict items =>
      POrderedDict
        (odict_fold (map (fun kv => (as_loaded kv.1, as_loaded kv.2)) items) [])
  | _ => PUnicode (scalar_text t)
  end.

Definition is_scalar (t : pyobj) : bool :=
  match t with
  | PList _ | PTuple _ | POrderedDict _ | PInstance _ => false
  | _ => true
  end.

(** Every key of every OrderedDict of the tree is a scalar. *)
Fixpoint scalar_keys (t : pyobj) : bool :=
  match t with
  | PList items | PTuple items => forallb scalar_keys items
  | POrderedDict items =>
      forallb (fun kv => is_scalar kv.1 && scalar_keys kv.2) items
  | _ => true
  end.

(** A tree of typed values whose keys 1 and "1" meet after a cycle. *)
Definition example_typed_tree : pyobj :=
  POrderedDict [(PInt 1, PNone);
                (PUnicode (u "1"), PTuple [PFloat "3.14"; PBool true])].

(** The spellings the resolver takes for a boolean. *)
Definition bool_words (b : bool) : list string :=
  if b then ["yes"; "Yes"; "YES"; "true"; "True"; "TRUE"; "on"; "On"; "ON"]
  else ["no"; "No"; "NO"; "false"; "False"; "FALSE"; "off"; "Off"; "OFF"].

(** The texts that [lower] sends to a given word of small letters. *)
Fixpoint cased (w : unicode) : list unicode :=
  match w with
  | [] => [[]]
  | c :: r => flat_map (fun t => [c :: t; (c - 32)%N :: t]) (cased r)
  end.

(** Does the byte string decode (as UTF-8)? *)
Definition decodes (b : string) : bool :=
  match decode_utf8 b with Ok _ => true | _ => false end.

(** Every byte string of the tree decodes: a [str] as UTF-8 (line 174), and
    so the text a float is carried by (line 171; the [repr] of a Python
    float is ASCII); the text of a date is ASCII. *)
Fixpoint decodable (t : pyobj) : bool :=
  match t with
  | PStr b | PFloat b => decodes b
  | PDate iso => is_ascii (u iso)
  | PList items | PTuple items => forallb decodable items
  | POrderedDict items =>
      forallb (fun kv => decodable kv.1 && decodable kv.2) items
  | _ => true
  end.

(** The ends of lines for [unicode.splitlines]: LF, VT, FF, CR, FS, GS, RS,
    NEL, LS and PS. *)
Definition line_boundaries : list N :=
  [10; 11; 12; 13; 28; 29; 30; 133; 8232; 8233]%N.

(** The text holds a stretch of more than [n] characters without an end of
    line. *)
Definition long_stretch (n : nat) (value : unicode) : Prop :=
  exists pre line post,
    value = pre ++ line ++ post
    /\ n < length line
    /\ forall c, In c line -> ~ In c line_boundaries.

(** The text cut at each character that [is_break] takes for a line
    break; [cur] is the current line, reversed. *)
Fixpoint cut_lines (is_break : N -> bool) (cur : unicode) (s : unicode)
  : list unicode :=
  match s with
  | [] => [List.rev cur]
  | c :: s' =>
      if is_break c then List.rev cur :: cut_lines is_break [] s'
      else cut_lines is_break (c :: cur) s'
  end.

(** The selector in the words of the specification, [is_break] telling
    what a line break is: the literal style if the string holds a line
    break; otherwise the folded style if one of its lines is longer than 40
    characters and it holds a space; otherwise the plain style. *)
Definition spec_style (is_break : N -> bool) (value : unicode)
  : option style_char :=
  if existsb is_break value then Some Literal
  else if existsb (fun line => Nat.ltb 40 (length line))
            (cut_lines is_break [] value)
          && char_in SPACE value
  then Some Folded
  else None.

(** Thirty a's, a carriage return, [b], a space and thirty c's: 63
    characters, no line feed. *)
Definition cr_text : unicode :=
  repeat 97%N 30 ++ [CR] ++ u "b " ++ repeat 99%N 30.

(** Sixty characters on one line, with spaces. *)
Definition sixty_text : unicode :=
  u "the quick brown fox jumps over the lazy dog and runs far off".

(** No end of line in the text. *)
Definition clean (l : unicode) : Prop :=
  forall c, In c l -> is_linebreak c = false.

(** The outcome of a representer, read off the tree: it fails on an
    instance of a class without representer or on a byte string that does
    not decode, and only then. *)
Definition represented (t : pyobj) (r : result node) : Prop :=
  match r with
  | Ok _ => has_instance t = false /\ decodable t = true
  | Raise RepresenterError => has_instance t = true
  | Raise UnicodeDecodeError => decodable t = false
  | Raise LoadError => False
  | NotModelled => False
  end.

(** The tags of the three constructors that [SaneLoader] inherits for values
    of other kinds: [!!binary] gives a byte string, [!!pairs] a list of
    tuples, [!!set] a set. *)
Definition inherited_tags : list string := [Tag.binary; Tag.pairs; Tag.set].

Definition tag_ok (tag : option string) : bool :=
  match tag with
  | Some t => negb (bool_decide (t ∈ inherited_tags))
  | None => true
  end.

(** No node of the document is written with one of these three tags. *)
Fixpoint no_inherited_tags (e : presentation) : bool :=
  match e with
  | EScalar tag _ _ => tag_ok tag
  | ESequence tag items => tag_ok tag && forallb no_inherited_tags items
  | EMapping tag pairs =>
      tag_ok tag
      && forallb (fun kv => no_inherited_tags kv.1 && no_inherited_tags kv.2)
           pairs
  end.

(** The same on the nodes of the composer. *)
Fixpoint no_inherited_nodes (n : node) : bool :=
  match n with
  | ScalarNode tag _ _ => tag_ok (Some tag)
  | SequenceNode tag items =>
      tag_ok (Some tag) && forallb no_inherited_nodes items
  | MappingNode tag pairs =>
      tag_ok (Some tag)
      && forallb (fun kv => no_inherited_nodes kv.1 && no_inherited_nodes kv.2)
           pairs
  end.

Section DocumentInduction.
Variable P : presentation -> Prop.
Hypothesis scalar_case : forall tag style value, P (EScalar tag style value).
Hypothesis sequence_case :
  forall tag items, Forall P items -> P (ESequence tag items).
Hypothesis mapping_case :
  forall tag pairs, Forall (fun kv => P kv.1 /\ P kv.2) pairs ->
                    P (EMapping tag pairs).

Fixpoint presentation_nested_ind (e : presentation) : P e :=
  match e with
  | EScalar tag style value => scalar_case tag style value
  | ESequence tag items =>
      sequence_case tag items
        ((fix all (l : list presentation) : Forall P l :=
            match l with
            | [] => @List.Forall_nil _ _
            | x :: l' =>
                @List.Forall_cons _ _ x l' (presentation_nested_ind x) (all l')
            end) items)
  | EMapping tag pairs =>
      mapping_case tag pairs
        ((fix all (l : list (presentation * presentation))
            : Forall (fun kv => P kv.1 /\ P kv.2) l :=
            match l with
            | [] => @List.Forall_nil _ _
            | (k, v) :: l' =>
                @List.Forall_cons _ _ (k, v) l'
                  (conj (presentation_nested_ind k) (presentation_nested_ind v))
                  (all l')
            end) pairs)
  end.
End DocumentInduction.

(** ** Objects met more than once

    The representer of the engine keeps the node of each object it has
    represented under [id(data)], unless [ignore_aliases] tells it not to,
    and returns that node when it meets the object again.  The serializer
    names the nodes it meets twice ([id001], [id002], ...), writes such a
    node once with its anchor and writes an alias where it comes back.

    The values below say where objects lie: [dump] above is the case of a
    tree none of whose objects is met twice. *)

Module Sharing.

Definition result_map {A B} (f : A -> B) (r : result A) : result B :=
  do a <- r; Ok (f a).

(** A value in memory.  [HValue data] is a value whose objects are met
    nowhere else in the tree; [HObject id data] is such a value at address
    [id], itself possibly met again; [HLong id z] is a long integer (a
    Python 2 int too large for a machine word: the engine writes it as it
    writes an int, but it does not ignore its aliases); a list, a tuple
    and an OrderedDict lie at their address and hold their items. *)
Inductive heapobj :=
| HValue (data : pyobj)
| HObject (id : N) (data : pyobj)
| HLong (id : N) (z : Z)
| HList (id : N) (items : list heapobj)
| HTuple (id : N) (items : list heapobj)
| HOrderedDict (id : N) (items : list (heapobj * heapobj)).

(** The tree of the value, addresses forgotten. *)
Fixpoint erase (h : heapobj) : pyobj :=
  match h with
  | HValue data | HObject _ data => data
  | HLong _ z => PInt z
  | HList _ items => PList (map erase items)
  | HTuple _ items => PTuple (map erase items)
  | HOrderedDict _ items =>
      POrderedDict (map (fun kv => (erase kv.1, erase kv.2)) items)
  end.

(** The same value with every object moved from its address [a] to
    [f a]. *)
Fixpoint rename (f : N -> N) (h : heapobj) : heapobj :=
  match h with
  | HValue data => HValue data
  | HObject id data => HObject (f id) data
  | HLong id z => HLong (f id) z
  | HList id items => HList (f id) (map (rename f) items)
  | HTuple id items => HTuple (f id) (map (rename f) items)
  | HOrderedDict id items =>
      HOrderedDict (f id)
        (map (fun kv => (rename f kv.1, rename f kv.2)) items)
  end.

(** [SafeRepresenter.ignore_aliases(data)]: None, the empty tuple, strings,
    booleans, ints and floats. *)
Definition ignore_aliases (data : pyobj) : bool :=
  match data with
  | PNone | PBool _ | PInt _ | PFloat _ | PStr _ | PUnicode _ => true
  | PTuple [] => true
  | _ => false
  end.

(** [self.alias_key] as [represent_data] sets it. *)
Definition alias_key_of (h : heapobj) : option N :=
  match h with
  | HValue _ => None
  | HObject id data => if ignore_aliases data then None else Some id
  | HLong id _ | HList id _ | HOrderedDict id _ => Some id
  | HTuple id items => if ignore_aliases (PTuple (map erase items))
                       then None else Some id
  end.

(** The representation graph: a node with the key it is registered under
    in [represented_objects], if any; [GSame key] is the node registered
    under [key], met again. *)
Inductive gnode :=
| GScalar (key : option N) (tag : string) (value : unicode)
          (style : option style_char)
| GSequence (key : option N) (tag : string) (value : list gnode)
| GMapping (key : option N) (tag : string) (value : list (gnode * gnode))
| GSame (key : N).

(** The nodes of a value whose parts are met nowhere else. *)
Fixpoint graft (key : option N) (n : node) : gnode :=
  match n with
  | ScalarNode tag value style => GScalar key tag value style
  | SequenceNode tag items => GSequence key tag (map (graft None) items)
  | MappingNode tag pairs =>
      GMapping key tag
        (map (fun kv => (graft None kv.1, graft None kv.2)) pairs)
  end.

Section EachWith.
Context {A B S : Type} (f : A -> S -> result (B * S)).

(** A loop that carries the state of the dumper along. *)
Fixpoint mapM_with (l : list A) (s : S) : result (list B * S) :=
  match l with
  | [] => Ok ([], s)
  | a :: l' =>
      do r <- f a s;
      do rs <- mapM_with l' r.2;
      Ok (r.1 :: rs.1, rs.2)
  end.

Fixpoint mapM_pairs_with (l : list (A * A)) (s : S)
  : result (list (B * B) * S) :=
  match l with
  | [] => Ok ([], s)
  | (k, v) :: l' =>
      do rk <- f k s;
      do rv <- f v rk.2;
      do rs <- mapM_pairs_with l' rv.2;
      Ok ((rk.1, rv.1) :: rs.1, rs.2)
  end.
End EachWith.

(** [represent_data] above: a value whose objects are met nowhere else. *)
Definition represent_value := represent_data.

(** The representer of a type, or the fallback. *)
Definition representer_of (table : representers) (t : pytype)
  : option representer :=
  match table !! Some t with
  | Some r => Some r
  | None => table !! None
  end.

Section Representer.
Variable table : representers.
Variable default_style : option style_char.

(** [represent_data(data)], with the keys of [represented_objects]
    carried along.  An object met again gives the node it is registered
    under; a list, a tuple and an OrderedDict are registered before their
    items are represented. *)
Fixpoint represent_data (h : heapobj) (represented_objects : list N)
  : result (gnode * list N) :=
  let alias_key := alias_key_of h in
  let represent (represented_objects : list N) :=
    match h with
    | HValue data | HObject _ data =>
        do n <- represent_value table default_style data;
        Ok (graft alias_key n, represented_objects)
    | HLong _ z =>
        match representer_of table T_long with
        | Some represent_long =>
            (* self.represent_scalar(u'tag:yaml.org,2002:int', unicode(data)) *)
            Ok (GScalar alias_key "tag:yaml.org,2002:int"
                  (u (NilZero.string_of_int (Z.to_int z))) default_style,
                represented_objects)
        | Some represent_undefined => Raise RepresenterError
        | _ => NotModelled
        end
    | HList _ items | HTuple _ items =>
        match representer_for table (erase h) with
        | Some represent_list =>
            do r <- mapM_with represent_data items represented_objects;
            Ok (GSequence alias_key "tag:yaml.org,2002:seq" r.1, r.2)
        | Some represent_undefined => Raise RepresenterError
        | _ => NotModelled
        end
    | HOrderedDict _ items =>
        match representer_for table (erase h) with
        | Some ordered_dumper =>
            do r <- mapM_pairs_with represent_data items represented_objects;
            Ok (GMapping alias_key "tag:yaml.org,2002:map" r.1, r.2)
        | Some represent_undefined => Raise RepresenterError
        | _ => NotModelled
        end
    end in
  match alias_key with
  | Some key =>
      if existsb (N.eqb key) represented_objects
      then Ok (GSame key, represented_objects)
      else represent (key :: represented_objects)
  | None => represent represented_objects
  end.

End Representer.

(** ** The serializer's anchors *)

(** [self.anchors], keyed by the nodes met so far (fresh nodes, which are
    never met again, are left out), and [self.last_anchor_id]. *)
Definition anchors := list (N * option string).

Fixpoint anchor_of (table : anchors) (key : N) : option (option string) :=
  match table with
  | [] => None
  | (k, anchor) :: rest =>
      if N.eqb k key then Some anchor else anchor_of rest key
  end.

Fixpoint set_anchor (table : anchors) (key : N) (anchor : string) : anchors :=
  match table with
  | [] => []
  | (k, a) :: rest =>
      if N.eqb k key then (k, Some anchor) :: rest
      else (k, a) :: set_anchor rest key anchor
  end.

(** [ANCHOR_TEMPLATE % n], that is ['id%03d' % n]. *)
Definition ANCHOR_TEMPLATE (n : nat) : string :=
  let digits := NilZero.string_of_uint (Nat.to_uint n) in
  "id" +:+ (match String.length digits with
            | 1 => "00" | 2 => "0" | _ => ""
            end) +:+ digits.

(** The test and the two assignments of [anchor_node] on a node registered
    under [key]; the result tells whether the node was met before. *)
Definition anchor_key (key : option N) (st : anchors * nat)
  : bool * (anchors * nat) :=
  match key with
  | None => (false, st)
  | Some k =>
      match anchor_of st.1 k with
      | Some None =>
          (true, (set_anchor st.1 k (ANCHOR_TEMPLATE (S st.2)), S st.2))
      | Some (Some _) => (true, st)
      | None => (false, ((k, None) :: st.1, st.2))
      end
  end.

(** [anchor_node(node)]. *)
Fixpoint anchor_node (g : gnode) (st : anchors * nat) : anchors * nat :=
  match g with
  | GSame key => (anchor_key (Some key) st).2
  | GScalar key _ _ _ => (anchor_key key st).2
  | GSequence key _ items =>
      let r := anchor_key key st in
      if r.1 then r.2
      else fold_left (fun st item => anchor_node item st) items r.2
  | GMapping key _ pairs =>
      let r := anchor_key key st in
      if r.1 then r.2
      else fold_left (fun st kv => anchor_node kv.2 (anchor_node kv.1 st))
             pairs r.2
  end.

(** ** What gets written *)

(** What stands in the text for a node, as [presentation] with the anchor
    in front of the node, and the alias. *)
Inductive written :=
| WAlias (anchor : option string)
| WScalar (anchor : option string) (tag : option string)
          (style : option style_char) (value : unicode)
| WSequence (anchor : option string) (tag : option string)
            (items : list written)
| WMapping (anchor : option string) (tag : option string)
           (pairs : list (written * written)).

(** A document without anchors. *)
Fixpoint unanchored (e : presentation) : written :=
  match e with
  | EScalar tag style value => WScalar None tag style value
  | ESequence tag items => WSequence None tag (map unanchored items)
  | EMapping tag pairs =>
      WMapping None tag
        (map (fun kv => (unanchored kv.1, unanchored kv.2)) pairs)
  end.

Section Emitter.
Variable analyze_scalar : unicode -> ScalarAnalysis.
Variable prepare_tag : string -> string.
Variable canonical : bool.
(** [self.anchors] once [anchor_node] has run. *)
Variable table : anchors.

(** [alias = self.anchors[node]]. *)
Definition alias (key : option N) : option string :=
  match key with
  | Some k => match anchor_of table k with Some a => a | None => None end
  | None => None
  end.

Definition anchor_length (anchor : option string) : nat :=
  match anchor with Some a => String.length a | None => 0 end.

(** [check_simple_key] on the event of a key node. *)
Definition check_simple_key (key : gnode) : bool :=
  match key with
  | GSame k => Nat.ltb (anchor_length (alias (Some k))) 128
  | GScalar k tag value _ =>
      let analysis := analyze_scalar value in
      Nat.ltb (anchor_length (alias k) + String.length (prepare_tag tag)
               + length value) 128
      && negb (empty analysis) && negb (multiline analysis)
  | GSequence k tag items =>
      Nat.ltb (anchor_length (alias k) + String.length (prepare_tag tag)) 128
      && match items with [] => true | _ => false end
  | GMapping k tag pairs =>
      Nat.ltb (anchor_length (alias k) + String.length (prepare_tag tag)) 128
      && match pairs with [] => true | _ => false end
  end.

(** [serialize_node(node)] and the decisions of the emitter on its events:
    a node met again is in [serialized_nodes] and gives an alias. *)
Fixpoint serialize_node (simple_key_context : bool) (g : gnode) : written :=
  match g with
  | GSame key => WAlias (alias (Some key))
  | GScalar key tag value style =>
      let implicit := serializer_implicit tag value in
      let chosen :=
        choose_scalar_style canonical style implicit simple_key_context
                            (analyze_scalar value) in
      WScalar (alias key) (scalar_tag_written canonical tag implicit chosen)
              chosen value
  | GSequence key tag items =>
      WSequence (alias key)
        (collection_tag_written canonical tag
           (bool_decide (tag = resolve KSequence [] (true, false))))
        (map (serialize_node false) items)
  | GMapping key tag pairs =>
      WMapping (alias key)
        (collection_tag_written canonical tag
           (bool_decide (tag = resolve KMapping [] (true, false))))
        (map (fun kv => (serialize_node (check_simple_key kv.1) kv.1,
                         serialize_node false kv.2)) pairs)
  end.

End Emitter.

Section Dump.
Variable analyze_scalar : bool -> unicode -> ScalarAnalysis.
Variable prepare_tag : string -> string.

(** [yaml.dump(data, **kwargs)] on a value in memory. *)
Definition yaml_dump (st : class_tables) (kwargs : dump_kwargs)
    (data : heapobj) : result written :=
  do r <- represent_data (yaml_representers (Dumper kwargs) st)
                         (default_style kwargs) data [];
  let table := (anchor_node r.1 ([], 0)).1 in
  Ok (serialize_node (analyze_scalar (allow_unicode kwargs)) prepare_tag
                     (canonical kwargs) table false r.1).

(** [dump(obj)] of saneyaml.py on a value in memory. *)
Definition dump_with (obj : heapobj) : result written :=
  yaml_dump saneyaml sane_kwargs obj.

End Dump.

(** The graph and the anchors with every key [k] replaced by [f k]. *)
Fixpoint rename_node (f : N -> N) (g : gnode) : gnode :=
  match g with
  | GSame key => GSame (f key)
  | GScalar key tag value style => GScalar (option_map f key) tag value style
  | GSequence key tag items =>
      GSequence (option_map f key) tag (map (rename_node f) items)
  | GMapping key tag pairs =>
      GMapping (option_map f key) tag
        (map (fun kv => (rename_node f kv.1, rename_node f kv.2)) pairs)
  end.

Definition rename_anchors (f : N -> N) (table : anchors) : anchors :=
  map (fun ka => (f ka.1, ka.2)) table.

Section ValueInduction.
Variable P : heapobj -> Prop.
Hypothesis value_case : forall data, P (HValue data).
Hypothesis object_case : forall id data, P (HObject id data).
Hypothesis long_case : forall id z, P (HLong id z).
Hypothesis list_case : forall id items, Forall P items -> P (HList id items).
Hypothesis tuple_case : forall id items, Forall P items -> P (HTuple id items).
Hypothesis odict_case :
  forall id items, Forall (fun kv => P kv.1 /\ P kv.2) items ->
                   P (HOrderedDict id items).

Fixpoint heapobj_nested_ind (h : heapobj) : P h :=
  let all :=
    fix all (l : list heapobj) : Forall P l :=
      match l with
      | [] => @List.Forall_nil _ _
      | x :: l' => @List.Forall_cons _ _ x l' (heapobj_nested_ind x) (all l')
      end in
  match h with
  | HValue data => value_case data
  | HObject id data => object_case id data
  | HLong id z => long_case id z
  | HList id items => list_case id items (all items)
  | HTuple id items => tuple_case id items (all items)
  | HOrderedDict id items =>
      odict_case id items
        ((fix all2 (l : list (heapobj * heapobj))
            : Forall (fun kv => P kv.1 /\ P kv.2) l :=
            match l with
            | [] => @List.Forall_nil _ _
            | (k, v) :: l' =>
                @List.Forall_cons _ _ (k, v) l'
                  (conj (heapobj_nested_ind k) (heapobj_nested_ind v))
                  (all2 l')
            end) items)
  end.
End ValueInduction.

Section GraphInduction.
Variable P : gnode -> Prop.
Hypothesis same_case : forall key, P (GSame key).
Hypothesis scalar_case :
  forall key tag value style, P (GScalar key tag value style).
Hypothesis sequence_case :
  forall key tag items, Forall P items -> P (GSequence key tag items).
Hypothesis mapping_case :
  forall key tag pairs, Forall (fun kv => P kv.1 /\ P kv.2) pairs ->
                        P (GMapping key tag pairs).

Fixpoint gnode_nested_ind (g : gnode) : P g :=
  match g with
  | GSame key => same_case key
  | GScalar key tag value style => scalar_case key tag value style
  | GSequence key tag items =>
      sequence_case key tag items
        ((fix all (l : list gnode) : Forall P l :=
            match l with
            | [] => @List.Forall_nil _ _
            | x :: l' => @List.Forall_cons _ _ x l' (gnode_nested_ind x) (all l')
            end) items)
  | GMapping key tag pairs =>
      mapping_case key tag pairs
        ((fix all (l : list (gnode * gnode))
            : Forall (fun kv => P kv.1 /\ P kv.2) l :=
            match l with
            | [] => @List.Forall_nil _ _
            | (k, v) :: l' =>
                @List.Forall_cons _ _ (k, v) l'
                  (conj (gnode_nested_ind k) (gnode_nested_ind v)) (all l')
            end) pairs)
  end.
End GraphInduction.

(** The key of a node, if it has one. *)
Definition key_list (key : option N) : list N :=
  match key with Some k => [k] | None => [] end.

(** The keys under which the objects of a value get registered, in the
    order in which the representer meets them. *)
Fixpoint keys (h : heapobj) : list N :=
  match h with
  | HValue _ => []
  | HObject _ _ | HLong _ _ => key_list (alias_key_of h)
  | HList _ items | HTuple _ items =>
      key_list (alias_key_of h) ++ flat_map keys items
  | HOrderedDict _ items =>
      key_list (alias_key_of h)
      ++ flat_map (fun kv => keys kv.1 ++ keys kv.2) items
  end.

(** The keys of a graph, in the order of the serializer. *)
Fixpoint node_keys (g : gnode) : list N :=
  match g with
  | GSame key => [key]
  | GScalar key _ _ _ => key_list key
  | GSequence key _ items => key_list key ++ flat_map node_keys items
  | GMapping key _ pairs =>
      key_list key
      ++ flat_map (fun kv => node_keys kv.1 ++ node_keys kv.2) pairs
  end.

(** No node of the graph is met again. *)
Fixpoint no_same (g : gnode) : bool :=
  match g with
  | GSame _ => false
  | GScalar _ _ _ _ => true
  | GSequence _ _ items => forallb no_same items
  | GMapping _ _ pairs =>
      forallb (fun kv => no_same kv.1 && no_same kv.2) pairs
  end.

(** The nodes of such a graph, keys forgotten. *)
Fixpoint forget (g : gnode) : node :=
  match g with
  | GSame _ => ScalarNode "" [] None
  | GScalar _ tag value style => ScalarNode tag value style
  | GSequence _ tag items => SequenceNode tag (map forget items)
  | GMapping _ tag pairs =>
      MappingNode tag (map (fun kv => (forget kv.1, forget kv.2)) pairs)
  end.

(** The representer with keys and the representer above come to the same
    on a value: the same exception, or the same nodes, and the keys of the
    value registered. *)
Definition same_nodes (h : heapobj) (represented_objects : list N)
    (rs : result (gnode * list N)) (r : result node) : Prop :=
  match rs, r with
  | Ok (g, registered), Ok n =>
      no_same g = true /\ forget g = n /\ node_keys g = keys h
      /\ registered = List.rev (keys h) ++ represented_objects
  | Raise e, Raise e' => e = e'
  | NotModelled, NotModelled => True
  | _, _ => False
  end.

(** What the representer and the serializer come to on a value moved by
    [f]: the same graph and the same anchors, each key moved. *)
Definition moved_result (f : N -> N) (r : result (gnode * list N))
  : result (gnode * list N) :=
  result_map (fun r => (rename_node f r.1, map f r.2)) r.

Definition moves (f : N -> N) table ds (h : heapobj) : Prop :=
  forall ro,
    represent_data table ds (rename f h) (map f ro)
    = moved_result f (represent_data table ds h ro).

Definition moved_state (f : N -> N) (st : anchors * nat) : anchors * nat :=
  (rename_anchors f st.1, st.2).

(** One list met twice, and two equal lists. *)
Definition one_list_twice : heapobj :=
  HList 1 [HList 2 [HValue (PUnicode (u "a"))];
           HList 2 [HValue (PUnicode (u "a"))]].

Definition two_equal_lists : heapobj :=
  HList 1 [HList 2 [HValue (PUnicode (u "a"))];
           HList 3 [HValue (PUnicode (u "a"))]].

End Sharing.

(** The first object, in the order in which the dumper meets them, on which
    it fails, by the exception raised: an instance of a class without
    representer, or a byte string that does not decode. *)
Fixpoint first_failure (t : pyobj) : option exn :=
  let first_of :=
    fix first_of (l : list pyobj) : option exn :=
      match l with
      | [] => None
      | x :: l' =>
          match first_failure x with
          | Some e => Some e
          | None => first_of l'
          end
      end in
  match t with
  | PInstance _ => Some RepresenterError
  | PStr b | PFloat b => if decodes b then None else Some UnicodeDecodeError
  | PDate iso => if is_ascii (u iso) then None else Some UnicodeDecodeError
  | PList items | PTuple items => first_of items
  | POrderedDict items =>
      (fix first_pair (l : list (pyobj * pyobj)) : option exn :=
         match l with
         | [] => None
         | (k, v) :: l' =>
             match first_failure k with
             | Some e => Some e
             | None =>
                 match first_failure v with
                 | Some e => Some e
                 | None => first_pair l'
                 end
             end
         end) items
  | _ => None
  end.

(** The outcome of a representer and the first failure of the tree. *)
Definition fails_first (t : pyobj) (r : result node) : Prop :=
  match r with
  | Ok _ => first_failure t = None
  | Raise e => first_failure t = Some e
  | NotModelled => False
  end.

(** * Results *)

Arguments saneyaml : simpl never.
Arguments SaneLoader_table : simpl never.
Arguments SaneDumper_table : simpl never.
Arguments yaml_constructors : simpl never.
Arguments yaml_representers : simpl never.
Arguments constructor_for : simpl never.
Arguments representer_for : simpl never.

(** ** The result monad *)

Lemma bind_Ok {A B} (r : result A) (k : A -> result B) (b : B) :
  bind r k = Ok b -> exists a, r = Ok a /\ k a = Ok b.
Proof. destruct r; simpl; intros H; try discriminate; eauto. Qed.

Lemma mapM_Ok_Forall2 {A B} (f : A -> result B) l bs :
  mapM f l = Ok bs -> Forall2 (fun a b => f a = Ok b) l bs.
Proof.
  revert bs; induction l as [|a l IH]; simpl; intros bs H.
  - injection H as <-. constructor.
  - apply bind_Ok in H as (b & Hb & H).
    apply bind_Ok in H as (bs' & Hbs & H).
    injection H as <-. constructor; auto.
Qed.

Lemma Forall2_mapM_Ok {A B} (f : A -> result B) l bs :
  Forall2 (fun a b => f a = Ok b) l bs -> mapM f l = Ok bs.
Proof.
  induction 1 as [|a b l bs Hab _ IH]; simpl; [reflexivity|].
  rewrite Hab; simpl. rewrite IH; reflexivity.
Qed.

Lemma mapM_pairs_Ok_Forall2 {A B} (f : A -> result B) l bs :
  mapM_pairs f l = Ok bs ->
  Forall2 (fun a b => f a.1 = Ok b.1 /\ f a.2 = Ok b.2) l bs.
Proof.
  revert bs; induction l as [|[k v] l IH]; simpl; intros bs H.
  - injection H as <-. constructor.
  - apply bind_Ok in H as (k' & Hk & H).
    apply bind_Ok in H as (v' & Hv & H).
    apply bind_Ok in H as (bs' & Hbs & H).
    injection H as <-. constructor; auto.
Qed.

Lemma Forall2_mapM_pairs_Ok {A B} (f : A -> result B) l bs :
  Forall2 (fun a b => f a.1 = Ok b.1 /\ f a.2 = Ok b.2) l bs ->
  mapM_pairs f l = Ok bs.
Proof.
  induction 1 as [|[k v] [k' v'] l bs [Hk Hv] _ IH]; simpl in *; [reflexivity|].
  rewrite Hk; simpl. rewrite Hv; simpl. rewrite IH; reflexivity.
Qed.

Lemma mapM_ext {A B} (f g : A -> result B) l :
  Forall (fun a => f a = g a) l -> mapM f l = mapM g l.
Proof.
  induction 1 as [|a l Ha _ IH]; simpl; [reflexivity|].
  rewrite Ha, IH; reflexivity.
Qed.

(** ** The text channel keeps tags *)

Lemma scalar_tag_kept canonical tag value chosen :
  tag <> "!" ->
  let implicit := serializer_implicit tag value in
  let written := scalar_tag_written canonical tag implicit chosen in
  composed_tag KScalar written value (parser_implicit written chosen) = tag.
Proof.
  intros Hne; simpl. unfold scalar_tag_written, serializer_implicit; simpl.
  destruct canonical; simpl.
  - rewrite bool_decide_eq_false_2 by assumption. reflexivity.
  - destruct chosen as [st|]; simpl.
    + case_bool_decide as H2; simpl.
      * unfold parser_implicit; simpl. symmetry; exact H2.
      * rewrite bool_decide_eq_false_2 by assumption. reflexivity.
    + case_bool_decide as H1; simpl.
      * unfold parser_implicit; simpl. symmetry; exact H1.
      * rewrite bool_decide_eq_false_2 by assumption. reflexivity.
Qed.

Lemma collection_tag_kept canonical kind tag implicit :
  kind <> KScalar -> tag <> "!" ->
  composed_tag kind
    (collection_tag_written canonical tag
       (bool_decide (tag = resolve kind [] (true, false))))
    [] implicit = tag.
Proof.
  intros Hk Hne. unfold collection_tag_written.
  assert (Hr : forall i, resolve kind [] i = default_tag kind)
    by (intros [[] ?]; destruct kind; try reflexivity; contradiction).
  rewrite Hr.
  destruct canonical; simpl.
  - rewrite bool_decide_eq_false_2 by assumption. reflexivity.
  - case_bool_decide as H; simpl.
    + rewrite Hr. symmetry; exact H.
    + rewrite bool_decide_eq_false_2 by assumption. reflexivity.
Qed.

Lemma specific_tag_ne n : specific_tags n = true -> node_tag n <> "!".
Proof.
  destruct n; simpl; intros H; apply andb_prop in H as [H _];
    apply negb_true_iff, String.eqb_neq in H; exact H.
Qed.

(** Reading back what the emitter wrote gives the node again, scalar
    styles aside, whatever the emitter's analysis of the characters. *)
Lemma compose_emit analyze prepare canonical n :
  specific_tags n = true ->
  forall ctx,
    strip (compose_node (emit_node analyze prepare canonical ctx n)) = strip n.
Proof.
  induction n as [tag value style|tag items IH|tag pairs IH]
    using node_nested_ind; intros Hs ctx.
  - simpl. f_equal. apply scalar_tag_kept. exact (specific_tag_ne _ Hs).
  - pose proof (specific_tag_ne _ Hs) as Hne. simpl in *.
    apply andb_prop in Hs as [_ Hs]. f_equal.
    + apply collection_tag_kept; [discriminate|assumption].
    + rewrite !map_map. apply map_ext_in. intros x Hx.
      rewrite Forall_forall in IH. rewrite forallb_forall in Hs.
      apply IH; [apply list_elem_of_In; exact Hx | apply Hs; exact Hx].
  - pose proof (specific_tag_ne _ Hs) as Hne. simpl in *.
    apply andb_prop in Hs as [_ Hs]. f_equal.
    + apply collection_tag_kept; [discriminate|assumption].
    + rewrite !map_map. apply map_ext_in. intros [k v] Hx.
      rewrite Forall_forall in IH. rewrite forallb_forall in Hs.
      specialize (Hs _ Hx). apply andb_prop in Hs as [Hk Hv].
      apply list_elem_of_In in Hx. destruct (IH _ Hx) as [IHk IHv].
      simpl in *. f_equal; [apply IHk | apply IHv]; assumption.
Qed.

(** ** The constructors do not look at scalar styles *)

Lemma node_tag_strip n : node_tag (strip n) = node_tag n.
Proof. destruct n; reflexivity. Qed.

Lemma under_value_key_strip pairs :
  Forall (fun kv => construct_scalar (strip kv.1) = construct_scalar kv.1 /\
                    construct_scalar (strip kv.2) = construct_scalar kv.2) pairs ->
  under_value_key construct_scalar
    (map (fun kv => (strip kv.1, strip kv.2)) pairs)
  = under_value_key construct_scalar pairs.
Proof.
  induction 1 as [|[k v] l [_ Hv] _ IH]; simpl in *; [reflexivity|].
  rewrite node_tag_strip, Hv, IH. reflexivity.
Qed.

Lemma construct_scalar_strip n :
  construct_scalar (strip n) = construct_scalar n.
Proof.
  induction n as [tag value style|tag items IH|tag pairs IH]
    using node_nested_ind; simpl; try reflexivity.
  apply under_value_key_strip. exact IH.
Qed.

Lemma ordered_loop_strip (f : node -> result pyobj) pairs :
  Forall (fun kv => f (strip kv.1) = f kv.1 /\ f (strip kv.2) = f kv.2) pairs ->
  forall omap,
    ordered_loop f (map (fun kv => (strip kv.1, strip kv.2)) pairs) omap
    = ordered_loop f pairs omap.
Proof.
  induction 1 as [|[k v] l [Hk Hv] _ IH]; intros omap; simpl in *;
    [reflexivity|].
  rewrite Hk, Hv. destruct (f k); simpl; try reflexivity.
  destruct (f v); simpl; try reflexivity.
  destruct (odict_setitem omap a a0); simpl; try reflexivity. apply IH.
Qed.

Lemma construct_object_strip table n :
  construct_object table (strip n) = construct_object table n.
Proof.
  induction n as [tag value style|tag items IH|tag pairs IH]
    using node_nested_ind.
  - reflexivity.
  - simpl. unfold constructor_for; simpl.
    assert (E : mapM (construct_object table) (map strip items)
                = mapM (construct_object table) items).
    { clear -IH. induction IH as [|x l Hx _ IHl]; simpl; [reflexivity|].
      rewrite Hx, IHl. reflexivity. }
    rewrite E. reflexivity.
  - simpl. unfold constructor_for; simpl.
    rewrite (ordered_loop_strip (construct_object table) pairs IH).
    assert (E : under_value_key construct_scalar
                  (map (fun kv => (strip kv.1, strip kv.2)) pairs)
                = under_value_key construct_scalar pairs).
    { apply under_value_key_strip. apply Forall_forall. intros kv _.
      split; apply construct_scalar_strip. }
    rewrite E. reflexivity.
Qed.

Lemma load_stream_single e :
  load_stream [e] = construct_object SaneLoader_table (compose_node e).
Proof. reflexivity. Qed.

(** Loading what [dump] wrote runs the constructors on the very nodes the
    representers made. *)
Lemma load_emitted analyze prepare canonical ctx n :
  specific_tags n = true ->
  load_stream [emit_node analyze prepare canonical ctx n]
  = construct_object SaneLoader_table n.
Proof.
  intros Hs. rewrite load_stream_single.
  rewrite <- construct_object_strip, (compose_emit _ _ _ _ Hs).
  apply construct_object_strip.
Qed.

(** ** The tables after import *)

Lemma SaneLoader_table_entries t c :
  SaneLoader_table !! t = Some c ->
  c ∈ [string_loader; ordered_loader; construct_yaml_bool;
       construct_yaml_binary; construct_yaml_pairs; construct_yaml_set;
       construct_yaml_seq; construct_undefined].
Proof.
  intros H. apply elem_of_map_to_list in H.
  remember (map_to_list SaneLoader_table) as l eqn:E.
  vm_compute in E. subst l.
  repeat (apply elem_of_cons in H as [H|H]; [inversion H; subst; set_solver|]).
  apply elem_of_nil in H. destruct H.
Qed.

Lemma SaneDumper_table_class c : SaneDumper_table !! Some (T_class c) = None.
Proof.
  destruct (SaneDumper_table !! Some (T_class c)) as [r|] eqn:H; [|reflexivity].
  exfalso. apply elem_of_map_to_list in H.
  remember (map_to_list SaneDumper_table) as l eqn:E.
  vm_compute in E. subst l.
  repeat (apply elem_of_cons in H as [H|H]; [discriminate H|]).
  apply elem_of_nil in H. destruct H.
Qed.

Lemma SaneDumper_table_None : SaneDumper_table !! None = Some represent_undefined.
Proof. vm_compute. reflexivity. Qed.

Lemma representer_for_sane data :
  representer_for SaneDumper_table data = Some (sane_representer data).
Proof.
  unfold representer_for.
  destruct data; simpl type_of; simpl sane_representer;
    try (rewrite SaneDumper_table_class, SaneDumper_table_None; reflexivity);
    vm_compute; reflexivity.
Qed.

Lemma represent_data_unfold table ds data :
  represent_data table ds data =
  match representer_for table data with
  | Some ordered_dumper =>
      match data with
      | POrderedDict items =>
          do value <- mapM_pairs (represent_data table ds) items;
          Ok (MappingNode "tag:yaml.org,2002:map" value)
      | _ => NotModelled
      end
  | Some null_dumper =>
      Ok (represent_scalar ds "tag:yaml.org,2002:null" (u "") None)
  | Some (string_dumper _tag) => run_string_dumper ds _tag data
  | Some boolean_dumper =>
      match data with
      | PBool b => Ok (run_boolean_dumper ds b)
      | _ => NotModelled
      end
  | Some represent_none =>
      Ok (represent_scalar ds "tag:yaml.org,2002:null" (u "null") None)
  | Some represent_list =>
      match data with
      | PList items | PTuple items =>
          do value <- mapM (represent_data table ds) items;
          Ok (SequenceNode "tag:yaml.org,2002:seq" value)
      | _ => NotModelled
      end
  | Some represent_date =>
      match data with
      | PDate iso =>
          do value <- ascii_decode iso;
          Ok (represent_scalar ds "tag:yaml.org,2002:timestamp" value None)
      | _ => NotModelled
      end
  | Some represent_undefined => Raise RepresenterError
  | Some _ => NotModelled
  | None => NotModelled
  end.
Proof. destruct data; reflexivity. Qed.

Lemma represent_data_sane data :
  represent_data SaneDumper_table None data =
  match data with
  | PNone => Ok (ScalarNode Tag.null (u "null") None)
  | PBool b => Ok (ScalarNode Tag.bool (if b then u "yes" else u "no") None)
  | PInt _ => run_string_dumper None Tag.int data
  | PFloat _ => run_string_dumper None Tag.float data
  | PStr _ | PUnicode _ => run_string_dumper None Tag.str data
  | PList items | PTuple items =>
      do value <- mapM (represent_data SaneDumper_table None) items;
      Ok (SequenceNode Tag.seq value)
  | POrderedDict items =>
      do value <- mapM_pairs (represent_data SaneDumper_table None) items;
      Ok (MappingNode Tag.map value)
  | PDate iso =>
      do value <- ascii_decode iso; Ok (ScalarNode Tag.timestamp value None)
  | PInstance _ => Raise RepresenterError
  end.
Proof.
  rewrite represent_data_unfold, representer_for_sane.
  destruct data; reflexivity.
Qed.

(** ** The constructors, case by case *)

Lemma construct_object_unfold table n :
  construct_object table n =
  match constructor_for table n with
  | Some string_loader => do value <- construct_scalar n; Ok (PUnicode value)
  | Some ordered_loader =>
      match n with
      | MappingNode _ pairs =>
          do omap <- ordered_loop (construct_object table) pairs [];
          Ok (POrderedDict omap)
      | _ => Raise LoadError
      end
  | Some construct_yaml_null => do _ <- construct_scalar n; Ok PNone
  | Some construct_yaml_bool =>
      do value <- construct_scalar n;
      do b <- bool_values value;
      Ok (PBool b)
  | Some construct_yaml_str =>
      do value <- construct_scalar n;
      Ok (if is_ascii value then PStr (bytes_of value) else PUnicode value)
  | Some construct_yaml_seq =>
      match n with
      | SequenceNode _ items =>
          do items <- mapM (construct_object table) items; Ok (PList items)
      | _ => Raise LoadError
      end
  | Some construct_undefined => Raise LoadError
  | Some _ => NotModelled
  | None =>
      match n with
      | ScalarNode _ _ _ => do value <- construct_scalar n; Ok (PUnicode value)
      | SequenceNode _ items =>
          do items <- mapM (construct_object table) items; Ok (PList items)
      | MappingNode _ _ => NotModelled
      end
  end.
Proof.
  destruct n; simpl; destruct (constructor_for table _) as [[]|]; reflexivity.
Qed.

Lemma constructor_for_entry n c :
  constructor_for SaneLoader_table n = Some c ->
  c ∈ [string_loader; ordered_loader; construct_yaml_bool;
       construct_yaml_binary; construct_yaml_pairs; construct_yaml_set;
       construct_yaml_seq; construct_undefined].
Proof.
  unfold constructor_for.
  destruct (SaneLoader_table !! Some (node_tag n)) as [c'|] eqn:E.
  - intros [= <-]. eapply SaneLoader_table_entries, E.
  - apply SaneLoader_table_entries.
Qed.

Lemma constructor_for_some n : constructor_for SaneLoader_table n <> None.
Proof.
  unfold constructor_for.
  destruct (SaneLoader_table !! Some (node_tag n)); [discriminate|].
  vm_compute. discriminate.
Qed.

Lemma constructor_for_tag table n n' :
  node_tag n = node_tag n' -> constructor_for table n = constructor_for table n'.
Proof. unfold constructor_for. intros ->. reflexivity. Qed.

Lemma sane_constructor_str value style :
  constructor_for SaneLoader_table (ScalarNode Tag.str value style)
  = Some string_loader.
Proof. vm_compute. reflexivity. Qed.

Lemma sane_constructor_scalar tag value style :
  tag ∈ [Tag.str; Tag.null; Tag.int; Tag.float; Tag.timestamp] ->
  constructor_for SaneLoader_table (ScalarNode tag value style)
  = Some string_loader.
Proof.
  intros H. repeat (apply elem_of_cons in H as [->|H]; [vm_compute; reflexivity|]).
  apply elem_of_nil in H. destruct H.
Qed.

Lemma sane_constructor_bool value style :
  constructor_for SaneLoader_table (ScalarNode Tag.bool value style)
  = Some construct_yaml_bool.
Proof. vm_compute. reflexivity. Qed.

Lemma sane_constructor_seq items :
  constructor_for SaneLoader_table (SequenceNode Tag.seq items)
  = Some construct_yaml_seq.
Proof. vm_compute. reflexivity. Qed.

Lemma sane_constructor_map pairs :
  constructor_for SaneLoader_table (MappingNode Tag.map pairs)
  = Some ordered_loader.
Proof. vm_compute. reflexivity. Qed.

(** ** Assignments into an OrderedDict *)

Lemma odict_set_keys items k v :
  map fst (odict_set items k v) =
  if existsb (fun k' => key_eqb k' k) (map fst items)
  then map fst items else map fst items ++ [k].
Proof.
  induction items as [|[k0 v0] items IH]; simpl; [reflexivity|].
  destruct (key_eqb k0 k); simpl; [reflexivity|].
  rewrite IH. destruct (existsb _ _); reflexivity.
Qed.

Lemma odict_set_new items k v :
  existsb (fun k' => key_eqb k' k) (map fst items) = false ->
  odict_set items k v = items ++ [(k, v)].
Proof.
  induction items as [|[k0 v0] items IH]; simpl; [reflexivity|].
  intros H. apply orb_false_elim in H as [H0 H]. rewrite H0, IH by exact H.
  reflexivity.
Qed.

Lemma distinct_keys_snoc ks k :
  distinct_keys ks = true ->
  existsb (fun k' => key_eqb k' k) ks = false ->
  distinct_keys (ks ++ [k]) = true.
Proof.
  induction ks as [|k0 ks IH]; simpl; [reflexivity|].
  intros H E. apply andb_prop in H as [H0 H].
  apply orb_false_elim in E as [E0 E].
  rewrite IH by assumption. rewrite existsb_app; simpl.
  rewrite E0. apply negb_true_iff in H0. rewrite H0. reflexivity.
Qed.

Lemma odict_set_distinct items k v :
  distinct_keys (map fst items) = true ->
  distinct_keys (map fst (odict_set items k v)) = true.
Proof.
  intros H. rewrite odict_set_keys.
  destruct (existsb _ _) eqn:E; [exact H|].
  apply distinct_keys_snoc; assumption.
Qed.

Lemma odict_fold_distinct kvs omap :
  distinct_keys (map fst omap) = true ->
  distinct_keys (map fst (odict_fold kvs omap)) = true.
Proof.
  revert omap; induction kvs as [|[k v] kvs IH]; intros omap H; simpl;
    [exact H|].
  apply IH, odict_set_distinct, H.
Qed.

Lemma odict_fold_keys kvs omap :
  map fst (odict_fold kvs omap)
  = map fst omap ++ first_occurrences (map fst omap) (map fst kvs).
Proof.
  revert omap; induction kvs as [|[k v] kvs IH]; intros omap; simpl.
  - rewrite app_nil_r. reflexivity.
  - unfold odict_fold in *. rewrite IH, odict_set_keys. simpl.
    destruct (existsb _ _); [reflexivity|].
    rewrite <- app_assoc. reflexivity.
Qed.

Lemma first_occurrences_distinct seen ks :
  (forall s k, In s seen -> In k ks -> key_eqb s k = false) ->
  distinct_keys ks = true ->
  first_occurrences seen ks = ks.
Proof.
  revert seen; induction ks as [|k ks IH]; intros seen Hs Hd; simpl;
    [reflexivity|].
  simpl in Hd. apply andb_prop in Hd as [Hk Hd].
  assert (E : existsb (fun k' => key_eqb k' k) seen = false).
  { apply not_true_is_false. intros E. apply existsb_exists in E as (s & Hin & E).
    rewrite (Hs s k Hin (or_introl eq_refl)) in E. discriminate. }
  rewrite E. f_equal. apply IH; [|exact Hd].
  intros s k' Hin Hin'. apply in_app_or in Hin as [Hin|[<-|[]]].
  - apply Hs; [exact Hin | right; exact Hin'].
  - apply negb_true_iff in Hk. apply not_true_is_false. intros E'.
    assert (existsb (key_eqb k) ks = true) as X
      by (apply existsb_exists; exists k'; auto).
    rewrite X in Hk. discriminate.
Qed.

Lemma odict_fold_fresh kvs omap :
  distinct_keys (map fst (omap ++ kvs)) = true ->
  odict_fold kvs omap = omap ++ kvs.
Proof.
  revert omap; induction kvs as [|[k v] kvs IH]; intros omap H; simpl.
  - rewrite app_nil_r. reflexivity.
  - assert (E : existsb (fun k' => key_eqb k' k) (map fst omap) = false).
    { clear IH. induction omap as [|[k0 v0] omap IHo]; simpl in *; [reflexivity|].
      apply andb_prop in H as [H0 H]. rewrite (IHo H), orb_false_r.
      apply negb_true_iff in H0. rewrite map_app, existsb_app in H0. simpl in H0.
      apply orb_false_elim in H0 as [_ H0]. apply orb_false_elim in H0 as [H0 _].
      exact H0. }
    unfold odict_fold in *. rewrite odict_set_new by exact E.
    rewrite IH; rewrite <- app_assoc; [reflexivity|exact H].
Qed.

(** ** The loop of [ordered_loader] *)

Lemma ordered_loop_Ok f pairs omap items :
  ordered_loop f pairs omap = Ok items ->
  exists kvs, mapM_pairs f pairs = Ok kvs
              /\ forallb hashable (map fst kvs) = true
              /\ items = odict_fold kvs omap.
Proof.
  revert omap; induction pairs as [|[kn vn] pairs IH]; intros omap H; simpl in *.
  - injection H as <-. exists []. auto.
  - apply bind_Ok in H as (k & Hk & H). apply bind_Ok in H as (v & Hv & H).
    apply bind_Ok in H as (omap' & Hs & H).
    unfold odict_setitem in Hs. destruct (hashable k) eqn:Hh; [|discriminate].
    injection Hs as <-. destruct (IH _ H) as (kvs & Hm & Hhs & ->).
    exists ((k, v) :: kvs). rewrite Hk, Hv; simpl. rewrite Hm; simpl.
    rewrite Hh, Hhs. auto.
Qed.

Lemma ordered_loop_of_pairs f pairs kvs omap :
  mapM_pairs f pairs = Ok kvs ->
  forallb hashable (map fst kvs) = true ->
  ordered_loop f pairs omap = Ok (odict_fold kvs omap).
Proof.
  revert kvs omap; induction pairs as [|[kn vn] pairs IH]; intros kvs omap H Hh;
    simpl in *.
  - injection H as <-. reflexivity.
  - apply bind_Ok in H as (k & Hk & H). apply bind_Ok in H as (v & Hv & H).
    apply bind_Ok in H as (rest & Hr & H). injection H as <-.
    simpl in Hh. apply andb_prop in Hh as [Hh1 Hh2].
    rewrite Hk, Hv; simpl. unfold odict_setitem. rewrite Hh1; simpl.
    apply IH; assumption.
Qed.

Lemma odict_set_Forall (P : pyobj -> Prop) (Q : pyobj -> Prop) items k v :
  Forall (fun kv => P kv.1 /\ Q kv.2) items -> P k -> Q v ->
  Forall (fun kv => P kv.1 /\ Q kv.2) (odict_set items k v).
Proof.
  induction 1 as [|[k0 v0] items [H1 H2] Hrest IH]; intros Hk Hv; simpl.
  - repeat constructor; assumption.
  - simpl in *. destruct (key_eqb k0 k); constructor; simpl; auto.
Qed.

Lemma odict_fold_Forall (P : pyobj -> Prop) (Q : pyobj -> Prop) kvs omap :
  Forall (fun kv => P kv.1 /\ Q kv.2) omap ->
  Forall (fun kv => P kv.1 /\ Q kv.2) kvs ->
  Forall (fun kv => P kv.1 /\ Q kv.2) (odict_fold kvs omap).
Proof.
  intros Ho Hk. revert omap Ho.
  induction Hk as [|[k v] kvs [H1 H2] _ IH]; intros omap Ho; simpl; [exact Ho|].
  apply IH. apply odict_set_Forall; assumption.
Qed.

(** ** What [load] can build *)

Lemma loaded_hashable_scalar t :
  loaded_tree t = true -> hashable t = true -> is_scalar_key t = true.
Proof. destruct t; simpl; intros; congruence. Qed.

Lemma Forall2_results {A B} (f : A -> result B) (P : B -> Prop) l xs :
  Forall (fun a => forall b, f a = Ok b -> P b) l ->
  Forall2 (fun a b => f a = Ok b) l xs ->
  Forall P xs.
Proof.
  intros H F. induction F as [|a b l xs Hab _ IH]; [constructor|].
  inversion H; subst. constructor; auto.
Qed.

Lemma Forall2_pair_results {A B} (f : A -> result B) (P : B -> Prop) l xs :
  Forall (fun a => (forall b, f a.1 = Ok b -> P b)
                   /\ (forall b, f a.2 = Ok b -> P b)) l ->
  Forall2 (fun a b => f a.1 = Ok b.1 /\ f a.2 = Ok b.2) l xs ->
  Forall (fun kv => P kv.1 /\ P kv.2) xs.
Proof.
  intros H F. induction F as [|a b l xs [Hk Hv] _ IH]; [constructor|].
  inversion H as [|? ? [H1 H2] H']; subst. constructor; auto.
Qed.

Lemma loaded_invariant n t :
  construct_object SaneLoader_table n = Ok t -> loaded_tree t = true.
Proof.
  revert t. induction n as [tag value style|tag items IH|tag pairs IH]
    using node_nested_ind; intros t; rewrite construct_object_unfold;
    destruct (constructor_for SaneLoader_table _) as [c|] eqn:Ec;
    try (intros _; exact (False_rect _ (constructor_for_some _ Ec)));
    apply constructor_for_entry in Ec;
    repeat (apply elem_of_cons in Ec as [->|Ec]);
    try (apply elem_of_nil in Ec; destruct Ec);
    intros H; try discriminate H.
  - apply bind_Ok in H as (v & _ & H). injection H as <-. reflexivity.
  - apply bind_Ok in H as (v & _ & H). apply bind_Ok in H as (b & _ & H).
    injection H as <-. reflexivity.
  - apply bind_Ok in H as (xs & Hxs & H). injection H as <-. simpl.
    apply mapM_Ok_Forall2 in Hxs.
    pose proof (Forall2_results _ (fun t => loaded_tree t = true) _ _ IH Hxs) as F.
    apply forallb_forall. rewrite Forall_forall in F. intros x Hx.
    apply F, list_elem_of_In, Hx.
  - apply bind_Ok in H as (v & _ & H). injection H as <-. reflexivity.
  - apply bind_Ok in H as (omap & Ho & H). injection H as <-.
    apply ordered_loop_Ok in Ho as (kvs & Hm & Hh & ->). simpl.
    apply mapM_pairs_Ok_Forall2 in Hm.
    pose proof (Forall2_pair_results _ (fun t => loaded_tree t = true)
                  _ _ IH Hm) as F.
    assert (Hkv : Forall (fun kv => is_scalar_key kv.1 = true
                                    /\ loaded_tree kv.2 = true) kvs).
    { clear - F Hh. induction F as [|[k v] kvs [Fk Fv] _ IHF]; [constructor|].
      simpl in Hh. apply andb_prop in Hh as [Hh1 Hh2]. constructor; [|auto].
      split; [apply loaded_hashable_scalar; auto | auto]. }
    apply andb_true_intro; split.
    + apply forallb_forall. intros kv Hin.
      pose proof (odict_fold_Forall (fun k => is_scalar_key k = true)
                    (fun v => loaded_tree v = true) kvs []
                    (@List.Forall_nil _ _) Hkv) as G.
      rewrite Forall_forall in G. apply list_elem_of_In in Hin.
      destruct (G _ Hin) as [-> ->]. reflexivity.
    + apply odict_fold_distinct. reflexivity.
  - apply bind_Ok in H as (v & _ & H). apply bind_Ok in H as (b & _ & H).
    injection H as <-. reflexivity.
Qed.

(** ** Representing, then constructing *)

Lemma scalar_key_hashable k : is_scalar_key k = true -> hashable k = true.
Proof. destruct k; simpl; congruence. Qed.

Lemma scalar_key_loaded k : is_scalar_key k = true -> loaded_tree k = true.
Proof. destruct k; simpl; congruence. Qed.

Lemma text_tree_loaded t : text_tree t = true -> loaded_tree t = true.
Proof.
  induction t as [| | | | | |items IH|items IH|items IH| |]
    using pyobj_nested_ind; simpl; try congruence.
  - intros H. apply forallb_forall. rewrite forallb_forall in H.
    rewrite Forall_forall in IH. intros x Hx.
    apply IH; [apply list_elem_of_In; exact Hx | apply H; exact Hx].
  - intros H. apply andb_prop in H as [H Hd]. rewrite Hd, andb_true_r.
    apply forallb_forall. rewrite forallb_forall in H.
    rewrite Forall_forall in IH. intros [k v] Hx.
    specialize (H _ Hx). apply list_elem_of_In in Hx.
    destruct (IH _ Hx) as [_ IHv]. cbn [fst snd] in *.
    apply andb_prop in H as [Hk Hv].
    apply andb_true_intro; split; [destruct k; simpl in *; congruence | auto].
Qed.

Lemma run_string_dumper_unicode tag s :
  run_string_dumper None tag (PUnicode s)
  = Ok (ScalarNode tag s (string_style s)).
Proof.
  unfold run_string_dumper, represent_scalar; simpl.
  destruct (string_style s); reflexivity.
Qed.

(** On the trees [load] builds, the constructors of [SaneLoader] undo the
    representers of [SaneDumper]. *)
Lemma construct_represent t :
  loaded_tree t = true ->
  exists n, represent_data SaneDumper_table None t = Ok n
            /\ specific_tags n = true
            /\ construct_object SaneLoader_table n = Ok t.
Proof.
  induction t as [|b| | | |s|items IH|items IH|items IH| |]
    using pyobj_nested_ind;
    intros H; simpl in H; try discriminate H;
    rewrite represent_data_sane.
  - (* bool *)
    eexists; split; [reflexivity|]. split; [reflexivity|].
    rewrite construct_object_unfold, sane_constructor_bool.
    destruct b; reflexivity.
  - (* unicode *)
    rewrite run_string_dumper_unicode.
    eexists; split; [reflexivity|]. split; [reflexivity|].
    rewrite construct_object_unfold, sane_constructor_str. reflexivity.
  - (* list *)
    assert (X : exists ns,
               mapM (represent_data SaneDumper_table None) items = Ok ns
               /\ forallb specific_tags ns = true
               /\ mapM (construct_object SaneLoader_table) ns = Ok items).
    { clear - IH H. induction IH as [|x l Hx _ IHl]; simpl in *.
      - exists []. auto.
      - apply andb_prop in H as [H1 H2].
        destruct (Hx H1) as (n & Hn & Hs & Hc).
        destruct (IHl H2) as (ns & Hns & Hss & Hcs).
        exists (n :: ns). rewrite Hn; simpl. rewrite Hns; simpl.
        rewrite Hs, Hss, Hc; simpl. rewrite Hcs. auto. }
    destruct X as (ns & Hns & Hss & Hcs). rewrite Hns; cbn [bind].
    eexists; split; [reflexivity|]. split; [exact Hss|].
    rewrite construct_object_unfold, sane_constructor_seq, Hcs. reflexivity.
  - (* OrderedDict *)
    apply andb_prop in H as [H Hd].
    assert (X : exists ns,
               mapM_pairs (represent_data SaneDumper_table None) items = Ok ns
               /\ forallb (fun kv => specific_tags kv.1 && specific_tags kv.2) ns
                  = true
               /\ mapM_pairs (construct_object SaneLoader_table) ns = Ok items
               /\ forallb hashable (map fst items) = true).
    { clear - IH H. induction IH as [|[k v] l [Hk Hv] _ IHl]; simpl in *.
      - exists []. auto.
      - apply andb_prop in H as [H1 H2]. apply andb_prop in H1 as [Hsk Hlv].
        pose proof (scalar_key_loaded _ Hsk) as Hlk.
        destruct (Hk Hlk) as (nk & Hnk & Hsnk & Hck).
        destruct (Hv Hlv) as (nv & Hnv & Hsnv & Hcv).
        destruct (IHl H2) as (ns & Hns & Hss & Hcs & Hh).
        exists ((nk, nv) :: ns). rewrite Hnk; simpl. rewrite Hnv; simpl.
        rewrite Hns; simpl. rewrite Hsnk, Hsnv, Hss, Hck; simpl.
        rewrite Hcv; simpl. rewrite Hcs, (scalar_key_hashable _ Hsk), Hh.
        auto. }
    destruct X as (ns & Hns & Hss & Hcs & Hh). rewrite Hns; cbn [bind].
    eexists; split; [reflexivity|]. split; [exact Hss|].
    rewrite construct_object_unfold, sane_constructor_map.
    rewrite (ordered_loop_of_pairs _ _ _ [] Hcs Hh); cbn [bind].
    rewrite odict_fold_fresh by exact Hd. reflexivity.
Qed.

(** ** One cycle through the text *)

Lemma dump_with_unfold analyze prepare t :
  dump_with analyze prepare t =
  do n <- represent_data SaneDumper_table None t;
  Ok (emit_node (analyze true) prepare false false n).
Proof. reflexivity. Qed.

(** What [load] built is written and read back unchanged, whatever the
    emitter's analysis of the characters. *)
Lemma loaded_tree_round_trip analyze prepare t :
  loaded_tree t = true ->
  exists d, dump_with analyze prepare t = Ok d /\ load_stream [d] = Ok t.
Proof.
  intros H. destruct (construct_represent t H) as (n & Hn & Hs & Hc).
  rewrite dump_with_unfold, Hn. cbn [bind].
  eexists; split; [reflexivity|]. rewrite load_emitted by exact Hs. exact Hc.
Qed.

(** At the event interface a tree of texts is read back as it was
    written, and written again the same.  The writer of the emitter and
    the scanner lie outside: what they do to the characters of a scalar is
    not part of this statement. *)
Lemma text_tree_events_round_trip analyze prepare t :
  text_tree t = true ->
  exists d, dump_with analyze prepare t = Ok d
            /\ load_stream [d] = Ok t
            /\ (do t' <- load_stream [d]; dump_with analyze prepare t') = Ok d.
Proof.
  intros H.
  destruct (loaded_tree_round_trip analyze prepare t (text_tree_loaded t H))
    as (d & Hd & Hl).
  exists d. split; [exact Hd|]. split; [exact Hl|].
  rewrite Hl. cbn [bind]. exact Hd.
Qed.

(** A typed scalar is not restored: the integer 1 is written plain, [1],
    and read back as the string "1", which is written quoted. *)
Lemma integer_not_restored :
  seven_kinds (PInt 1) = true
  /\ dump (PInt 1) = Ok (EScalar None None (u "1"))
  /\ load_dump (PInt 1) = Ok (PUnicode (u "1"))
  /\ dump_load_dump (PInt 1) = Ok (EScalar None (Some SingleQuoted) (u "1")).
Proof. vm_compute. repeat split. Qed.

(** ** Scalars *)

Lemma char_in_In c cs : char_in c cs = true <-> In c cs.
Proof.
  unfold char_in. rewrite existsb_exists. split.
  - intros (x & Hx & E). apply N.eqb_eq in E. subst. exact Hx.
  - intros H. exists c. split; [exact H | apply N.eqb_refl].
Qed.

Lemma compose_plain value :
  compose_node (EScalar None None value)
  = ScalarNode (resolve KScalar value (true, false)) value None.
Proof. reflexivity. Qed.

(** A plain, untagged scalar that the resolver takes for a null, an int, a
    float, a timestamp or a string is loaded as its text. *)
Lemma plain_scalar_loads_as_text value :
  resolve KScalar value (true, false)
    ∈ [Tag.str; Tag.null; Tag.int; Tag.float; Tag.timestamp] ->
  load_stream [EScalar None None value] = Ok (PUnicode value).
Proof.
  intros H. rewrite load_stream_single, compose_plain.
  rewrite construct_object_unfold.
  rewrite (sane_constructor_scalar _ value None H). reflexivity.
Qed.

Lemma typed_forms_load_as_text :
  map (fun s => load (u s)) ["123"; "2020-01-01"; "null"; "~"; "3.14"]
  = map (fun s => Ok (PUnicode (u s)))
        ["123"; "2020-01-01"; "null"; "~"; "3.14"].
Proof. vm_compute. reflexivity. Qed.

(** C1 fails on the unquoted scalar [true]: line 113 registers the string
    loader under the tag [...:boolean], the resolver tags [true] with
    [...:bool], whose inherited constructor is still in the table. *)
Theorem C1_true_loads_as_boolean :
  load (u "true") = Ok (PBool true)
  /\ yaml_constructors SaneLoader saneyaml !! Some Tag.bool
     = Some construct_yaml_bool
  /\ yaml_constructors SaneLoader saneyaml !! Some Tag.boolean
     = Some string_loader.
Proof. vm_compute. repeat split. Qed.

(** C6 holds for the rendering (true is written as the plain word [yes],
    false as [no]) and fails for the reading: the word comes back as the
    boolean, at the top and under a key. *)
Theorem C6_yes_loads_as_boolean :
  dump (PBool true) = Ok (EScalar None None (u "yes"))
  /\ dump (PBool false) = Ok (EScalar None None (u "no"))
  /\ load_dump (PBool true) = Ok (PBool true)
  /\ load_dump (POrderedDict [(PUnicode (u "flag"), PBool true)])
     = Ok (POrderedDict [(PUnicode (u "flag"), PBool true)])
  /\ load (u "flag: yes")
     = Ok (POrderedDict [(PUnicode (u "flag"), PBool true)]).
Proof. vm_compute. repeat split. Qed.

(** C10: the empty text holds no document and [load] returns None, which
    is no string, no list and no OrderedDict. *)
Theorem C10_empty_text_loads_None :
  load (u "") = Ok PNone
  /\ (forall s, PNone <> PUnicode s)
  /\ (forall items, PNone <> PList items)
  /\ (forall items, PNone <> POrderedDict items).
Proof. split; [vm_compute; reflexivity|]. repeat split; discriminate. Qed.

(** Whereas a document never loads as None. *)
Lemma document_never_loads_None e : load_stream [e] <> Ok PNone.
Proof.
  rewrite load_stream_single. intros H.
  apply loaded_invariant in H. discriminate H.
Qed.

(** ** The style of a string *)

Lemma clean_boundaries l :
  clean l <-> forall c, In c l -> ~ In c line_boundaries.
Proof.
  unfold clean. split; intros H c Hc.
  - intros X. apply (proj2 (char_in_In c line_boundaries)) in X.
    specialize (H c Hc). unfold is_linebreak in H.
    unfold line_boundaries in X. congruence.
  - apply not_true_is_false. intros X. apply (H c Hc).
    apply (proj1 (char_in_In c line_boundaries)). exact X.
Qed.

Lemma clean_rev l : clean l -> clean (List.rev l).
Proof. intros H c Hc. apply H, in_rev, Hc. Qed.

(** A stretch that does not hold [c] lies on one side of it. *)
Lemma stretch_beside {A} (l1 l2 pre line post : list A) c :
  l1 ++ c :: l2 = pre ++ line ++ post -> ~ In c line ->
  (exists post', l1 = pre ++ line ++ post')
  \/ (exists pre', l2 = pre' ++ line ++ post).
Proof.
  intros E N. apply app_eq_app in E as [l [[E1 E2]|[E1 E2]]].
  - symmetry in E2. apply app_eq_app in E2 as [m [[E3 E4]|[E3 E4]]].
    + left. exists m. rewrite E1, E3. reflexivity.
    + destruct m as [|c' m].
      * left. exists []. rewrite E1, E3. rewrite !app_nil_r. reflexivity.
      * injection E4 as -> E4. exfalso. apply N. rewrite E3.
        apply in_or_app. right. left. reflexivity.
  - destruct l as [|c' l].
    + destruct line as [|c' line].
      * left. exists []. rewrite app_nil_r in E1. subst pre.
        cbn [app]. rewrite app_nil_r. reflexivity.
      * injection E2 as <- E2. exfalso. apply N. left. reflexivity.
    + injection E2 as <- E2. right. exists l. exact E2.
Qed.

(** Each line of [splitlines] is a stretch of the text without an end of
    line. *)
Lemma lines_are_stretches s : forall after_cr cur,
  clean cur -> (after_cr = true -> cur = []) ->
  forall l, In l (splitlines_from after_cr cur s) ->
  clean l /\ exists pre post, List.rev cur ++ s = pre ++ l ++ post.
Proof.
  induction s as [|c s IH]; intros after_cr cur Hc Ha l Hl;
    cbn [splitlines_from] in Hl.
  - destruct cur as [|x cur]; [destruct Hl|].
    destruct Hl as [<-|[]]. split; [apply clean_rev, Hc|].
    exists [], []. rewrite !app_nil_r. reflexivity.
  - destruct (after_cr && N.eqb c LF) eqn:E1.
    { apply andb_prop in E1 as [E1 _]. rewrite (Ha E1) in *.
      destruct (IH false [] Hc (fun X => eq_refl) l Hl) as [Cl (pre & post & E)].
      split; [exact Cl|]. exists (c :: pre), post.
      cbn [List.rev app] in *. rewrite E. reflexivity. }
    destruct (is_linebreak c) eqn:E2.
    + destruct Hl as [<-|Hl].
      * split; [apply clean_rev, Hc|]. exists [], (c :: s). reflexivity.
      * assert (C0 : clean []) by (intros x []).
        destruct (IH (N.eqb c CR) [] C0 (fun X => eq_refl) l Hl)
          as [Cl (pre & post & E)].
        split; [exact Cl|]. exists (List.rev cur ++ c :: pre), post.
        cbn [List.rev app] in E. rewrite E, <- app_assoc. reflexivity.
    + assert (C1 : clean (c :: cur)).
      { intros x [<-|Hx]; [exact E2|apply Hc, Hx]. }
      destruct (IH false (c :: cur) C1 (fun X => ltac:(discriminate X)) l Hl)
        as [Cl (pre & post & E)].
      split; [exact Cl|]. exists pre, post.
      cbn [List.rev] in E. rewrite <- app_assoc in E. exact E.
Qed.

(** Each stretch of the text without an end of line lies within one line
    of [splitlines]. *)
Lemma stretches_in_lines s : forall after_cr cur,
  clean cur -> (after_cr = true -> cur = []) ->
  forall pre line post,
    List.rev cur ++ s = pre ++ line ++ post -> clean line -> line <> [] ->
    exists l, In l (splitlines_from after_cr cur s)
              /\ length line <= length l.
Proof.
  induction s as [|c s IH]; intros after_cr cur Hc Ha pre line post E Cl Ne;
    cbn [splitlines_from].
  - rewrite app_nil_r in E.
    assert (L : length line <= length (List.rev cur)).
    { rewrite E, !length_app. lia. }
    destruct cur as [|x cur].
    + destruct line; [congruence|]. cbn in L. lia.
    + exists (List.rev (x :: cur)). split; [left; reflexivity|exact L].
  - destruct (after_cr && N.eqb c LF) eqn:E1.
    { apply andb_prop in E1 as [E1 E1']. rewrite (Ha E1) in *.
      apply N.eqb_eq in E1'. subst c.
      assert (N : ~ In LF line).
      { intros X. specialize (Cl _ X). discriminate Cl. }
      cbn [List.rev] in E.
      destruct (stretch_beside [] s pre line post LF E N)
        as [[post' X]|[pre' X]].
      - destruct pre; [destruct line; [congruence|discriminate X]
                      |discriminate X].
      - apply (IH false [] Hc (fun X => eq_refl) pre' line post X Cl Ne). }
    destruct (is_linebreak c) eqn:E2.
    + assert (N : ~ In c line).
      { intros X. specialize (Cl _ X). congruence. }
      destruct (stretch_beside _ _ _ _ _ _ E N) as [[post' X]|[pre' X]].
      * exists (List.rev cur). split; [left; reflexivity|].
        rewrite X, !length_app. lia.
      * assert (C0 : clean []) by (intros x []).
        destruct (IH (N.eqb c CR) [] C0 (fun X => eq_refl) pre' line post
                    X Cl Ne) as (l & Hl & Len).
        exists l. split; [right; exact Hl|exact Len].
    + assert (C1 : clean (c :: cur)).
      { intros x [<-|Hx]; [exact E2|apply Hc, Hx]. }
      apply (IH false (c :: cur) C1 (fun X => ltac:(discriminate X))
               pre line post); [|exact Cl|exact Ne].
      cbn [List.rev]. rewrite <- app_assoc. exact E.
Qed.

(** Line 181: some line of [splitlines] is longer than 40 characters exactly
    when the text holds more than 40 characters in a row without an end of
    line. *)
Lemma long_line_stretch value :
  existsb (fun line => Nat.ltb 40 (length line)) (splitlines value) = true
  <-> long_stretch 40 value.
Proof.
  assert (C0 : clean []) by (intros x []).
  unfold splitlines, long_stretch. rewrite existsb_exists. split.
  - intros (l & Hl & Len). apply Nat.ltb_lt in Len.
    destruct (lines_are_stretches value false [] C0
                (fun X => ltac:(discriminate X)) l Hl)
      as [Cl (pre & post & E)].
    exists pre, l, post. split; [exact E|]. split; [exact Len|].
    apply clean_boundaries, Cl.
  - intros (pre & line & post & E & Len & Cl).
    apply clean_boundaries in Cl.
    assert (Ne : line <> []) by (destruct line; [cbn in Len; lia|congruence]).
    destruct (stretches_in_lines value false [] C0
                (fun X => ltac:(discriminate X)) pre line post E Cl Ne)
      as (l & Hl & L).
    exists l. split; [exact Hl|]. apply Nat.ltb_lt. lia.
Qed.

(** The style asked for, by the characters of the text. *)
Lemma string_style_spec value :
  (string_style value = Some Literal <-> In LF value)
  /\ (string_style value = Some Folded
      <-> ~ In LF value /\ In SPACE value /\ long_stretch 40 value)
  /\ (string_style value = None
      <-> ~ In LF value /\ ~ (In SPACE value /\ long_stretch 40 value)).
Proof.
  cbv beta zeta delta [string_style verbatim_style folded_style].
  pose proof (char_in_In LF value) as HL.
  pose proof (char_in_In SPACE value) as HS.
  pose proof (long_line_stretch value) as HF.
  destruct (char_in LF value).
  { assert (In LF value) by (apply HL; reflexivity).
    repeat split; try discriminate; try tauto. }
  assert (NL : ~ In LF value) by (intros X; apply HL in X; discriminate X).
  destruct (existsb (fun line => Nat.ltb 40 (length line)) (splitlines value));
    destruct (char_in SPACE value); cbn [andb].
  - assert (In SPACE value) by (apply HS; reflexivity).
    assert (long_stretch 40 value) by (apply HF; reflexivity).
    repeat split; try discriminate; try tauto.
  - assert (~ In SPACE value) by (intros X; apply HS in X; discriminate X).
    repeat split; try discriminate; try tauto.
  - assert (~ long_stretch 40 value) by (intros X; apply HF in X; discriminate X).
    repeat split; try discriminate; try tauto.
  - assert (~ In SPACE value) by (intros X; apply HS in X; discriminate X).
    repeat split; try discriminate; try tauto.
Qed.

(** C5, as amended: [string_dumper] asks for the literal style exactly for
    the texts that hold a line feed; for the folded style exactly for the
    texts without line feed that hold a space and more than 40 characters
    in a row without an end of line of [splitlines] (LF, VT, FF, CR, FS,
    GS, RS, NEL, LS, PS); for no style, that is plain, for all others. *)
Theorem C5_string_style value :
  exists style,
    represent_data SaneDumper_table None (PUnicode value)
    = Ok (ScalarNode Tag.str value style)
    /\ (style = Some Literal <-> In 10%N value)
    /\ (style = Some Folded
        <-> ~ In 10%N value /\ In 32%N value
            /\ exists pre line post,
                 value = pre ++ line ++ post
                 /\ 40 < length line
                 /\ forall c, In c line ->
                      ~ In c [10; 11; 12; 13; 28; 29; 30; 133; 8232; 8233]%N)
    /\ (style = None
        <-> ~ In 10%N value
            /\ ~ (In 32%N value
                  /\ exists pre line post,
                       value = pre ++ line ++ post
                       /\ 40 < length line
                       /\ forall c, In c line ->
                            ~ In c [10; 11; 12; 13; 28; 29; 30; 133;
                                    8232; 8233]%N)).
Proof.
  exists (string_style value). split.
  - rewrite represent_data_sane. apply run_string_dumper_unicode.
  - apply string_style_spec.
Qed.

(** The three examples of the specification: two lines, sixty characters
    with spaces on one line, ten characters. *)
Lemma C5_string_style_witness :
  represent_data SaneDumper_table None
    (PUnicode (u ("line one" +:+ NL +:+ "line two")))
  = Ok (ScalarNode Tag.str (u ("line one" +:+ NL +:+ "line two"))
          (Some Literal))
  /\ represent_data SaneDumper_table None (PUnicode sixty_text)
     = Ok (ScalarNode Tag.str sixty_text (Some Folded))
  /\ represent_data SaneDumper_table None (PUnicode (u "ten chars."))
     = Ok (ScalarNode Tag.str (u "ten chars.") None).
Proof.
  split; [|split].
  - destruct (C5_string_style (u ("line one" +:+ NL +:+ "line two")))
      as (style & Hr & Hl & _).
    rewrite Hr. f_equal. f_equal. apply Hl. vm_compute. tauto.
  - destruct (C5_string_style sixty_text) as (style & Hr & _ & Hf & _).
    rewrite Hr. f_equal. f_equal. apply Hf.
    split; [vm_compute; intuition discriminate|].
    split; [vm_compute; tauto|].
    exists [], sixty_text, []. split; [reflexivity|].
    split; [vm_compute; lia|].
    intros c Hc X. vm_compute in Hc, X.
    repeat (destruct Hc as [<-|Hc]; [intuition discriminate|]). exact Hc.
  - destruct (C5_string_style (u "ten chars.")) as (style & Hr & _ & _ & Hn).
    rewrite Hr. f_equal. f_equal. apply Hn.
    split; [vm_compute; intuition discriminate|].
    intros [_ (pre & line & post & E & Len & _)].
    apply (f_equal (@length N)) in E. rewrite !length_app in E.
    change (length (u "ten chars.")) with 10 in E. lia.
Defined.

(** C5 as stated fails on a text whose only end of line is a carriage
    return: 63 characters with a space and no line feed.  The code asks
    for no style.  If a line break is a line feed, the text is one line
    longer than 40 characters and the specification says folded; if a carriage
    return is a line break too, the specification says literal. *)
Lemma C5_counterexample :
  length cr_text = 63
  /\ represent_data SaneDumper_table None (PUnicode cr_text)
     = Ok (ScalarNode Tag.str cr_text None)
  /\ spec_style (N.eqb LF) cr_text = Some Folded
  /\ spec_style (fun c => N.eqb c LF || N.eqb c CR) cr_text = Some Literal
  /\ spec_style is_linebreak cr_text = Some Literal.
Proof. vm_compute. repeat split. Qed.

(** Whatever is taken for a line break, the words of the specification
    give the 63 characters a style, literal or folded. *)
Lemma cut_lines_whole is_break s : forall cur,
  existsb is_break s = false ->
  cut_lines is_break cur s = [List.rev cur ++ s].
Proof.
  induction s as [|c s IH]; intros cur H; cbn [cut_lines].
  - rewrite app_nil_r. reflexivity.
  - cbn [existsb] in H. apply orb_false_elim in H as [H1 H2].
    rewrite H1, (IH _ H2). cbn [List.rev]. rewrite <- app_assoc. reflexivity.
Qed.

Lemma spec_style_cr_text is_break :
  spec_style is_break cr_text <> string_style cr_text.
Proof.
  replace (string_style cr_text) with (@None style_char) by (vm_compute; reflexivity).
  unfold spec_style. destruct (existsb is_break cr_text) eqn:E; [discriminate|].
  rewrite (cut_lines_whole _ _ _ E). discriminate.
Qed.

(** ** Looking a key up *)

Lemma key_eqb_scalar a b :
  is_scalar_key a = true -> is_scalar_key b = true ->
  key_eqb a b = true <-> a = b.
Proof.
  destruct a, b; try discriminate; intros _ _; unfold key_eqb;
    try (split; discriminate).
  - rewrite Bool.eqb_true_iff. split; congruence.
  - unfold unicode_eqb. rewrite bool_decide_eq_true. split; congruence.
Qed.

Lemma key_eqb_sym a b : key_eqb a b = key_eqb b a.
Proof.
  destruct a, b; try reflexivity; unfold key_eqb.
  - destruct b, b0; reflexivity.
  - apply String.eqb_sym.
  - unfold unicode_eqb. apply bool_decide_ext. split; congruence.
Qed.

Lemma odict_get_app l1 l2 k :
  odict_get (l1 ++ l2) k =
  match odict_get l1 k with Some v => Some v | None => odict_get l2 k end.
Proof.
  induction l1 as [|[k0 v0] l1 IH]; simpl; [reflexivity|].
  destruct (key_eqb k0 k); [reflexivity | exact IH].
Qed.

Lemma odict_get_set items k v k' :
  is_scalar_key k = true -> is_scalar_key k' = true ->
  forallb is_scalar_key (map fst items) = true ->
  odict_get (odict_set items k v) k' =
  if key_eqb k k' then Some v else odict_get items k'.
Proof.
  intros Hk Hk'. induction items as [|[k0 v0] items IH]; simpl; intros Hs;
    [reflexivity|].
  apply andb_prop in Hs as [H0 Hs].
  destruct (key_eqb k0 k) eqn:E; simpl.
  - apply key_eqb_scalar in E; [subst k0|assumption..].
    destruct (key_eqb k k'); reflexivity.
  - rewrite IH by exact Hs. destruct (key_eqb k0 k') eqn:E'; [|reflexivity].
    apply key_eqb_scalar in E'; [subst k0|assumption..].
    rewrite key_eqb_sym, E. reflexivity.
Qed.

Lemma odict_set_scalar items k v :
  is_scalar_key k = true ->
  forallb is_scalar_key (map fst items) = true ->
  forallb is_scalar_key (map fst (odict_set items k v)) = true.
Proof.
  intros Hk Hs. rewrite odict_set_keys. destruct (existsb _ _); [exact Hs|].
  rewrite forallb_app, Hs. simpl. rewrite Hk. reflexivity.
Qed.

Lemma last_value_cons kv kvs k :
  last_value (kv :: kvs) k =
  match last_value kvs k with
  | Some v => Some v
  | None => if key_eqb kv.1 k then Some kv.2 else None
  end.
Proof.
  unfold last_value. simpl. rewrite odict_get_app. destruct kv; reflexivity.
Qed.

Lemma odict_fold_get kvs omap k :
  is_scalar_key k = true ->
  forallb is_scalar_key (map fst kvs) = true ->
  forallb is_scalar_key (map fst omap) = true ->
  odict_get (odict_fold kvs omap) k =
  match last_value kvs k with Some v => Some v | None => odict_get omap k end.
Proof.
  intros Hk. revert omap. induction kvs as [|[k0 v0] kvs IH]; intros omap Hs Ho.
  - reflexivity.
  - simpl in Hs. apply andb_prop in Hs as [H0 Hs].
    change (odict_fold ((k0, v0) :: kvs) omap)
      with (odict_fold kvs (odict_set omap k0 v0)).
    rewrite IH; [|exact Hs|apply odict_set_scalar; assumption].
    rewrite last_value_cons. destruct (last_value kvs k); [reflexivity|].
    rewrite odict_get_set by assumption. simpl.
    destruct (key_eqb k0 k); reflexivity.
Qed.

Lemma mapM_pairs_map {A B C} (f : B -> result C) (g : A -> B) l :
  mapM_pairs f (map (fun kv => (g kv.1, g kv.2)) l)
  = mapM_pairs (fun a => f (g a)) l.
Proof.
  induction l as [|[k v] l IH]; simpl; [reflexivity|]. rewrite IH. reflexivity.
Qed.

(** A mapping that loads as an OrderedDict went through [ordered_loader]. *)
Lemma load_mapping tag pairs items :
  load_stream [EMapping tag pairs] = Ok (POrderedDict items) ->
  exists kvs, load_pairs pairs = Ok kvs
              /\ forallb is_scalar_key (map fst kvs) = true
              /\ items = odict_fold kvs [].
Proof.
  rewrite load_stream_single. cbn [compose_node]. intros H.
  pose proof (loaded_invariant _ _ H) as Hl.
  rewrite construct_object_unfold in H.
  destruct (constructor_for SaneLoader_table _) as [c|] eqn:Ec;
    [|exact (False_rect _ (constructor_for_some _ Ec))].
  apply constructor_for_entry in Ec.
  repeat (apply elem_of_cons in Ec as [->|Ec]);
    try (apply elem_of_nil in Ec; destruct Ec); try discriminate H.
  - apply bind_Ok in H as (v & _ & H). discriminate H.
  - apply bind_Ok in H as (omap & Ho & H). injection H as ->.
    apply ordered_loop_Ok in Ho as (kvs & Hm & Hh & ->).
    rewrite mapM_pairs_map in Hm. exists kvs. split; [exact Hm|].
    split; [|reflexivity].
    apply mapM_pairs_Ok_Forall2 in Hm. clear - Hm Hh.
    induction Hm as [|[a1 a2] [k v] l kvs [Hk _] _ IH]; [reflexivity|].
    simpl in *. apply andb_prop in Hh as [Hh1 Hh2]. rewrite IH by exact Hh2.
    rewrite andb_true_r. apply loaded_hashable_scalar; [|exact Hh1].
    eapply loaded_invariant, Hk.
  - apply bind_Ok in H as (v & _ & H). apply bind_Ok in H as (b & _ & H).
    discriminate H.
Qed.

(** C7: a mapping is loaded with each key once, bound to the value of its
    last occurrence in the source. *)
Theorem C7_last_value_wins tag pairs items :
  load_stream [EMapping tag pairs] = Ok (POrderedDict items) ->
  exists kvs,
    load_pairs pairs = Ok kvs
    /\ distinct_keys (map fst items) = true
    /\ (forall k, is_scalar_key k = true ->
                  odict_get items k = last_value kvs k).
Proof.
  intros H. apply load_mapping in H as (kvs & Hp & Hs & ->).
  exists kvs. split; [exact Hp|]. split.
  - apply odict_fold_distinct. reflexivity.
  - intros k Hk. rewrite (odict_fold_get kvs [] k Hk Hs eq_refl).
    destruct (last_value kvs k); reflexivity.
Qed.

Lemma C7_last_value_wins_witness :
  exists kvs,
    load_pairs [(FlatReader.plain (u "a"), FlatReader.plain (u "1"));
                (FlatReader.plain (u "a"), FlatReader.plain (u "2"))] = Ok kvs
    /\ distinct_keys [PUnicode (u "a")] = true
    /\ (forall k, is_scalar_key k = true ->
                  odict_get [(PUnicode (u "a"), PUnicode (u "2"))] k
                  = last_value kvs k).
Proof.
  apply (C7_last_value_wins None
           [(FlatReader.plain (u "a"), FlatReader.plain (u "1"));
            (FlatReader.plain (u "a"), FlatReader.plain (u "2"))]
           [(PUnicode (u "a"), PUnicode (u "2"))]).
  vm_compute. reflexivity.
Defined.

(** The example of the specification: [a: 1] then [a: 2]. *)
Lemma duplicate_key_example :
  load (u ("a: 1" +:+ NL +:+ "a: 2"))
  = Ok (POrderedDict [(PUnicode (u "a"), PUnicode (u "2"))]).
Proof. vm_compute. reflexivity. Qed.

(** ** Key order *)

Lemma construct_represent_pairs items :
  forallb (fun kv => loaded_tree kv.1 && loaded_tree kv.2) items = true ->
  exists ns,
    mapM_pairs (represent_data SaneDumper_table None) items = Ok ns
    /\ forallb (fun kv => specific_tags kv.1 && specific_tags kv.2) ns = true
    /\ mapM_pairs (construct_object SaneLoader_table) ns = Ok items.
Proof.
  induction items as [|[k v] items IH]; intros H.
  - exists []. auto.
  - cbn [forallb fst snd] in H. apply andb_prop in H as [H1 H2].
    apply andb_prop in H1 as [Hk Hv].
    destruct (construct_represent k Hk) as (nk & Hnk & Hsnk & Hck).
    destruct (construct_represent v Hv) as (nv & Hnv & Hsnv & Hcv).
    destruct (IH H2) as (ns & Hns & Hss & Hcs).
    exists ((nk, nv) :: ns). cbn [mapM_pairs forallb fst snd].
    rewrite Hnk, Hnv, Hns, Hsnk, Hsnv, Hss, Hck, Hcv, Hcs. auto.
Qed.

(** [ordered_dumper] writes the items of any OrderedDict in their order:
    the pair of rank i in the document is what the emitter writes for the
    nodes of the key and of the value of rank i. *)
Lemma ordered_dumper_keeps_order analyze prepare items d :
  dump_with analyze prepare (POrderedDict items) = Ok d ->
  exists ns,
    mapM_pairs (represent_data SaneDumper_table None) items = Ok ns
    /\ d = EMapping None
             (map (fun kv =>
                     (emit_node (analyze true) prepare false
                        (check_simple_key (analyze true) prepare kv.1) kv.1,
                      emit_node (analyze true) prepare false false kv.2)) ns).
Proof.
  rewrite dump_with_unfold, represent_data_sane. intros H.
  apply bind_Ok in H as (n & Hn & H). apply bind_Ok in Hn as (ns & Hns & Hn).
  injection Hn as <-. injection H as <-. exists ns. split; [exact Hns|].
  reflexivity.
Qed.



(** ** When [dump] fails *)

Lemma is_ascii_app a b : is_ascii (a ++ b) = is_ascii a && is_ascii b.
Proof. apply forallb_app. Qed.

Lemma u_String c s : u (String c s) = N_of_ascii c :: u s.
Proof. reflexivity. Qed.

Lemma uint_ascii d : is_ascii (u (NilEmpty.string_of_uint d)) = true.
Proof.
  induction d; simpl NilEmpty.string_of_uint; try reflexivity;
    rewrite u_String; simpl; exact IHd.
Qed.

Lemma int_repr_ascii z :
  is_ascii (u (NilZero.string_of_int (Z.to_int z))) = true.
Proof.
  unfold NilZero.string_of_int, NilZero.string_of_uint.
  destruct (Z.to_int z) as [d|d]; [|rewrite u_String; simpl];
    destruct d; try reflexivity; apply uint_ascii.
Qed.

(** ASCII bytes decode to themselves. *)
Lemma utf8_decode_ascii s : is_ascii s = true -> utf8_decode s = Ok s.
Proof.
  induction s as [|c s IH]; intros H; [reflexivity|].
  cbn [is_ascii forallb] in H. apply andb_prop in H as [H1 H2].
  cbn [utf8_decode]. rewrite H1, (IH H2). reflexivity.
Qed.

Lemma decode_utf8_ascii b : is_ascii (u b) = true -> decode_utf8 b = Ok (u b).
Proof. apply utf8_decode_ascii. Qed.

(** The decoder returns a text or raises UnicodeDecodeError. *)
Lemma utf8_decode_outcome s :
  (exists t, utf8_decode s = Ok t) \/ utf8_decode s = Raise UnicodeDecodeError.
Proof.
  remember (length s) as n eqn:E. revert s E.
  induction n as [n IH] using lt_wf_ind. intros s E.
  assert (R : forall s', (length s' < length s)%nat ->
              (exists t, utf8_decode s' = Ok t)
              \/ utf8_decode s' = Raise UnicodeDecodeError).
  { intros s' L. apply (IH (length s')); [lia|reflexivity]. }
  clear IH E.
  destruct s as [|b0 s1]; [left; eexists; reflexivity|].
  cbn [utf8_decode].
  destruct (N.ltb b0 128).
  { destruct (R s1) as [[t ->]| ->]; [simpl; lia| |];
      cbn [bind]; eauto. }
  destruct (N.leb 194 b0 && N.leb b0 223).
  { destruct s1 as [|b1 s2]; [auto|].
    destruct (continuation b1); [|auto].
    destruct (R s2) as [[t ->]| ->]; [simpl; lia| |]; cbn [bind]; eauto. }
  destruct (N.leb 224 b0 && N.leb b0 239).
  { destruct s1 as [|b1 [|b2 s3]]; auto.
    destruct (_ && _); [|auto].
    destruct (R s3) as [[t ->]| ->]; [simpl; lia| |]; cbn [bind]; eauto. }
  destruct (N.leb 240 b0 && N.leb b0 244); [|auto].
  destruct s1 as [|b1 [|b2 [|b3 s4]]]; auto.
  destruct (_ && _); [|auto].
  destruct (R s4) as [[t ->]| ->]; [simpl; lia| |]; cbn [bind]; eauto.
Qed.

Lemma decodes_false b :
  decodes b = false -> decode_utf8 b = Raise UnicodeDecodeError.
Proof.
  unfold decodes, decode_utf8.
  destruct (utf8_decode_outcome (u b)) as [[t ->]| ->];
    [discriminate|reflexivity].
Qed.

Lemma decodes_true b : decodes b = true -> exists t, decode_utf8 b = Ok t.
Proof.
  unfold decodes. destruct (decode_utf8 b); try discriminate; eauto.
Qed.

(** What a call of [string_dumper] comes to. *)
Lemma run_string_dumper_outcome tag t :
  match t with PInt _ | PFloat _ | PStr _ | PUnicode _ => True | _ => False end ->
  if decodable t
  then exists n, run_string_dumper None tag t = Ok n
  else run_string_dumper None tag t = Raise UnicodeDecodeError.
Proof.
  destruct t as [|b|z|r|b|s|l|l|l|d|c]; try contradiction; intros _;
    unfold run_string_dumper, repr; cbn [bind decodable].
  - rewrite decode_utf8_ascii by apply int_repr_ascii. cbn [bind]. eauto.
  - destruct (decodes r) eqn:E.
    + destruct (decodes_true _ E) as [t ->]. cbn [bind]. eauto.
    + rewrite (decodes_false _ E). reflexivity.
  - destruct (decodes b) eqn:E.
    + destruct (decodes_true _ E) as [t ->]. cbn [bind]. eauto.
    + rewrite (decodes_false _ E). reflexivity.
  - eauto.
Qed.

Lemma mapM_raise {A B} (f : A -> result B) l e :
  mapM f l = Raise e -> exists a, In a l /\ f a = Raise e.
Proof.
  induction l as [|a l IH]; simpl; intros H; [discriminate|].
  destruct (f a) eqn:Ea; cbn [bind] in H.
  - destruct (mapM f l); cbn [bind] in H; try discriminate.
    destruct (IH H) as (x & Hx & E). eauto.
  - injection H as <-. eauto.
  - discriminate.
Qed.

Lemma mapM_not_modelled {A B} (f : A -> result B) l :
  mapM f l = NotModelled -> exists a, In a l /\ f a = NotModelled.
Proof.
  induction l as [|a l IH]; simpl; intros H; [discriminate|].
  destruct (f a) eqn:Ea; cbn [bind] in H; [|discriminate|eauto].
  destruct (mapM f l); cbn [bind] in H; try discriminate.
  destruct (IH eq_refl) as (x & Hx & E). eauto.
Qed.

Lemma mapM_ok {A B} (f : A -> result B) l bs :
  mapM f l = Ok bs -> forall a, In a l -> exists b, f a = Ok b.
Proof.
  revert bs. induction l as [|a l IH]; simpl; intros bs H x Hx; [destruct Hx|].
  destruct (f a) eqn:Ea; cbn [bind] in H; try discriminate.
  destruct (mapM f l) eqn:El; cbn [bind] in H; try discriminate.
  destruct Hx as [<-|Hx]; eauto.
Qed.

Lemma mapM_pairs_flat {A B} (f : A -> result B) (l : list (A * A)) :
  mapM_pairs f l
  = do bs <- mapM f (flat_map (fun kv => [kv.1; kv.2]) l);
    Ok ((fix pair_up (bs : list B) : list (B * B) :=
           match bs with
           | k :: v :: rest => (k, v) :: pair_up rest
           | _ => []
           end) bs).
Proof.
  induction l as [|[k v] l IH]; [reflexivity|].
  cbn [mapM_pairs flat_map app mapM fst snd]. rewrite IH.
  destruct (f k); cbn [bind]; try reflexivity.
  destruct (f v); cbn [bind]; try reflexivity.
  destruct (mapM f _); reflexivity.
Qed.

Lemma represented_sequence items tag :
  Forall (fun t => represented t (represent_data SaneDumper_table None t)) items ->
  match (do value <- mapM (represent_data SaneDumper_table None) items;
         Ok (SequenceNode tag value)) with
  | Ok _ => existsb has_instance items = false
            /\ forallb decodable items = true
  | Raise RepresenterError => existsb has_instance items = true
  | Raise UnicodeDecodeError => forallb decodable items = false
  | _ => False
  end.
Proof.
  intros F. rewrite Forall_forall in F.
  destruct (mapM _ items) as [ns|e|] eqn:E; cbn [bind].
  - split.
    + apply not_true_is_false. intros X.
      apply existsb_exists in X as (x & Hx & X).
      destruct (mapM_ok _ _ _ E x Hx) as [n Hn].
      specialize (F x (proj2 (list_elem_of_In _ _) Hx)). rewrite Hn in F.
      destruct F as [F _]. congruence.
    + apply forallb_forall. intros x Hx.
      destruct (mapM_ok _ _ _ E x Hx) as [n Hn].
      specialize (F x (proj2 (list_elem_of_In _ _) Hx)). rewrite Hn in F.
      apply F.
  - destruct (mapM_raise _ _ _ E) as (x & Hx & Ex).
    specialize (F x (proj2 (list_elem_of_In _ _) Hx)). rewrite Ex in F.
    destruct e; cbn [represented] in F.
    + destruct F.
    + apply existsb_exists. eauto.
    + apply not_true_is_false. intros X. rewrite forallb_forall in X.
      rewrite (X x Hx) in F. discriminate F.
  - destruct (mapM_not_modelled _ _ E) as (x & Hx & Ex).
    specialize (F x (proj2 (list_elem_of_In _ _) Hx)). rewrite Ex in F.
    exact F.
Qed.

Lemma represent_data_outcome t :
  represented t (represent_data SaneDumper_table None t).
Proof.
  induction t as [|b|z|r|b|s|items IH|items IH|items IH|d|c]
    using pyobj_nested_ind; rewrite represent_data_sane;
    cbn [represented has_instance decodable]; auto.
  - pose proof (run_string_dumper_outcome Tag.int (PInt z) I) as H.
    cbn [decodable] in H. destruct H as [n ->]. split; reflexivity.
  - pose proof (run_string_dumper_outcome Tag.float (PFloat r) I) as H.
    cbn [decodable] in H.
    destruct (decodes r) eqn:E; [destruct H as [n ->]|rewrite H];
      cbn [represented has_instance decodable]; rewrite ?E; auto.
  - pose proof (run_string_dumper_outcome Tag.str (PStr b) I) as H.
    cbn [decodable] in H.
    destruct (decodes b) eqn:E; [destruct H as [n ->]|rewrite H];
      cbn [represented has_instance decodable]; rewrite ?E; auto.
  - pose proof (run_string_dumper_outcome Tag.str (PUnicode s) I) as H.
    cbn [decodable] in H. destruct H as [n ->]. split; reflexivity.
  - pose proof (represented_sequence items Tag.seq IH) as H.
    destruct (do value <- _; _) as [n|[]|]; exact H.
  - pose proof (represented_sequence items Tag.seq IH) as H.
    destruct (do value <- _; _) as [n|[]|]; exact H.
  - rewrite mapM_pairs_flat.
    assert (F : Forall (fun t => represented t
                          (represent_data SaneDumper_table None t))
                  (flat_map (fun kv => [kv.1; kv.2]) items)).
    { rewrite Forall_forall in IH. rewrite Forall_forall. intros x Hx.
      apply list_elem_of_In, in_flat_map in Hx as ([k v] & Hkv & Hx).
      destruct (IH (k, v) (proj2 (list_elem_of_In _ _) Hkv)) as [I1 I2].
      destruct Hx as [<-|[<-|[]]]; assumption. }
    pose proof (represented_sequence _ Tag.seq F) as H.
    assert (X : existsb has_instance (flat_map (fun kv => [kv.1; kv.2]) items)
                = existsb (fun kv => has_instance kv.1 || has_instance kv.2) items).
    { clear. induction items as [|[k v] l IHl]; [reflexivity|].
      cbn [flat_map app existsb fst snd]. rewrite IHl.
      rewrite orb_assoc. reflexivity. }
    assert (Y : forallb decodable (flat_map (fun kv => [kv.1; kv.2]) items)
                = forallb (fun kv => decodable kv.1 && decodable kv.2) items).
    { clear. induction items as [|[k v] l IHl]; [reflexivity|].
      cbn [flat_map app forallb fst snd]. rewrite IHl.
      rewrite andb_assoc. reflexivity. }
    rewrite X, Y in H.
    destruct (mapM _ _) as [ns|[]|]; cbn [bind] in H |- *; exact H.
  - unfold ascii_decode.
    destruct (is_ascii (u d)) eqn:E;
      cbn [bind represented has_instance decodable]; rewrite ?E; auto.
Qed.

Lemma first_failure_items items :
  Forall (fun t => fails_first t (represent_data SaneDumper_table None t))
    items ->
  match mapM (represent_data SaneDumper_table None) items with
  | Ok _ => first_failure (PList items) = None
  | Raise e => first_failure (PList items) = Some e
  | NotModelled => False
  end.
Proof.
  induction 1 as [|x items Hx _ IHl]; [reflexivity|].
  cbn [mapM]. unfold fails_first in Hx.
  change (first_failure (PList (x :: items)))
    with (match first_failure x with
          | Some e => Some e
          | None => first_failure (PList items)
          end).
  destruct (represent_data SaneDumper_table None x) as [n|e|];
    [|cbn [bind]; rewrite Hx; reflexivity|destruct Hx].
  rewrite Hx. cbn [bind].
  destruct (mapM _ items) as [ns|e|]; cbn [bind] in *; exact IHl.
Qed.

Lemma first_failure_pairs items :
  Forall (fun kv =>
            fails_first kv.1 (represent_data SaneDumper_table None kv.1)
            /\ fails_first kv.2 (represent_data SaneDumper_table None kv.2))
    items ->
  match mapM_pairs (represent_data SaneDumper_table None) items with
  | Ok _ => first_failure (POrderedDict items) = None
  | Raise e => first_failure (POrderedDict items) = Some e
  | NotModelled => False
  end.
Proof.
  induction 1 as [|[k v] items [Hk Hv] _ IHl]; [reflexivity|].
  cbn [mapM_pairs fst snd] in *. unfold fails_first in Hk, Hv.
  change (first_failure (POrderedDict ((k, v) :: items)))
    with (match first_failure k with
          | Some e => Some e
          | None =>
              match first_failure v with
              | Some e => Some e
              | None => first_failure (POrderedDict items)
              end
          end).
  destruct (represent_data SaneDumper_table None k) as [nk|e|];
    [|cbn [bind]; rewrite Hk; reflexivity|destruct Hk].
  rewrite Hk. cbn [bind].
  destruct (represent_data SaneDumper_table None v) as [nv|e|];
    [|cbn [bind]; rewrite Hv; reflexivity|destruct Hv].
  rewrite Hv. cbn [bind].
  destruct (mapM_pairs _ items) as [ns|e|]; cbn [bind] in *; exact IHl.
Qed.

(** The exception raised is that of the first failing object. *)
Lemma represent_data_first_failure t :
  fails_first t (represent_data SaneDumper_table None t).
Proof.
  induction t as [|b|z|r|b|s|items IH|items IH|items IH|d|c]
    using pyobj_nested_ind; rewrite represent_data_sane;
    cbn [fails_first first_failure]; try reflexivity.
  - pose proof (run_string_dumper_outcome Tag.int (PInt z) I) as H.
    cbn [decodable] in H. destruct H as [n ->]. reflexivity.
  - pose proof (run_string_dumper_outcome Tag.float (PFloat r) I) as H.
    cbn [decodable] in H.
    destruct (decodes r) eqn:E; [destruct H as [n ->]|rewrite H];
      cbn [fails_first first_failure]; rewrite E; reflexivity.
  - pose proof (run_string_dumper_outcome Tag.str (PStr b) I) as H.
    cbn [decodable] in H.
    destruct (decodes b) eqn:E; [destruct H as [n ->]|rewrite H];
      cbn [fails_first first_failure]; rewrite E; reflexivity.
  - pose proof (first_failure_items items IH) as H.
    destruct (mapM _ items) as [ns|e|]; cbn [bind fails_first]; exact H.
  - pose proof (first_failure_items items IH) as H.
    destruct (mapM _ items) as [ns|e|]; cbn [bind fails_first]; exact H.
  - pose proof (first_failure_pairs items IH) as H.
    destruct (mapM_pairs _ items) as [ns|e|]; cbn [bind fails_first]; exact H.
  - unfold ascii_decode. destruct (is_ascii (u d)) eqn:E;
      cbn [bind fails_first first_failure]; rewrite E; reflexivity.
Qed.

(** C8, as amended: [dump] succeeds exactly on the trees that hold no
    instance of a class without representer and no byte string that fails
    to decode as UTF-8; otherwise it raises the engine's RepresenterError
    (some instance is there) or UnicodeDecodeError (some byte string does
    not decode), that of the first such object it meets, and nothing else.
    So it succeeds on every tree of the seven kinds whose byte strings
    decode, and on the other values the safe dumper knows (tuples, dates)
    as well. *)
Theorem C8_dump_errors analyze prepare t :
  ((exists d, dump_with analyze prepare t = Ok d)
   <-> has_instance t = false /\ decodable t = true)
  /\ (forall e, dump_with analyze prepare t = Raise e
                <-> first_failure t = Some e)
  /\ (dump_with analyze prepare t = Raise RepresenterError
      -> has_instance t = true)
  /\ (dump_with analyze prepare t = Raise UnicodeDecodeError
      -> decodable t = false)
  /\ (forall e, dump_with analyze prepare t = Raise e
      -> e = RepresenterError \/ e = UnicodeDecodeError)
  /\ dump_with analyze prepare t <> NotModelled
  /\ (seven_kinds t = true -> has_instance t = false)
  /\ (seven_kinds t = true -> decodable t = true
      -> exists d, dump_with analyze prepare t = Ok d).
Proof.
  assert (S : seven_kinds t = true -> has_instance t = false).
  { induction t as [|b|z|r|b|s|items IH|items IH|items IH|d|c]
      using pyobj_nested_ind; cbn [seven_kinds has_instance];
      intros H; try discriminate H; auto.
    - rewrite forallb_forall in H. rewrite Forall_forall in IH.
      apply not_true_is_false. intros E.
      apply existsb_exists in E as (x & Hx & E).
      rewrite (IH x (proj2 (list_elem_of_In _ _) Hx) (H x Hx)) in E.
      discriminate E.
    - rewrite forallb_forall in H. rewrite Forall_forall in IH.
      apply not_true_is_false. intros E.
      apply existsb_exists in E as (x & Hx & E).
      specialize (H x Hx). apply andb_prop in H as [H1 H2].
      destruct (IH x (proj2 (list_elem_of_In _ _) Hx)) as [I1 I2].
      rewrite (I1 H1), (I2 H2) in E. discriminate E. }
  rewrite dump_with_unfold.
  pose proof (represent_data_outcome t) as R.
  pose proof (represent_data_first_failure t) as F.
  destruct (represent_data SaneDumper_table None t) as [n|e|];
    cbn [bind represented fails_first] in *; [| |destruct R].
  - destruct R as [R1 R2].
    split; [split; eauto|].
    split; [intros e; rewrite F; split; intros H; discriminate H|].
    split; [discriminate|]. split; [discriminate|].
    split; [intros e H; discriminate H|].
    split; [discriminate|]. split; [exact S|]. eauto.
  - assert (X : ~ exists d : presentation, Raise e = Ok d)
      by (intros [d Hd]; discriminate Hd).
    assert (Y : forall e' : exn,
               @Raise presentation e = Raise e' <-> first_failure t = Some e').
    { intros e'. rewrite F. split; intros H; injection H as <-; reflexivity. }
    destruct e; [destruct R| |].
    + split; [split; [intros Z; destruct (X Z) | intros [Z _]; congruence]|].
      split; [exact Y|].
      split; [auto|]. split; [discriminate|].
      split; [intros e H; injection H as <-; auto|].
      split; [discriminate|]. split; [exact S|].
      intros H _. apply S in H. congruence.
    + split; [split; [intros Z; destruct (X Z) | intros [_ Z]; congruence]|].
      split; [exact Y|].
      split; [discriminate|]. split; [auto|].
      split; [intros e H; injection H as <-; auto|].
      split; [discriminate|]. split; [exact S|].
      intros _ H. congruence.
Qed.

Lemma C8_dump_errors_witness :
  exists d,
    dump (PList [PStr (bytes_of [99; 97; 102; 195; 169]%N);
                 PFloat "1.5"; PInt 3; PNone]) = Ok d.
Proof.
  apply (C8_dump_errors PyEmitter.analyze_scalar PyEmitter.prepare_tag
           (PList [PStr (bytes_of [99; 97; 102; 195; 169]%N);
                   PFloat "1.5"; PInt 3; PNone]));
    reflexivity.
Defined.

(** C8 as stated fails twice.  A date is none of the seven kinds, and it is
    written, as its ISO text.  The byte string of the one byte FF is a
    string, and [dump] raises UnicodeDecodeError on it (line 174), as it
    does when the string lies in a list. *)
Lemma C8_counterexample :
  (seven_kinds (PDate "2020-01-01") = false
   /\ dump (PDate "2020-01-01")
      = Ok (EScalar None None (u "2020-01-01")))
  /\ (seven_kinds (PStr (bytes_of [255]%N)) = true
      /\ dump (PStr (bytes_of [255]%N)) = Raise UnicodeDecodeError)
  /\ (seven_kinds (PList [PUnicode (u "a"); PStr (bytes_of [195; 40]%N)]) = true
      /\ dump (PList [PUnicode (u "a"); PStr (bytes_of [195; 40]%N)])
         = Raise UnicodeDecodeError).
Proof. vm_compute. repeat split. Qed.

(** The decoder on some byte strings: two, three and four bytes; an
    overlong form, a lone continuation byte, a truncated sequence and a
    code point above 10FFFF are refused. *)
Lemma decode_utf8_examples :
  decode_utf8 (bytes_of [99; 97; 102; 195; 169]%N) = Ok [99; 97; 102; 233]%N
  /\ decode_utf8 (bytes_of [226; 130; 172]%N) = Ok [8364]%N
  /\ decode_utf8 (bytes_of [240; 159; 152; 128]%N) = Ok [128512]%N
  /\ decode_utf8 (bytes_of [192; 128]%N) = Raise UnicodeDecodeError
  /\ decode_utf8 (bytes_of [224; 128; 128]%N) = Raise UnicodeDecodeError
  /\ decode_utf8 (bytes_of [128]%N) = Raise UnicodeDecodeError
  /\ decode_utf8 (bytes_of [226; 130]%N) = Raise UnicodeDecodeError
  /\ decode_utf8 (bytes_of [244; 144; 128; 128]%N) = Raise UnicodeDecodeError.
Proof. vm_compute. repeat split. Qed.

(** ** The text of a number *)

Lemma run_string_dumper_bytes tag r z :
  is_ascii (u r) = true ->
  run_string_dumper None tag (PStr r)
  = Ok (ScalarNode tag (u r) (string_style (u r)))
  /\ run_string_dumper None tag (PFloat r)
     = Ok (ScalarNode tag (u r) (string_style (u r)))
  /\ run_string_dumper None tag (PInt z)
     = Ok (ScalarNode tag (scalar_text (PInt z))
             (string_style (scalar_text (PInt z)))).
Proof.
  intros H. unfold run_string_dumper, repr, represent_scalar.
  cbn [bind scalar_text].
  rewrite (decode_utf8_ascii r H), (decode_utf8_ascii _ (int_repr_ascii z)).
  cbn [bind].
  repeat split; match goal with |- context [string_style ?x] =>
                  destruct (string_style x); reflexivity end.
Qed.

Lemma uint_digits d :
  forallb (fun c => N.leb 48 c && N.leb c 57)
          (u (NilEmpty.string_of_uint d)) = true.
Proof.
  induction d; simpl NilEmpty.string_of_uint; try reflexivity;
    rewrite u_String; simpl; exact IHd.
Qed.

Lemma int_repr_chars z :
  forallb (fun c => N.leb 45 c && N.leb c 57) (scalar_text (PInt z)) = true.
Proof.
  assert (W : forall l, forallb (fun c => N.leb 48 c && N.leb c 57) l = true ->
                        forallb (fun c => N.leb 45 c && N.leb c 57) l = true).
  { intros l H. apply forallb_forall. rewrite forallb_forall in H.
    intros c Hc. specialize (H c Hc). apply andb_prop in H as [H1 H2].
    rewrite H2, andb_true_r. apply N.leb_le in H1. apply N.leb_le. lia. }
  unfold scalar_text, NilZero.string_of_int, NilZero.string_of_uint.
  destruct (Z.to_int z) as [d|d]; [|rewrite u_String; simpl];
    destruct d; try reflexivity; apply W, uint_digits.
Qed.

Lemma no_char_below c lo hi l :
  forallb (fun x => N.leb lo x && N.leb x hi) l = true ->
  (c < lo)%N -> char_in c l = false.
Proof.
  intros H Hc. apply not_true_is_false. intros E. apply char_in_In in E.
  rewrite forallb_forall in H. specialize (H c E).
  apply andb_prop in H as [H _]. apply N.leb_le in H. lia.
Qed.

(** An int goes through [string_dumper] as its digits, with no style. *)
Lemma int_node z :
  represent_data SaneDumper_table None (PInt z)
  = Ok (ScalarNode Tag.int (scalar_text (PInt z)) None).
Proof.
  rewrite represent_data_sane.
  rewrite (proj2 (proj2 (run_string_dumper_bytes Tag.int "" z eq_refl))).
  do 2 f_equal. unfold string_style.
  rewrite (no_char_below LF 45 57 _ (int_repr_chars z)) by (vm_compute; reflexivity).
  rewrite (no_char_below SPACE 45 57 _ (int_repr_chars z)) by (vm_compute; reflexivity).
  rewrite andb_false_r. reflexivity.
Qed.

(** ** Objects met more than once *)

Section Moved.
Variable f : N -> N.
Hypothesis f_inj : forall a b, f a = f b -> a = b.

Lemma existsb_moved k l :
  existsb (N.eqb (f k)) (map f l) = existsb (N.eqb k) l.
Proof.
  induction l as [|a l IH]; [reflexivity|]. cbn [map existsb]. rewrite IH.
  f_equal. destruct (N.eqb_spec k a) as [->|Ne].
  - apply N.eqb_refl.
  - apply N.eqb_neq. intros E. apply Ne, f_inj, E.
Qed.

Lemma alias_key_moved h :
  Sharing.alias_key_of (Sharing.rename f h)
  = option_map f (Sharing.alias_key_of h).
Proof.
  destruct h as [data|id data|id z|id items|id items|id items];
    cbn [Sharing.alias_key_of Sharing.rename]; try reflexivity.
  - destruct (Sharing.ignore_aliases data); reflexivity.
  - destruct items; reflexivity.
Qed.

Lemma representer_for_moved table h :
  representer_for table (Sharing.erase (Sharing.rename f h))
  = representer_for table (Sharing.erase h).
Proof. destruct h; reflexivity. Qed.

Lemma graft_fresh n :
  Sharing.rename_node f (Sharing.graft None n) = Sharing.graft None n.
Proof.
  induction n as [tag value style|tag items IH|tag pairs IH]
    using node_nested_ind; cbn [Sharing.graft Sharing.rename_node option_map];
    [reflexivity| |]; f_equal; rewrite map_map.
  - apply map_ext_Forall. exact IH.
  - apply map_ext_Forall. eapply Forall_impl; [exact IH|].
    intros [k v] [Hk Hv]. cbn [fst snd] in *. rewrite Hk, Hv. reflexivity.
Qed.

Lemma graft_moved key n :
  Sharing.graft (option_map f key) n
  = Sharing.rename_node f (Sharing.graft key n).
Proof.
  destruct n as [tag value style|tag items|tag pairs];
    cbn [Sharing.graft Sharing.rename_node]; [reflexivity| |];
    f_equal; rewrite map_map; apply map_ext; intros x;
    cbn [fst snd]; rewrite ?graft_fresh; reflexivity.
Qed.

Local Abbreviation moved_result := (Sharing.moved_result f).
Local Abbreviation moves := (Sharing.moves f).

Lemma mapM_with_moved table ds items :
  Forall (moves table ds) items ->
  forall ro,
    Sharing.mapM_with (Sharing.represent_data table ds)
      (map (Sharing.rename f) items) (map f ro)
    = Sharing.result_map
        (fun r => (map (Sharing.rename_node f) r.1, map f r.2))
        (Sharing.mapM_with (Sharing.represent_data table ds) items ro).
Proof.
  induction 1 as [|h items Hh _ IH]; intros ro; [reflexivity|].
  cbn [map Sharing.mapM_with]. rewrite (Hh ro).
  unfold Sharing.moved_result, Sharing.result_map.
  destruct (Sharing.represent_data table ds h ro) as [[g ro1]| |];
    cbn [bind fst snd]; try reflexivity.
  rewrite (IH ro1). unfold Sharing.result_map.
  destruct (Sharing.mapM_with _ items ro1) as [[gs ro2]| |];
    reflexivity.
Qed.

Lemma mapM_pairs_with_moved table ds items :
  Forall (fun kv => moves table ds kv.1 /\ moves table ds kv.2) items ->
  forall ro,
    Sharing.mapM_pairs_with (Sharing.represent_data table ds)
      (map (fun kv => (Sharing.rename f kv.1, Sharing.rename f kv.2)) items)
      (map f ro)
    = Sharing.result_map
        (fun r => (map (fun kv => (Sharing.rename_node f kv.1,
                                   Sharing.rename_node f kv.2)) r.1,
                   map f r.2))
        (Sharing.mapM_pairs_with (Sharing.represent_data table ds) items ro).
Proof.
  induction 1 as [|[k v] items [Hk Hv] _ IH]; intros ro; [reflexivity|].
  cbn [fst snd] in Hk, Hv.
  cbn [map Sharing.mapM_pairs_with fst snd]. rewrite (Hk ro).
  unfold Sharing.moved_result, Sharing.result_map.
  destruct (Sharing.represent_data table ds k ro) as [[gk ro1]| |];
    cbn [bind fst snd]; try reflexivity.
  rewrite (Hv ro1). unfold Sharing.moved_result, Sharing.result_map.
  destruct (Sharing.represent_data table ds v ro1) as [[gv ro2]| |];
    cbn [bind fst snd]; try reflexivity.
  rewrite (IH ro2). unfold Sharing.result_map.
  destruct (Sharing.mapM_pairs_with _ items ro2) as [[gs ro3]| |];
    reflexivity.
Qed.

Lemma represent_data_unfold_shared table ds h ro :
  Sharing.represent_data table ds h ro =
  let alias_key := Sharing.alias_key_of h in
  let represent (represented_objects : list N) :=
    match h with
    | Sharing.HValue data | Sharing.HObject _ data =>
        do n <- represent_data table ds data;
        Ok (Sharing.graft alias_key n, represented_objects)
    | Sharing.HLong _ z =>
        match Sharing.representer_of table T_long with
        | Some represent_long =>
            Ok (Sharing.GScalar alias_key "tag:yaml.org,2002:int"
                  (u (NilZero.string_of_int (Z.to_int z))) ds,
                represented_objects)
        | Some represent_undefined => Raise RepresenterError
        | _ => NotModelled
        end
    | Sharing.HList _ items | Sharing.HTuple _ items =>
        match representer_for table (Sharing.erase h) with
        | Some represent_list =>
            do r <- Sharing.mapM_with (Sharing.represent_data table ds)
                      items represented_objects;
            Ok (Sharing.GSequence alias_key "tag:yaml.org,2002:seq" r.1, r.2)
        | Some represent_undefined => Raise RepresenterError
        | _ => NotModelled
        end
    | Sharing.HOrderedDict _ items =>
        match representer_for table (Sharing.erase h) with
        | Some ordered_dumper =>
            do r <- Sharing.mapM_pairs_with (Sharing.represent_data table ds)
                      items represented_objects;
            Ok (Sharing.GMapping alias_key "tag:yaml.org,2002:map" r.1, r.2)
        | Some represent_undefined => Raise RepresenterError
        | _ => NotModelled
        end
    end in
  match alias_key with
  | Some key =>
      if existsb (N.eqb key) ro
      then Ok (Sharing.GSame key, ro)
      else represent (key :: ro)
  | None => represent ro
  end.
Proof. destruct h; reflexivity. Qed.

(** Pass one: the representer on the moved value gives the moved graph. *)
Lemma represent_data_moved table ds h : moves table ds h.
Proof.
  induction h as [data|id data|id z|id items IH|id items IH|id items IH]
    using Sharing.heapobj_nested_ind; intros ro;
    rewrite !represent_data_unfold_shared; cbv zeta;
    rewrite alias_key_moved, ?representer_for_moved;
    destruct (Sharing.alias_key_of _) as [key|] eqn:Ek;
    cbn [option_map Sharing.rename];
    rewrite ?existsb_moved;
    try (destruct (existsb (N.eqb key) ro); [reflexivity|]);
    unfold moved_result, Sharing.result_map;
    try (destruct (represent_data table ds data) as [n| |];
         cbn [bind fst snd]; try reflexivity;
         rewrite <- graft_moved; reflexivity);
    try (destruct (Sharing.representer_of table _) as [[]|]; reflexivity);
    try (destruct (representer_for table _) as [[]|]; try reflexivity).
  all: try (change (f key :: map f ro) with (map f (key :: ro))).
  all: try (rewrite (mapM_with_moved table ds items IH);
            unfold Sharing.result_map;
            destruct (Sharing.mapM_with _ items _) as [[gs ro']| |];
            reflexivity).
  all: try (rewrite (mapM_pairs_with_moved table ds items IH);
            unfold Sharing.result_map;
            destruct (Sharing.mapM_pairs_with _ items _) as [[gs ro']| |];
            reflexivity).
Qed.

(** Pass two: the anchors of the moved graph. *)
Local Abbreviation moved_state := (Sharing.moved_state f).

Lemma anchor_of_moved table k :
  Sharing.anchor_of (Sharing.rename_anchors f table) (f k)
  = Sharing.anchor_of table k.
Proof.
  induction table as [|[k' a] table IH]; [reflexivity|].
  cbn [Sharing.rename_anchors map Sharing.anchor_of fst snd].
  fold (Sharing.rename_anchors f table). rewrite IH.
  destruct (N.eqb_spec k' k) as [->|Ne].
  - rewrite N.eqb_refl. reflexivity.
  - replace (N.eqb (f k') (f k)) with false; [reflexivity|].
    symmetry. apply N.eqb_neq. intros E. apply Ne, f_inj, E.
Qed.

Lemma set_anchor_moved table k a :
  Sharing.set_anchor (Sharing.rename_anchors f table) (f k) a
  = Sharing.rename_anchors f (Sharing.set_anchor table k a).
Proof.
  induction table as [|[k' a'] table IH]; [reflexivity|].
  cbn [Sharing.rename_anchors map Sharing.set_anchor fst snd].
  fold (Sharing.rename_anchors f table). rewrite IH.
  destruct (N.eqb_spec k' k) as [->|Ne].
  - rewrite N.eqb_refl. reflexivity.
  - replace (N.eqb (f k') (f k)) with false; [reflexivity|].
    symmetry. apply N.eqb_neq. intros E. apply Ne, f_inj, E.
Qed.

Lemma anchor_key_moved key st :
  Sharing.anchor_key (option_map f key) (moved_state st)
  = ((Sharing.anchor_key key st).1, moved_state (Sharing.anchor_key key st).2).
Proof.
  destruct key as [k|]; [|reflexivity].
  destruct st as [table n].
  unfold Sharing.anchor_key, Sharing.moved_state. cbn [option_map fst snd].
  rewrite anchor_of_moved.
  destruct (Sharing.anchor_of table k) as [[a|]|]; cbn [fst snd];
    rewrite ?set_anchor_moved; reflexivity.
Qed.

Lemma fold_left_moved {A} (step step' : Sharing.anchors * nat -> A -> Sharing.anchors * nat)
    (m : A -> A) l :
  Forall (fun x => forall st, step' (moved_state st) (m x)
                              = moved_state (step st x)) l ->
  forall st, fold_left step' (map m l) (moved_state st)
             = moved_state (fold_left step l st).
Proof.
  induction 1 as [|x l Hx _ IH]; intros st; [reflexivity|].
  cbn [map fold_left]. rewrite Hx. apply IH.
Qed.

Lemma anchor_node_moved g : forall st,
  Sharing.anchor_node (Sharing.rename_node f g) (moved_state st)
  = moved_state (Sharing.anchor_node g st).
Proof.
  induction g as [key|key tag value style|key tag items IH|key tag pairs IH]
    using Sharing.gnode_nested_ind; intros st;
    cbn [Sharing.rename_node Sharing.anchor_node].
  - change (Some (f key)) with (option_map f (Some key)).
    rewrite anchor_key_moved. reflexivity.
  - rewrite anchor_key_moved. reflexivity.
  - cbv zeta. rewrite anchor_key_moved. cbn [fst snd].
    destruct (Sharing.anchor_key key st) as [[] st']; cbn [fst snd];
      [reflexivity|].
    apply (fold_left_moved (fun st item => Sharing.anchor_node item st)).
    exact IH.
  - cbv zeta. rewrite anchor_key_moved. cbn [fst snd].
    destruct (Sharing.anchor_key key st) as [[] st']; cbn [fst snd];
      [reflexivity|].
    apply (fold_left_moved
             (fun st kv => Sharing.anchor_node kv.2
                             (Sharing.anchor_node kv.1 st))).
    eapply Forall_impl; [exact IH|].
    intros [k v] [Hk Hv] st0. cbn [fst snd] in *. rewrite Hk, Hv. reflexivity.
Qed.

(** Pass three: what is written for the moved graph. *)
Lemma alias_moved table key :
  Sharing.alias (Sharing.rename_anchors f table) (option_map f key)
  = Sharing.alias table key.
Proof.
  destruct key as [k|]; [|reflexivity].
  unfold Sharing.alias. cbn [option_map]. rewrite anchor_of_moved.
  reflexivity.
Qed.

Lemma alias_moved_some table k :
  Sharing.alias (Sharing.rename_anchors f table) (Some (f k))
  = Sharing.alias table (Some k).
Proof. apply (alias_moved table (Some k)). Qed.

Lemma check_simple_key_moved analyze prepare table g :
  Sharing.check_simple_key analyze prepare (Sharing.rename_anchors f table)
    (Sharing.rename_node f g)
  = Sharing.check_simple_key analyze prepare table g.
Proof.
  destruct g as [key tag value style|key tag items|key tag pairs|key];
    cbn [Sharing.rename_node Sharing.check_simple_key];
    rewrite ?alias_moved; try reflexivity.
  - destruct items; reflexivity.
  - destruct pairs; reflexivity.
  - rewrite alias_moved_some. reflexivity.
Qed.

Lemma serialize_node_moved analyze prepare canonical table g : forall ctx,
  Sharing.serialize_node analyze prepare canonical
    (Sharing.rename_anchors f table) ctx (Sharing.rename_node f g)
  = Sharing.serialize_node analyze prepare canonical table ctx g.
Proof.
  induction g as [key|key tag value style|key tag items IH|key tag pairs IH]
    using Sharing.gnode_nested_ind; intros ctx;
    cbn [Sharing.rename_node Sharing.serialize_node].
  - rewrite alias_moved_some. reflexivity.
  - rewrite alias_moved. reflexivity.
  - rewrite alias_moved. f_equal. rewrite map_map.
    apply map_ext_Forall. eapply Forall_impl; [exact IH|].
    intros x Hx. apply Hx.
  - rewrite alias_moved. f_equal. rewrite map_map.
    apply map_ext_Forall. eapply Forall_impl; [exact IH|].
    intros [k v] [Hk Hv]. cbn [fst snd] in *.
    rewrite check_simple_key_moved, Hk, Hv. reflexivity.
Qed.

(** The document does not depend on where the objects lie. *)
Lemma dump_moved analyze prepare h :
  Sharing.dump_with analyze prepare (Sharing.rename f h)
  = Sharing.dump_with analyze prepare h.
Proof.
  unfold Sharing.dump_with, Sharing.yaml_dump.
  pose proof (represent_data_moved
                (yaml_representers (Dumper sane_kwargs) saneyaml)
                (default_style sane_kwargs) h []) as E.
  cbn [map] in E. rewrite E. unfold Sharing.moved_result, Sharing.result_map.
  destruct (Sharing.represent_data _ _ h []) as [[g ro]| |];
    cbn [bind fst snd]; try reflexivity.
  f_equal.
  change (@nil (N * option string), 0) with (Sharing.moved_state f ([], 0)).
  rewrite anchor_node_moved. cbn [Sharing.moved_state fst snd].
  apply serialize_node_moved.
Qed.

End Moved.

(** ** Values none of whose objects is met twice *)

Lemma NoDup_app_inv {A} (l l' : list A) :
  List.NoDup (l ++ l') ->
  List.NoDup l /\ List.NoDup l' /\ forall a, In a l -> ~ In a l'.
Proof.
  induction l as [|x l IH]; cbn [app]; intros H.
  - split; [constructor|]. split; [exact H|]. intros a [].
  - inversion H as [|y m Hx Hl]; subst.
    destruct (IH Hl) as (N1 & N2 & D). split; [|split; [exact N2|]].
    + constructor; [|exact N1]. intros X. apply Hx, in_or_app. left. exact X.
    + intros a [<-|Ha]; [|apply D, Ha].
      intros X. apply Hx, in_or_app. right. exact X.
Qed.

Lemma flat_map_none {A B} (f : A -> list B) l :
  Forall (fun x => f x = []) l -> flat_map f l = [].
Proof.
  induction 1 as [|x l Hx _ IH]; [reflexivity|].
  cbn [flat_map]. rewrite Hx, IH. reflexivity.
Qed.

Lemma graft_fresh_facts n :
  Sharing.no_same (Sharing.graft None n) = true
  /\ Sharing.forget (Sharing.graft None n) = n
  /\ Sharing.node_keys (Sharing.graft None n) = [].
Proof.
  induction n as [tag value style|tag items IH|tag pairs IH]
    using node_nested_ind;
    cbn [Sharing.graft Sharing.no_same Sharing.forget Sharing.node_keys
         Sharing.key_list app]; [auto| |].
  - split; [|split].
    + apply forallb_forall. intros g Hg.
      apply in_map_iff in Hg as (x & <- & Hx).
      rewrite Forall_forall in IH.
      apply (IH x (proj2 (list_elem_of_In _ _) Hx)).
    + f_equal. rewrite map_map. rewrite <- (map_id items) at 2.
      apply map_ext_Forall. eapply Forall_impl; [exact IH|].
      intros x Hx. apply Hx.
    + rewrite flat_map_concat_map, map_map, <- flat_map_concat_map.
      apply flat_map_none. eapply Forall_impl; [exact IH|].
      intros x Hx. apply Hx.
  - split; [|split].
    + apply forallb_forall. intros g Hg.
      apply in_map_iff in Hg as ([k v] & <- & Hx).
      rewrite Forall_forall in IH.
      destruct (IH (k, v) (proj2 (list_elem_of_In _ _) Hx)) as [Hk Hv].
      cbn [fst snd] in *. rewrite (proj1 Hk), (proj1 Hv). reflexivity.
    + f_equal. rewrite map_map. rewrite <- (map_id pairs) at 2.
      apply map_ext_Forall. eapply Forall_impl; [exact IH|].
      intros [k v] [Hk Hv]. cbn [fst snd] in *.
      rewrite (proj1 (proj2 Hk)), (proj1 (proj2 Hv)). reflexivity.
    + rewrite flat_map_concat_map, map_map, <- flat_map_concat_map.
      apply flat_map_none. eapply Forall_impl; [exact IH|].
      intros [k v] [Hk Hv]. cbn [fst snd] in *.
      rewrite (proj2 (proj2 Hk)), (proj2 (proj2 Hv)). reflexivity.
Qed.

Lemma graft_facts key n :
  Sharing.no_same (Sharing.graft key n) = true
  /\ Sharing.forget (Sharing.graft key n) = n
  /\ Sharing.node_keys (Sharing.graft key n) = Sharing.key_list key.
Proof.
  destruct (graft_fresh_facts n) as (F1 & F2 & F3).
  destruct n as [tag value style|tag items|tag pairs];
    cbn [Sharing.graft Sharing.no_same Sharing.forget Sharing.node_keys] in *;
    [auto| |].
  - split; [exact F1|]. split; [exact F2|].
    cbn [Sharing.key_list app] in F3. rewrite F3, app_nil_r. reflexivity.
  - split; [exact F1|]. split; [exact F2|].
    cbn [Sharing.key_list app] in F3. rewrite F3, app_nil_r. reflexivity.
Qed.

Lemma existsb_absent k l : ~ In k l -> existsb (N.eqb k) l = false.
Proof.
  intros H. apply not_true_is_false. intros E.
  apply existsb_exists in E as (x & Hx & E). apply N.eqb_eq in E. subst x.
  exact (H Hx).
Qed.

Lemma representer_of_long :
  Sharing.representer_of SaneDumper_table T_long = Some represent_long.
Proof. vm_compute. reflexivity. Qed.

Local Abbreviation unshared h :=
  (forall ro, List.NoDup (Sharing.keys h) ->
              (forall k, In k (Sharing.keys h) -> ~ In k ro) ->
              Sharing.same_nodes h ro
                (Sharing.represent_data SaneDumper_table None h ro)
                (represent_data SaneDumper_table None (Sharing.erase h))).

Lemma mapM_with_unshared items :
  Forall (fun h => unshared h) items ->
  forall ro, List.NoDup (flat_map Sharing.keys items) ->
    (forall k, In k (flat_map Sharing.keys items) -> ~ In k ro) ->
    match Sharing.mapM_with (Sharing.represent_data SaneDumper_table None)
            items ro,
          mapM (represent_data SaneDumper_table None)
            (map Sharing.erase items) with
    | Ok (gs, registered), Ok ns =>
        forallb Sharing.no_same gs = true /\ map Sharing.forget gs = ns
        /\ flat_map Sharing.node_keys gs = flat_map Sharing.keys items
        /\ registered = List.rev (flat_map Sharing.keys items) ++ ro
    | Raise e, Raise e' => e = e'
    | NotModelled, NotModelled => True
    | _, _ => False
    end.
Proof.
  induction 1 as [|h items Hh _ IH]; intros ro ND Dis.
  - cbn. auto.
  - cbn [flat_map] in ND, Dis. apply NoDup_app_inv in ND as (N1 & N2 & D).
    cbn [map Sharing.mapM_with mapM].
    assert (Dh : forall k, In k (Sharing.keys h) -> ~ In k ro).
    { intros k Hk. apply Dis, in_or_app. left. exact Hk. }
    specialize (Hh ro N1 Dh). unfold Sharing.same_nodes in Hh.
    destruct (Sharing.represent_data _ _ h ro) as [[g ro1]|e|];
      destruct (represent_data _ _ (Sharing.erase h)) as [n|e'|];
      try contradiction; cbn [bind fst snd]; try exact Hh.
    destruct Hh as (H1 & H2 & H3 & H4).
    assert (D1 : forall k, In k (flat_map Sharing.keys items) -> ~ In k ro1).
    { intros k Hk X. rewrite H4 in X. apply in_app_or in X as [X|X].
      - apply in_rev in X. exact (D k X Hk).
      - apply (Dis k); [apply in_or_app; right; exact Hk|exact X]. }
    specialize (IH ro1 N2 D1).
    destruct (Sharing.mapM_with _ items ro1) as [[gs ro2]|e|];
      destruct (mapM _ (map Sharing.erase items)) as [ns|e'|];
      try contradiction; cbn [bind fst snd]; try exact IH.
    destruct IH as (I1 & I2 & I3 & I4).
    cbn [forallb map flat_map]. rewrite H1, I1, H2, I2, H3, I3.
    repeat split. rewrite I4, H4, rev_app_distr, app_assoc. reflexivity.
Qed.

Lemma mapM_pairs_with_unshared items :
  Forall (fun kv => unshared kv.1 /\ unshared kv.2) items ->
  forall ro,
    List.NoDup (flat_map (fun kv => Sharing.keys kv.1 ++ Sharing.keys kv.2)
                  items) ->
    (forall k, In k (flat_map (fun kv => Sharing.keys kv.1
                                         ++ Sharing.keys kv.2) items) ->
               ~ In k ro) ->
    match Sharing.mapM_pairs_with
            (Sharing.represent_data SaneDumper_table None) items ro,
          mapM_pairs (represent_data SaneDumper_table None)
            (map (fun kv => (Sharing.erase kv.1, Sharing.erase kv.2)) items)
    with
    | Ok (gs, registered), Ok ns =>
        forallb (fun kv => Sharing.no_same kv.1 && Sharing.no_same kv.2) gs
        = true
        /\ map (fun kv => (Sharing.forget kv.1, Sharing.forget kv.2)) gs = ns
        /\ flat_map (fun kv => Sharing.node_keys kv.1
                               ++ Sharing.node_keys kv.2) gs
           = flat_map (fun kv => Sharing.keys kv.1 ++ Sharing.keys kv.2) items
        /\ registered
           = List.rev (flat_map (fun kv => Sharing.keys kv.1
                                           ++ Sharing.keys kv.2) items) ++ ro
    | Raise e, Raise e' => e = e'
    | NotModelled, NotModelled => True
    | _, _ => False
    end.
Proof.
  induction 1 as [|[k v] items [Hk Hv] _ IH]; intros ro ND Dis.
  - cbn. auto.
  - cbn [flat_map fst snd] in ND, Dis, Hk, Hv.
    rewrite <- app_assoc in ND.
    apply NoDup_app_inv in ND as (N1 & ND & D1).
    apply NoDup_app_inv in ND as (N2 & N3 & D2).
    cbn [map Sharing.mapM_pairs_with mapM_pairs fst snd].
    assert (Dk : forall x, In x (Sharing.keys k) -> ~ In x ro).
    { intros x Hx. apply Dis, in_or_app. left. apply in_or_app. left.
      exact Hx. }
    specialize (Hk ro N1 Dk). unfold Sharing.same_nodes in Hk.
    destruct (Sharing.represent_data _ _ k ro) as [[gk ro1]|e|];
      destruct (represent_data _ _ (Sharing.erase k)) as [nk|e'|];
      try contradiction; cbn [bind fst snd]; try exact Hk.
    destruct Hk as (K1 & K2 & K3 & K4).
    assert (Dv : forall x, In x (Sharing.keys v) -> ~ In x ro1).
    { intros x Hx X. rewrite K4 in X. apply in_app_or in X as [X|X].
      - apply in_rev in X. apply (D1 x X). apply in_or_app. left. exact Hx.
      - apply (Dis x); [|exact X]. apply in_or_app. left.
        apply in_or_app. right. exact Hx. }
    specialize (Hv ro1 N2 Dv). unfold Sharing.same_nodes in Hv.
    destruct (Sharing.represent_data _ _ v ro1) as [[gv ro2]|e|];
      destruct (represent_data _ _ (Sharing.erase v)) as [nv|e'|];
      try contradiction; cbn [bind fst snd]; try exact Hv.
    destruct Hv as (V1 & V2 & V3 & V4).
    assert (Dr : forall x,
               In x (flat_map (fun kv => Sharing.keys kv.1
                                         ++ Sharing.keys kv.2) items) ->
               ~ In x ro2).
    { intros x Hx X. rewrite V4 in X. apply in_app_or in X as [X|X].
      - apply in_rev in X. exact (D2 x X Hx).
      - rewrite K4 in X. apply in_app_or in X as [X|X].
        + apply in_rev in X. apply (D1 x X). apply in_or_app. right. exact Hx.
        + apply (Dis x); [|exact X]. apply in_or_app. right. exact Hx. }
    specialize (IH ro2 N3 Dr).
    destruct (Sharing.mapM_pairs_with _ items ro2) as [[gs ro3]|e|];
      destruct (mapM_pairs _ (map _ items)) as [ns|e'|];
      try contradiction; cbn [bind fst snd]; try exact IH.
    destruct IH as (I1 & I2 & I3 & I4).
    cbn [forallb map flat_map fst snd].
    rewrite K1, V1, I1, K2, V2, I2, K3, V3, I3.
    repeat split.
    rewrite I4, V4, K4, !rev_app_distr, <- !app_assoc. reflexivity.
Qed.

(** Pass one on a value whose objects lie at different addresses. *)
Lemma represent_data_unshared h : unshared h.
Proof.
  induction h as [data|id data|id z|id items IH|id items IH|id items IH]
    using Sharing.heapobj_nested_ind; intros ro ND Dis;
    rewrite represent_data_unfold_shared; cbv zeta.
  - cbn [Sharing.alias_key_of Sharing.erase Sharing.keys] in *.
    destruct (represent_data _ _ data) as [n| |]; cbn [bind Sharing.same_nodes];
      auto.
    destruct (graft_facts None n) as (F1 & F2 & F3). auto.
  - cbn [Sharing.erase Sharing.keys] in *.
    destruct (Sharing.alias_key_of (Sharing.HObject id data)) as [key|] eqn:Ek.
    + cbn [Sharing.key_list] in Dis.
      rewrite (existsb_absent key ro) by (apply Dis; left; reflexivity).
      destruct (represent_data _ _ data) as [n| |];
        cbn [bind Sharing.same_nodes]; auto.
      destruct (graft_facts (Some key) n) as (F1 & F2 & F3).
      cbn [Sharing.keys]. rewrite Ek. cbn [Sharing.key_list List.rev app].
      auto.
    + destruct (represent_data _ _ data) as [n| |];
        cbn [bind Sharing.same_nodes]; auto.
      destruct (graft_facts None n) as (F1 & F2 & F3).
      cbn [Sharing.keys]. rewrite Ek. cbn [Sharing.key_list List.rev app].
      auto.
  - cbn [Sharing.alias_key_of Sharing.erase Sharing.keys Sharing.key_list] in *.
    rewrite (existsb_absent id ro) by (apply Dis; left; reflexivity).
    rewrite representer_of_long, int_node.
    cbn [Sharing.same_nodes Sharing.no_same Sharing.forget Sharing.node_keys
         Sharing.key_list scalar_text]. auto.
  - cbn [Sharing.alias_key_of Sharing.keys Sharing.key_list app] in *.
    inversion ND as [|x l Hx Hl]; subst.
    rewrite (existsb_absent id ro) by (apply Dis; left; reflexivity).
    rewrite representer_for_sane, represent_data_sane.
    cbn [Sharing.erase sane_representer].
    assert (D : forall k, In k (flat_map Sharing.keys items) ->
                          ~ In k (id :: ro)).
    { intros k Hk [<-|X]; [exact (Hx Hk)|].
      apply (Dis k); [right; exact Hk|exact X]. }
    pose proof (mapM_with_unshared items IH (id :: ro) Hl D) as M.
    destruct (Sharing.mapM_with _ items (id :: ro)) as [[gs ro1]|e|];
      destruct (mapM _ (map Sharing.erase items)) as [ns|e'|];
      try contradiction; cbn [bind fst snd Sharing.same_nodes]; try exact M.
    destruct M as (M1 & M2 & M3 & M4).
    cbn [Sharing.no_same Sharing.forget Sharing.node_keys Sharing.key_list app
         List.rev].
    cbn [Sharing.keys]; rewrite ?Ek;
      cbn [Sharing.alias_key_of Sharing.key_list app List.rev].
    rewrite M2, M3, M4, <- app_assoc. auto.
  - cbn [Sharing.keys] in *.
    destruct items as [|x items].
    { rewrite representer_for_sane, represent_data_sane.
      cbn [Sharing.alias_key_of Sharing.erase map Sharing.ignore_aliases
           sane_representer Sharing.mapM_with mapM bind fst snd
           Sharing.same_nodes Sharing.no_same Sharing.forget Sharing.node_keys
           Sharing.key_list Sharing.keys flat_map forallb app List.rev].
      auto. }
    remember (x :: items) as l eqn:El.
    assert (Ek : Sharing.alias_key_of (Sharing.HTuple id l) = Some id)
      by (subst l; reflexivity).
    rewrite Ek in *. cbn [Sharing.key_list app] in *.
    inversion ND as [|y m Hx Hl]; subst y m.
    rewrite (existsb_absent id ro) by (apply Dis; left; reflexivity).
    rewrite representer_for_sane, represent_data_sane.
    cbn [Sharing.erase sane_representer].
    assert (D : forall k, In k (flat_map Sharing.keys l) ->
                          ~ In k (id :: ro)).
    { intros k Hk [<-|X]; [exact (Hx Hk)|].
      apply (Dis k); [right; exact Hk|exact X]. }
    pose proof (mapM_with_unshared l IH (id :: ro) Hl D) as M.
    destruct (Sharing.mapM_with _ l (id :: ro)) as [[gs ro1]|e|];
      destruct (mapM _ (map Sharing.erase l)) as [ns|e'|];
      try contradiction; cbn [bind fst snd Sharing.same_nodes]; try exact M.
    destruct M as (M1 & M2 & M3 & M4).
    cbn [Sharing.no_same Sharing.forget Sharing.node_keys Sharing.key_list app
         List.rev].
    cbn [Sharing.keys]; rewrite ?Ek;
      cbn [Sharing.alias_key_of Sharing.key_list app List.rev].
    rewrite M2, M3, M4, <- app_assoc. auto.
  - cbn [Sharing.alias_key_of Sharing.keys Sharing.key_list app] in *.
    inversion ND as [|x l Hx Hl]; subst.
    rewrite (existsb_absent id ro) by (apply Dis; left; reflexivity).
    rewrite representer_for_sane, represent_data_sane.
    cbn [Sharing.erase sane_representer].
    assert (D : forall k,
               In k (flat_map (fun kv => Sharing.keys kv.1
                                         ++ Sharing.keys kv.2) items) ->
               ~ In k (id :: ro)).
    { intros k Hk [<-|X]; [exact (Hx Hk)|].
      apply (Dis k); [right; exact Hk|exact X]. }
    pose proof (mapM_pairs_with_unshared items IH (id :: ro) Hl D) as M.
    destruct (Sharing.mapM_pairs_with _ items (id :: ro)) as [[gs ro1]|e|];
      destruct (mapM_pairs _ (map _ items)) as [ns|e'|];
      try contradiction; cbn [bind fst snd Sharing.same_nodes]; try exact M.
    destruct M as (M1 & M2 & M3 & M4).
    cbn [Sharing.no_same Sharing.forget Sharing.node_keys Sharing.key_list app
         List.rev].
    cbn [Sharing.keys]; rewrite ?Ek;
      cbn [Sharing.alias_key_of Sharing.key_list app List.rev].
    rewrite M2, M3, M4, <- app_assoc. auto.
Qed.

(** Pass two: no name is given. *)
Lemma anchor_of_blank l table k :
  Sharing.anchor_of (map (fun k => (k, None)) l ++ table) k
  = if existsb (N.eqb k) l then Some None else Sharing.anchor_of table k.
Proof.
  induction l as [|x l IH]; [reflexivity|].
  cbn [map app Sharing.anchor_of existsb]. rewrite IH.
  rewrite (N.eqb_sym k x). destruct (N.eqb x k); reflexivity.
Qed.

Lemma anchor_key_unshared key st :
  (forall k, In k (Sharing.key_list key) -> Sharing.anchor_of st.1 k = None) ->
  Sharing.anchor_key key st
  = (false, (map (fun k => (k, None)) (Sharing.key_list key) ++ st.1, st.2)).
Proof.
  destruct st as [table n]. destruct key as [k|]; cbn [Sharing.key_list];
    intros H; [|reflexivity].
  unfold Sharing.anchor_key. cbn [fst snd] in *.
  rewrite (H k) by (left; reflexivity). reflexivity.
Qed.

Local Abbreviation unnamed g :=
  (forall st, Sharing.no_same g = true ->
              List.NoDup (Sharing.node_keys g) ->
              (forall k, In k (Sharing.node_keys g) ->
                         Sharing.anchor_of st.1 k = None) ->
              Sharing.anchor_node g st
              = (map (fun k => (k, None)) (List.rev (Sharing.node_keys g))
                 ++ st.1, st.2)).

Lemma fold_anchor_unshared {A} (step : Sharing.anchors * nat -> A -> Sharing.anchors * nat)
    (keys_of : A -> list N) (ok : A -> bool) l :
  Forall (fun x => forall st, ok x = true -> List.NoDup (keys_of x) ->
                     (forall k, In k (keys_of x) ->
                                Sharing.anchor_of st.1 k = None) ->
                     step st x
                     = (map (fun k => (k, None)) (List.rev (keys_of x))
                        ++ st.1, st.2)) l ->
  forall st, forallb ok l = true -> List.NoDup (flat_map keys_of l) ->
    (forall k, In k (flat_map keys_of l) -> Sharing.anchor_of st.1 k = None) ->
    fold_left step l st
    = (map (fun k => (k, None)) (List.rev (flat_map keys_of l)) ++ st.1, st.2).
Proof.
  induction 1 as [|x l Hx _ IH]; intros st Hok ND Hf.
  - destruct st. reflexivity.
  - cbn [forallb flat_map fold_left] in *.
    apply andb_prop in Hok as [Ox Ol].
    apply NoDup_app_inv in ND as (N1 & N2 & D).
    rewrite (Hx st Ox N1) by (intros k Hk; apply Hf, in_or_app; left; exact Hk).
    rewrite IH; [|exact Ol|exact N2|].
    + cbn [fst snd]. rewrite rev_app_distr, map_app, <- app_assoc.
      reflexivity.
    + intros k Hk. cbn [fst]. rewrite anchor_of_blank.
      rewrite existsb_absent.
      * apply Hf, in_or_app. right. exact Hk.
      * intros X. apply in_rev in X. exact (D k X Hk).
Qed.

Lemma anchor_node_unshared g : unnamed g.
Proof.
  induction g as [key|key tag value style|key tag items IH|key tag pairs IH]
    using Sharing.gnode_nested_ind; intros st Hs ND Hf;
    cbn [Sharing.no_same Sharing.node_keys Sharing.anchor_node] in *;
    [discriminate Hs| | |].
  - rewrite anchor_key_unshared by exact Hf. cbn [snd].
    destruct key; reflexivity.
  - cbv zeta.
    apply NoDup_app_inv in ND as (N1 & N2 & D).
    rewrite anchor_key_unshared
      by (intros k Hk; apply Hf, in_or_app; left; exact Hk).
    cbn [fst snd].
    rewrite (fold_anchor_unshared
               (fun st item => Sharing.anchor_node item st)
               Sharing.node_keys Sharing.no_same items).
    + cbn [fst snd]. rewrite rev_app_distr, map_app, <- app_assoc.
      destruct key; reflexivity.
    + eapply Forall_impl; [exact IH|]. intros x Hx. exact Hx.
    + exact Hs.
    + exact N2.
    + intros k Hk. cbn [fst]. rewrite anchor_of_blank, existsb_absent.
      * apply Hf, in_or_app. right. exact Hk.
      * intros X. exact (D k X Hk).
  - cbv zeta.
    apply NoDup_app_inv in ND as (N1 & N2 & D).
    rewrite anchor_key_unshared
      by (intros k Hk; apply Hf, in_or_app; left; exact Hk).
    cbn [fst snd].
    rewrite (fold_anchor_unshared
               (fun st kv => Sharing.anchor_node kv.2
                               (Sharing.anchor_node kv.1 st))
               (fun kv => Sharing.node_keys kv.1 ++ Sharing.node_keys kv.2)
               (fun kv => Sharing.no_same kv.1 && Sharing.no_same kv.2)
               pairs).
    + cbn [fst snd]. rewrite rev_app_distr, map_app, <- app_assoc.
      destruct key; reflexivity.
    + eapply Forall_impl; [exact IH|].
      intros [k v] [Hk Hv] st0 Ok0 ND0 Hf0. cbn [fst snd] in *.
      apply andb_prop in Ok0 as [Ok1 Ok2].
      apply NoDup_app_inv in ND0 as (M1 & M2 & D0).
      rewrite (Hk st0 Ok1 M1)
        by (intros x Hx; apply Hf0, in_or_app; left; exact Hx).
      rewrite (Hv _ Ok2 M2).
      * cbn [fst snd]. rewrite rev_app_distr, map_app, <- app_assoc.
        reflexivity.
      * intros x Hx. cbn [fst]. rewrite anchor_of_blank, existsb_absent.
        -- apply Hf0, in_or_app. right. exact Hx.
        -- intros X. apply in_rev in X. exact (D0 x X Hx).
    + exact Hs.
    + exact N2.
    + intros k Hk. cbn [fst]. rewrite anchor_of_blank, existsb_absent.
      * apply Hf, in_or_app. right. exact Hk.
      * intros X. exact (D k X Hk).
Qed.

(** Pass three: with no name given, the document is the one above. *)
Lemma alias_blank l key :
  Sharing.alias (map (fun k => (k, None)) l ++ []) key = None.
Proof.
  destruct key as [k|]; [|reflexivity]. unfold Sharing.alias.
  rewrite anchor_of_blank. destruct (existsb (N.eqb k) l); reflexivity.
Qed.

Lemma check_simple_key_unshared analyze prepare l g :
  Sharing.no_same g = true ->
  Sharing.check_simple_key analyze prepare (map (fun k => (k, None)) l ++ []) g
  = check_simple_key analyze prepare (Sharing.forget g).
Proof.
  destruct g as [key tag value style|key tag items|key tag pairs|key];
    cbn [Sharing.no_same Sharing.check_simple_key check_simple_key
         Sharing.forget]; intros H; try discriminate H;
    rewrite alias_blank; cbn [Sharing.anchor_length Nat.add];
    [reflexivity| |].
  - destruct items; reflexivity.
  - destruct pairs; reflexivity.
Qed.

Lemma serialize_node_unshared analyze prepare canonical l g : forall ctx,
  Sharing.no_same g = true ->
  Sharing.serialize_node analyze prepare canonical
    (map (fun k => (k, None)) l ++ []) ctx g
  = Sharing.unanchored
      (emit_node analyze prepare canonical ctx (Sharing.forget g)).
Proof.
  induction g as [key|key tag value style|key tag items IH|key tag pairs IH]
    using Sharing.gnode_nested_ind; intros ctx Hs;
    cbn [Sharing.no_same Sharing.serialize_node Sharing.forget emit_node
         Sharing.unanchored] in *; [discriminate Hs| | |];
    rewrite alias_blank; [reflexivity| |]; f_equal; rewrite !map_map.
  - rewrite forallb_forall in Hs. rewrite Forall_forall in IH.
    apply map_ext_in. intros x Hx.
    apply (IH x (proj2 (list_elem_of_In _ _) Hx)), Hs, Hx.
  - rewrite forallb_forall in Hs. rewrite Forall_forall in IH.
    apply map_ext_in. intros [k v] Hx. cbn [fst snd].
    specialize (Hs _ Hx). cbn [fst snd] in Hs.
    apply andb_prop in Hs as [Hk Hv].
    destruct (IH (k, v) (proj2 (list_elem_of_In _ _) Hx)) as [Ik Iv].
    cbn [fst snd] in *.
    rewrite (check_simple_key_unshared _ _ _ _ Hk), (Ik _ Hk), (Iv _ Hv).
    reflexivity.
Qed.

(** A value whose objects lie at different addresses is written as [dump]
    above writes its tree, without anchors. *)
Lemma dump_unshared analyze prepare h :
  List.NoDup (Sharing.keys h) ->
  Sharing.dump_with analyze prepare h
  = Sharing.result_map Sharing.unanchored
      (dump_with analyze prepare (Sharing.erase h)).
Proof.
  intros ND. rewrite dump_with_unfold.
  change (Sharing.dump_with analyze prepare h)
    with (do r <- Sharing.represent_data SaneDumper_table None h [];
          Ok (Sharing.serialize_node (analyze true) prepare false
                (Sharing.anchor_node r.1 ([], 0)).1 false r.1)).
  pose proof (represent_data_unshared h [] ND (fun k _ X => X)) as R.
  unfold Sharing.same_nodes, Sharing.result_map in *.
  destruct (Sharing.represent_data _ _ h []) as [[g ro]|e|];
    destruct (represent_data _ _ (Sharing.erase h)) as [n|e'|];
    try contradiction; cbn [bind fst snd]; [|congruence|reflexivity].
  destruct R as (R1 & R2 & R3 & _). subst n.
  rewrite anchor_node_unshared;
    [|exact R1|rewrite R3; exact ND|intros k _; reflexivity].
  cbn [fst]. rewrite serialize_node_unshared by exact R1. reflexivity.
Qed.




(** * Further results *)

(** ** A cycle on any tree *)

Lemma is_scalar_as_loaded k :
  is_scalar k = true -> is_scalar_key (as_loaded k) = true.
Proof. destruct k; simpl; congruence. Qed.

Lemma represent_construct t :
  ascii_bytes t = true -> has_instance t = false -> scalar_keys t = true ->
  exists n, represent_data SaneDumper_table None t = Ok n
            /\ specific_tags n = true
            /\ construct_object SaneLoader_table n = Ok (as_loaded t).
Proof.
  induction t as [|b|z|r|b|s|items IH|items IH|items IH|d|c]
    using pyobj_nested_ind; intros Ha Hi Hk; rewrite represent_data_sane;
    cbn [ascii_bytes has_instance scalar_keys] in *; try discriminate Hi.
  - eexists; split; [reflexivity|]. split; [reflexivity|].
    rewrite construct_object_unfold, sane_constructor_scalar by set_solver.
    reflexivity.
  - eexists; split; [reflexivity|]. split; [reflexivity|].
    rewrite construct_object_unfold, sane_constructor_bool.
    destruct b; reflexivity.
  - rewrite (proj2 (proj2 (run_string_dumper_bytes Tag.int "" z eq_refl))).
    eexists; split; [reflexivity|]. split; [reflexivity|].
    rewrite construct_object_unfold, sane_constructor_scalar by set_solver.
    reflexivity.
  - rewrite (proj1 (proj2 (run_string_dumper_bytes Tag.float r 0 Ha))).
    eexists; split; [reflexivity|]. split; [reflexivity|].
    rewrite construct_object_unfold, sane_constructor_scalar by set_solver.
    reflexivity.
  - rewrite (proj1 (run_string_dumper_bytes Tag.str b 0 Ha)).
    eexists; split; [reflexivity|]. split; [reflexivity|].
    rewrite construct_object_unfold, sane_constructor_str. reflexivity.
  - rewrite run_string_dumper_unicode.
    eexists; split; [reflexivity|]. split; [reflexivity|].
    rewrite construct_object_unfold, sane_constructor_str. reflexivity.
  - assert (X : exists ns,
               mapM (represent_data SaneDumper_table None) items = Ok ns
               /\ forallb specific_tags ns = true
               /\ mapM (construct_object SaneLoader_table) ns
                  = Ok (map as_loaded items)).
    { clear - IH Ha Hi Hk. induction IH as [|x l Hx _ IHl];
        cbn [forallb existsb map mapM] in *; [exists []; auto|].
      apply andb_prop in Ha as [Ha1 Ha2]. apply orb_false_elim in Hi as [Hi1 Hi2].
      apply andb_prop in Hk as [Hk1 Hk2].
      destruct (Hx Ha1 Hi1 Hk1) as (n & Hn & Hs & Hc).
      destruct (IHl Ha2 Hi2 Hk2) as (ns & Hns & Hss & Hcs).
      exists (n :: ns). cbn [forallb mapM].
      rewrite Hn, Hns, Hs, Hss, Hc, Hcs. auto. }
    destruct X as (ns & Hns & Hss & Hcs). rewrite Hns; cbn [bind].
    eexists; split; [reflexivity|]. split; [exact Hss|].
    rewrite construct_object_unfold, sane_constructor_seq, Hcs. reflexivity.
  - assert (X : exists ns,
               mapM (represent_data SaneDumper_table None) items = Ok ns
               /\ forallb specific_tags ns = true
               /\ mapM (construct_object SaneLoader_table) ns
                  = Ok (map as_loaded items)).
    { clear - IH Ha Hi Hk. induction IH as [|x l Hx _ IHl];
        cbn [forallb existsb map mapM] in *; [exists []; auto|].
      apply andb_prop in Ha as [Ha1 Ha2]. apply orb_false_elim in Hi as [Hi1 Hi2].
      apply andb_prop in Hk as [Hk1 Hk2].
      destruct (Hx Ha1 Hi1 Hk1) as (n & Hn & Hs & Hc).
      destruct (IHl Ha2 Hi2 Hk2) as (ns & Hns & Hss & Hcs).
      exists (n :: ns). cbn [forallb mapM].
      rewrite Hn, Hns, Hs, Hss, Hc, Hcs. auto. }
    destruct X as (ns & Hns & Hss & Hcs). rewrite Hns; cbn [bind].
    eexists; split; [reflexivity|]. split; [exact Hss|].
    rewrite construct_object_unfold, sane_constructor_seq, Hcs. reflexivity.
  - assert (X : exists ns,
               mapM_pairs (represent_data SaneDumper_table None) items = Ok ns
               /\ forallb (fun kv => specific_tags kv.1 && specific_tags kv.2) ns
                  = true
               /\ mapM_pairs (construct_object SaneLoader_table) ns
                  = Ok (map (fun kv => (as_loaded kv.1, as_loaded kv.2)) items)
               /\ forallb hashable
                    (map fst (map (fun kv => (as_loaded kv.1, as_loaded kv.2))
                                  items)) = true).
    { clear - IH Ha Hi Hk. induction IH as [|[k v] l [Hx Hv] _ IHl];
        cbn [forallb existsb map mapM_pairs fst snd] in *; [exists []; auto|].
      apply andb_prop in Ha as [Ha1 Ha2]. apply andb_prop in Ha1 as [Hak Hav].
      apply orb_false_elim in Hi as [Hi1 Hi2].
      apply orb_false_elim in Hi1 as [Hik Hiv].
      apply andb_prop in Hk as [Hk1 Hk2]. apply andb_prop in Hk1 as [Hsk Hkv].
      assert (Hkk : scalar_keys k = true) by (destruct k; try reflexivity; discriminate Hsk).
      destruct (Hx Hak Hik Hkk) as (nk & Hnk & Hsnk & Hck).
      destruct (Hv Hav Hiv Hkv) as (nv & Hnv & Hsnv & Hcv).
      destruct (IHl Ha2 Hi2 Hk2) as (ns & Hns & Hss & Hcs & Hh).
      exists ((nk, nv) :: ns). cbn [forallb mapM_pairs fst snd].
      rewrite Hnk, Hnv, Hns, Hsnk, Hsnv, Hss, Hck, Hcv, Hcs, Hh.
      rewrite (scalar_key_hashable _ (is_scalar_as_loaded _ Hsk)). auto. }
    destruct X as (ns & Hns & Hss & Hcs & Hh). rewrite Hns; cbn [bind].
    eexists; split; [reflexivity|]. split; [exact Hss|].
    rewrite construct_object_unfold, sane_constructor_map.
    rewrite (ordered_loop_of_pairs _ _ _ [] Hcs Hh). reflexivity.
  - unfold ascii_decode. rewrite Ha. cbn [bind].
    eexists; split; [reflexivity|]. split; [reflexivity|].
    rewrite construct_object_unfold, sane_constructor_scalar by set_solver.
    reflexivity.
Qed.

Lemma cycle_as_loaded analyze prepare t :
  ascii_bytes t = true -> has_instance t = false -> scalar_keys t = true ->
  exists d, dump_with analyze prepare t = Ok d
            /\ load_stream [d] = Ok (as_loaded t).
Proof.
  intros Ha Hi Hk. destruct (represent_construct t Ha Hi Hk) as (n & Hn & Hs & Hc).
  rewrite dump_with_unfold, Hn. cbn [bind].
  eexists; split; [reflexivity|]. rewrite load_emitted by exact Hs. exact Hc.
Qed.



(** ** Documents without the inherited value tags *)

Lemma first_match_tag rs value t :
  first_match rs value = Some t -> In t (map ir_tag rs).
Proof.
  induction rs as [|r rs IH]; cbn [first_match map]; [discriminate|].
  destruct (filed_under value r && _).
  - intros [= <-]. left. reflexivity.
  - intros H. right. apply IH, H.
Qed.

(** The resolver never gives one of the three tags. *)
Lemma resolve_not_inherited kind value implicit :
  tag_ok (Some (resolve kind value implicit)) = true.
Proof.
  assert (D : forall k, tag_ok (Some (default_tag k)) = true)
    by (intros []; reflexivity).
  unfold resolve. destruct kind; try apply D.
  destruct implicit as [[] ?]; try apply D.
  destruct (first_match yaml_implicit_resolvers value) as [t|] eqn:E;
    [|apply D].
  apply first_match_tag in E. cbn [map yaml_implicit_resolvers ir_tag] in E.
  repeat (destruct E as [<-|E]; [reflexivity|]). destruct E.
Qed.

Lemma composed_tag_ok kind tag value implicit :
  tag_ok tag = true ->
  tag_ok (Some (composed_tag kind tag value implicit)) = true.
Proof.
  intros H. unfold composed_tag. destruct tag as [t|].
  - destruct (bool_decide (t = "!")); [apply resolve_not_inherited|exact H].
  - apply resolve_not_inherited.
Qed.

Lemma compose_no_inherited e :
  no_inherited_tags e = true -> no_inherited_nodes (compose_node e) = true.
Proof.
  induction e as [tag style value|tag items IH|tag pairs IH]
    using presentation_nested_ind;
    cbn [no_inherited_tags compose_node no_inherited_nodes]; intros H.
  - apply composed_tag_ok, H.
  - apply andb_prop in H as [H1 H2].
    rewrite (composed_tag_ok _ _ _ _ H1). cbn [andb].
    rewrite forallb_forall in H2. rewrite Forall_forall in IH.
    apply forallb_forall. intros n Hn. apply in_map_iff in Hn as (x & <- & Hx).
    apply IH; [apply list_elem_of_In, Hx|apply H2, Hx].
  - apply andb_prop in H as [H1 H2].
    rewrite (composed_tag_ok _ _ _ _ H1). cbn [andb].
    rewrite forallb_forall in H2. rewrite Forall_forall in IH.
    apply forallb_forall. intros n Hn. apply in_map_iff in Hn as (x & <- & Hx).
    specialize (H2 x Hx). apply andb_prop in H2 as [Hk Hv].
    destruct (IH x (proj2 (list_elem_of_In _ _) Hx)) as [Ik Iv].
    cbn [fst snd]. rewrite (Ik Hk), (Iv Hv). reflexivity.
Qed.

(** The three inherited constructors are reached by their own tags only. *)
Lemma constructor_for_inherited n c :
  constructor_for SaneLoader_table n = Some c ->
  c ∈ [construct_yaml_binary; construct_yaml_pairs; construct_yaml_set] ->
  tag_ok (Some (node_tag n)) = false.
Proof.
  unfold constructor_for.
  destruct (SaneLoader_table !! Some (node_tag n)) as [c'|] eqn:E.
  - intros [= <-] Hc. apply elem_of_map_to_list in E.
    remember (map_to_list SaneLoader_table) as l eqn:El.
    vm_compute in El. subst l.
    repeat (apply elem_of_cons in E as [E|E];
            [injection E; intros E2 E1; subst c';
             first [ rewrite E1; reflexivity
                   | exfalso; clear - Hc;
                     repeat (apply elem_of_cons in Hc as [Hc|Hc];
                             [discriminate Hc|]);
                     apply elem_of_nil in Hc; exact Hc ]|]).
    apply elem_of_nil in E. destruct E.
  - intros H Hc. exfalso. vm_compute in H. injection H; intros E2; subst c.
    clear - Hc.
    repeat (apply elem_of_cons in Hc as [Hc|Hc]; [discriminate Hc|]).
    apply elem_of_nil in Hc. exact Hc.
Qed.

Lemma construct_scalar_modelled n : construct_scalar n <> NotModelled.
Proof.
  induction n as [tag value style|tag items IH|tag pairs IH]
    using node_nested_ind; cbn [construct_scalar]; try discriminate.
  induction IH as [|[k v] pairs [_ Hv] _ IHp]; cbn [under_value_key];
    [discriminate|].
  destruct (bool_decide _); [exact Hv|exact IHp].
Qed.

Lemma ordered_loop_not_modelled f pairs : forall omap,
  ordered_loop f pairs omap = NotModelled ->
  exists kv, In kv pairs /\ (f kv.1 = NotModelled \/ f kv.2 = NotModelled).
Proof.
  induction pairs as [|[k v] pairs IH]; intros omap H; cbn [ordered_loop] in H;
    [discriminate|].
  destruct (f k) as [k'| |] eqn:Ek; cbn [bind] in H;
    [|discriminate|exists (k, v); split; [left; reflexivity|left; exact Ek]].
  destruct (f v) as [v'| |] eqn:Ev; cbn [bind] in H;
    [|discriminate|exists (k, v); split; [left; reflexivity|right; exact Ev]].
  unfold odict_setitem in H. destruct (hashable k'); cbn [bind] in H;
    [|discriminate].
  destruct (IH _ H) as (kv & Hin & Hkv). exists kv. split; [right; exact Hin|exact Hkv].
Qed.

Lemma bool_values_modelled value :
  (do b <- bool_values value; Ok (PBool b)) <> NotModelled.
Proof.
  unfold bool_values.
  destruct (existsb _ _); [discriminate|].
  destruct (existsb _ _); discriminate.
Qed.

(** Without these tags a node is constructed, or an exception is raised:
    the whole of [construct_object] is then within the embedding. *)
Lemma construct_object_modelled n :
  no_inherited_nodes n = true ->
  construct_object SaneLoader_table n <> NotModelled.
Proof.
  induction n as [tag value style|tag items IH|tag pairs IH]
    using node_nested_ind; cbn [no_inherited_nodes]; intros T;
    rewrite construct_object_unfold;
    destruct (constructor_for SaneLoader_table _) as [c|] eqn:Ec;
    try (exact (False_rect _ (constructor_for_some _ Ec)));
    pose proof (constructor_for_inherited _ _ Ec) as In3;
    apply constructor_for_entry in Ec;
    repeat (apply elem_of_cons in Ec as [->|Ec]);
    try (apply elem_of_nil in Ec; destruct Ec);
    try discriminate;
    try (exfalso; cbn [node_tag] in In3;
         first [rewrite In3 in T by set_solver; discriminate T
               |apply andb_prop in T as [T _];
                rewrite In3 in T by set_solver; discriminate T]);
    cbn [construct_scalar bind]; try discriminate.
  - apply bool_values_modelled.
  - apply andb_prop in T as [_ T]. rewrite forallb_forall in T.
    rewrite Forall_forall in IH. intros H.
    destruct (mapM _ items) eqn:E; cbn [bind] in H; try discriminate.
    destruct (mapM_not_modelled _ _ E) as (x & Hx & Ex).
    apply (IH x (proj2 (list_elem_of_In _ _) Hx) (T x Hx) Ex).
  - pose proof (construct_scalar_modelled (MappingNode tag pairs)) as H.
    cbn [construct_scalar] in H.
    destruct (under_value_key construct_scalar pairs); cbn [bind];
      [discriminate|discriminate|destruct (H eq_refl)].
  - apply andb_prop in T as [_ T]. rewrite forallb_forall in T.
    rewrite Forall_forall in IH. intros H.
    destruct (ordered_loop _ pairs []) eqn:E; cbn [bind] in H; try discriminate.
    destruct (ordered_loop_not_modelled _ _ _ E) as (kv & Hin & Hkv).
    specialize (T kv Hin). apply andb_prop in T as [Tk Tv].
    destruct (IH kv (proj2 (list_elem_of_In _ _) Hin)) as [Ik Iv].
    destruct Hkv as [X|X]; [apply (Ik Tk X)|apply (Iv Tv X)].
  - pose proof (construct_scalar_modelled (MappingNode tag pairs)) as H.
    cbn [construct_scalar] in H.
    destruct (under_value_key construct_scalar pairs) as [v| |]; cbn [bind];
      [apply bool_values_modelled|discriminate|destruct (H eq_refl)].
Qed.



(** X3: a document without the tags [!!binary], [!!pairs] and [!!set] is
    loaded or refused by the embedded constructors alone, and it never
    loads as None, an int, a float, a byte string, a tuple or a date, nor
    with such a value inside: only texts, booleans, lists and OrderedDicts
    keyed by distinct texts and booleans come out, whatever other tags and
    styles it uses. *)
Theorem load_builds_loaded_trees e :
  no_inherited_tags e = true ->
  load_stream [e] <> NotModelled
  /\ forall t, load_stream [e] = Ok t -> loaded_tree t = true.
Proof.
  intros H. rewrite load_stream_single. split.
  - apply construct_object_modelled, compose_no_inherited, H.
  - intros t. apply loaded_invariant.
Qed.

Lemma load_builds_loaded_trees_witness :
  load_stream [EMapping None example_pairs] <> NotModelled
  /\ forall t, load_stream [EMapping None example_pairs] = Ok t ->
               loaded_tree t = true.
Proof.
  apply (load_builds_loaded_trees (EMapping None example_pairs)).
  reflexivity.
Defined.

(** ** Scalars of a document *)

Lemma compose_scalar_untagged_quoted st value :
  compose_node (EScalar None (Some st) value)
  = ScalarNode Tag.str value (Some st).
Proof. reflexivity. Qed.

(** X4: a quoted or block scalar without tag loads as its text, whatever
    it looks like (['yes'], ['123'], ['null']). *)
Theorem quoted_scalar_loads_as_text st value :
  load_stream [EScalar None (Some st) value] = Ok (PUnicode value).
Proof.
  rewrite load_stream_single, compose_scalar_untagged_quoted.
  rewrite construct_object_unfold, sane_constructor_str. reflexivity.
Qed.

Lemma compose_scalar_tagged tag st value :
  tag <> "!" ->
  compose_node (EScalar (Some tag) st value) = ScalarNode tag value st.
Proof.
  intros H. cbn [compose_node]. unfold composed_tag.
  rewrite bool_decide_eq_false_2 by exact H. reflexivity.
Qed.

(** X5: a scalar tagged explicitly as str, null, int, float or timestamp
    loads as its text, unconverted and unchecked ([!!int abc] gives
    the text abc). *)
Theorem tagged_scalar_loads_as_text tag st value :
  tag ∈ [Tag.str; Tag.null; Tag.int; Tag.float; Tag.timestamp] ->
  load_stream [EScalar (Some tag) st value] = Ok (PUnicode value).
Proof.
  intros H. rewrite load_stream_single, compose_scalar_tagged.
  - rewrite construct_object_unfold, sane_constructor_scalar by exact H.
    reflexivity.
  - intros ->. repeat (apply elem_of_cons in H as [H|H]; [discriminate H|]).
    apply elem_of_nil in H. exact H.
Qed.

Lemma tagged_scalar_loads_as_text_witness :
  load_stream [EScalar (Some Tag.int) None (u "abc")] = Ok (PUnicode (u "abc")).
Proof.
  apply (tagged_scalar_loads_as_text Tag.int None (u "abc")).
  apply list_elem_of_In. simpl. tauto.
Defined.

Lemma lower_char_small c d :
  lower_char c = d -> (97 <= d <= 122)%N -> c = d \/ c = (d - 32)%N.
Proof.
  unfold lower_char. intros H Hd.
  destruct (N.leb 65 c && N.leb c 90) eqn:E; [right|left; exact H].
  apply andb_prop in E as [E1 E2].
  apply N.leb_le in E1. apply N.leb_le in E2. lia.
Qed.

Lemma lower_cased v w :
  map lower_char v = w ->
  Forall (fun d => (97 <= d <= 122)%N) w ->
  In v (cased w).
Proof.
  revert w; induction v as [|c v IH]; intros w H F.
  - subst w. left. reflexivity.
  - destruct w as [|d w]; [discriminate H|]. injection H as Hc Hv.
    inversion F as [|? ? Hd F']; subst.
    cbn [cased]. apply in_flat_map. exists v. split; [apply IH; auto|].
    destruct (lower_char_small c _ eq_refl Hd) as [E|E]; rewrite <- E; simpl; auto.
Qed.

Lemma small_letters w :
  forallb (fun d => N.leb 97 d && N.leb d 122) w = true ->
  Forall (fun d => (97 <= d <= 122)%N) w.
Proof.
  intros H. apply Forall_forall. intros d Hd.
  rewrite forallb_forall in H. apply list_elem_of_In in Hd.
  specialize (H d Hd). apply andb_prop in H as [H1 H2].
  apply N.leb_le in H1. apply N.leb_le in H2. lia.
Qed.

Lemma bool_values_cased value b :
  bool_values value = Ok b ->
  In value (cased (u "yes") ++ cased (u "true") ++ cased (u "on")
            ++ cased (u "no") ++ cased (u "false") ++ cased (u "off")).
Proof.
  unfold bool_values. intros H.
  assert (X : existsb (unicode_eqb (map lower_char value))
                [u "yes"; u "true"; u "on"; u "no"; u "false"; u "off"] = true).
  { change [u "yes"; u "true"; u "on"; u "no"; u "false"; u "off"]
      with ([u "yes"; u "true"; u "on"] ++ [u "no"; u "false"; u "off"]).
    rewrite existsb_app.
    destruct (existsb _ [u "yes"; u "true"; u "on"]); [reflexivity|].
    destruct (existsb _ [u "no"; u "false"; u "off"]); [reflexivity|].
    discriminate H. }
  apply existsb_exists in X as (w & Hw & E).
  unfold unicode_eqb in E. apply bool_decide_eq_true in E.
  assert (F : Forall (fun d => (97 <= d <= 122)%N) w).
  { apply small_letters. cbn [In] in Hw.
    repeat (destruct Hw as [<-|Hw]; [vm_compute; reflexivity|]).
    destruct Hw. }
  pose proof (lower_cased _ _ E F) as HI.
  cbn [In] in Hw. rewrite !in_app_iff.
  repeat (destruct Hw as [<-|Hw]); tauto.
Qed.

(** X6: a plain, untagged scalar loads as a boolean exactly when it is one
    of the eighteen spellings of the resolver; any other plain scalar that
    loads, loads as its own text. *)
Theorem plain_scalar_outcome value :
  (forall b, load_stream [EScalar None None value] = Ok (PBool b)
             <-> In value (map u (bool_words b)))
  /\ (forall t, load_stream [EScalar None None value] = Ok t ->
                t = PUnicode value \/ exists b, t = PBool b).
Proof.
  assert (G : forall t, load_stream [EScalar None None value] = Ok t ->
              t = PUnicode value
              \/ exists b, t = PBool b /\ bool_values value = Ok b).
  { intros t. rewrite load_stream_single, compose_plain.
    rewrite construct_object_unfold.
    destruct (constructor_for SaneLoader_table _) as [c|] eqn:Ec;
      [|intros _; exact (False_rect _ (constructor_for_some _ Ec))].
    apply constructor_for_entry in Ec.
    repeat (apply elem_of_cons in Ec as [->|Ec]);
      try (apply elem_of_nil in Ec; destruct Ec);
      cbn [construct_scalar bind]; intros H; try discriminate H.
    - injection H as <-. left. reflexivity.
    - destruct (bool_values value) as [b| |] eqn:E; try discriminate H.
      injection H as <-. right. eauto. }
  split.
  - intros b. split.
    + intros H. destruct (G _ H) as [E|(b' & E & Hb)]; [discriminate E|].
      pose proof (bool_values_cased _ _ Hb) as HI. clear G Hb E b'.
      vm_compute in HI.
      repeat (destruct HI as [<-|HI];
              [vm_compute in H;
               first [discriminate H
                     | injection H as <-; vm_compute; tauto]|]).
      destruct HI.
    + intros HI. destruct b; vm_compute in HI;
        repeat (destruct HI as [<-|HI]; [vm_compute; reflexivity|]);
        destruct HI.
  - intros t H. destruct (G t H) as [E|(b & E & _)]; eauto.
Qed.

(** ** Mappings of a document *)

Lemma compose_untagged_mapping pairs :
  compose_node (EMapping None pairs)
  = MappingNode Tag.map
      (map (fun kv => (compose_node kv.1, compose_node kv.2)) pairs).
Proof. reflexivity. Qed.

Lemma mapping_loads_iff pairs t :
  load_stream [EMapping None pairs] = Ok t
  <-> exists kvs, load_pairs pairs = Ok kvs
                  /\ forallb hashable (map fst kvs) = true
                  /\ t = POrderedDict (odict_fold kvs []).
Proof.
  rewrite load_stream_single, compose_untagged_mapping.
  rewrite construct_object_unfold, sane_constructor_map. split.
  - intros H. apply bind_Ok in H as (omap & Ho & H). injection H as <-.
    apply ordered_loop_Ok in Ho as (kvs & Hm & Hh & ->).
    rewrite mapM_pairs_map in Hm. exists kvs. auto.
  - intros (kvs & Hp & Hh & ->).
    assert (Hm : mapM_pairs (construct_object SaneLoader_table)
                   (map (fun kv => (compose_node kv.1, compose_node kv.2)) pairs)
                 = Ok kvs) by (rewrite mapM_pairs_map; exact Hp).
    rewrite (ordered_loop_of_pairs _ _ _ [] Hm Hh). reflexivity.
Qed.

(** X7: an untagged mapping loads exactly when each of its keys and values
    loads and each loaded key is hashable (no list, no dict); it then loads
    as the OrderedDict its pairs are assigned into, in source order. *)
Theorem untagged_mapping_loads pairs t :
  load_stream [EMapping None pairs] = Ok t
  <-> exists kvs, load_pairs pairs = Ok kvs
                  /\ forallb hashable (map fst kvs) = true
                  /\ t = POrderedDict (odict_fold kvs []).
Proof. apply mapping_loads_iff. Qed.

Lemma mapM_pairs_In {A B} (f : A -> result B) l bs k v :
  mapM_pairs f l = Ok bs -> In (k, v) l ->
  exists k' v', f k = Ok k' /\ f v = Ok v' /\ In (k', v') bs.
Proof.
  revert bs; induction l as [|[k0 v0] l IH]; intros bs H Hin; [destruct Hin|].
  cbn [mapM_pairs] in H.
  apply bind_Ok in H as (k' & Hk & H). apply bind_Ok in H as (v' & Hv & H).
  apply bind_Ok in H as (rest & Hr & H). injection H as <-.
  destruct Hin as [E|Hin].
  - injection E as <- <-. exists k', v'. simpl. auto.
  - destruct (IH _ Hr Hin) as (k1 & v1 & H1 & H2 & H3).
    exists k1, v1. simpl. auto.
Qed.

(** X8: a mapping with a key that loads as a list or as a dict does not
    load (hashing the key raises TypeError). *)
Theorem complex_key_rejected pairs k v key :
  In (k, v) pairs -> load_stream [k] = Ok key -> hashable key = false ->
  forall t, load_stream [EMapping None pairs] <> Ok t.
Proof.
  intros Hin Hk Hh t H. apply mapping_loads_iff in H as (kvs & Hp & Hhs & _).
  destruct (mapM_pairs_In _ _ _ _ _ Hp Hin) as (k' & v' & Hk' & _ & Hin').
  rewrite Hk in Hk'. injection Hk' as <-.
  rewrite forallb_forall in Hhs.
  rewrite (Hhs key) in Hh; [discriminate Hh|].
  apply in_map_iff. exists (key, v'). auto.
Qed.

Lemma complex_key_rejected_witness :
  match load_stream [EMapping None
                       [(ESequence None [FlatReader.plain (u "a")],
                         FlatReader.plain (u "b"))]]
  with Ok _ => False | _ => True end.
Proof.
  destruct (load_stream _) as [t| |] eqn:E; [|exact I|exact I].
  apply (complex_key_rejected
           [(ESequence None [FlatReader.plain (u "a")], FlatReader.plain (u "b"))]
           (ESequence None [FlatReader.plain (u "a")])
           (FlatReader.plain (u "b"))
           (PList [PUnicode (u "a")])
           (or_introl eq_refl) eq_refl eq_refl t E).
Defined.

(** X9: the merge key is not supported: a mapping with the plain key [<<]
    does not load, whatever stands under it (nor with the plain key [=]). *)
Theorem merge_key_rejected pairs v w :
  In (FlatReader.plain (u w), v) pairs -> w = "<<" \/ w = "=" ->
  forall t, load_stream [EMapping None pairs] <> Ok t.
Proof.
  intros Hin Hw t H. apply mapping_loads_iff in H as (kvs & Hp & _ & _).
  destruct (mapM_pairs_In _ _ _ _ _ Hp Hin) as (k' & v' & Hk' & _ & _).
  destruct Hw as [-> | ->]; vm_compute in Hk'; discriminate Hk'.
Qed.

Lemma merge_key_rejected_witness :
  match load_stream [EMapping None
                       [(FlatReader.plain (u "a"), FlatReader.plain (u "1"));
                        (FlatReader.plain (u "<<"), EMapping None [])]]
  with Ok _ => False | _ => True end.
Proof.
  destruct (load_stream _) as [t| |] eqn:E; [|exact I|exact I].
  apply (merge_key_rejected
           [(FlatReader.plain (u "a"), FlatReader.plain (u "1"));
            (FlatReader.plain (u "<<"), EMapping None [])]
           (EMapping None []) "<<"
           (or_intror (or_introl eq_refl)) (or_introl eq_refl) t E).
Defined.

(** ** Registrations *)

(** Once a class holds its own table, registering on its base class no
    longer reaches it. *)
Lemma add_on_base_after_copy st data_type r :
  SaneDumper_own st <> None ->
  yaml_representers SaneDumper (add_representer SafeDumper data_type r st)
  = yaml_representers SaneDumper st.
Proof.
  unfold yaml_representers, add_representer. cbn.
  destruct (SaneDumper_own st); [reflexivity | contradiction].
Qed.

(** X10: [null_dumper] is registered on SafeDumper (line 160) after
    SaneDumper took its own copy of the table (line 151): SaneDumper keeps
    the inherited representer and [dump] writes None as the word [null],
    which loads as the text null; the registration changes the engine's
    SafeDumper for the whole process, and nothing else of it; SafeLoader is
    left as it was. *)
Theorem null_dumper_registration analyze prepare :
  yaml_representers SaneDumper saneyaml !! Some T_NoneType = Some represent_none
  /\ yaml_representers SafeDumper saneyaml
     = <[Some T_NoneType := null_dumper]> SafeRepresenter_yaml_representers
  /\ yaml_constructors SafeLoader saneyaml = SafeConstructor_yaml_constructors
  /\ represent_data SaneDumper_table None PNone
     = Ok (ScalarNode Tag.null (u "null") None)
  /\ exists d, dump_with analyze prepare PNone = Ok d
               /\ load_stream [d] = Ok (PUnicode (u "null")).
Proof.
  split; [vm_compute; reflexivity|]. split; [vm_compute; reflexivity|].
  split; [vm_compute; reflexivity|]. split; [apply represent_data_sane|].
  apply (cycle_as_loaded analyze prepare PNone); reflexivity.
Qed.

(** ** Strings and numbers on the way out *)

Lemma choose_plain_implicit style implicit ctx analysis :
  choose_scalar_style false style implicit ctx analysis = None ->
  implicit.1 = true.
Proof.
  unfold choose_scalar_style. rewrite orb_false_r.
  destruct (bool_decide (style = Some DoubleQuoted)); [intros X; inversion X|].
  destruct (bool_decide (style = None) && implicit.1
            && negb (ctx && (empty analysis || multiline analysis))
            && allow_block_plain analysis) eqn:E.
  - intros _. apply andb_prop in E as [E _]. apply andb_prop in E as [E _].
    apply andb_prop in E as [_ E]. exact E.
  - destruct ((bool_decide (style = Some Literal)
               || bool_decide (style = Some Folded))
              && negb false && negb ctx && allow_block analysis) eqn:E2.
    + intros ->. vm_compute in E2. inversion E2.
    + match goal with |- (if ?c then _ else _) = _ -> _ => destruct c end;
        intros X; inversion X.
Qed.

(** X11: a string is never written with a tag, and it is written plain
    only if the resolver takes its plain form for a string: a text that
    looks like a number, a boolean, a null or a date is quoted.  A byte
    string of ASCII characters is written as the unicode string of the same
    characters. *)
Theorem string_written_untagged analyze prepare s d :
  dump_with analyze prepare (PUnicode s) = Ok d ->
  exists style,
    d = EScalar None style s
    /\ (style = None -> resolve KScalar s (true, false) = Tag.str)
    /\ forall b, is_ascii (u b) = true -> u b = s ->
                 dump_with analyze prepare (PStr b) = Ok d.
Proof.
  rewrite !dump_with_unfold, represent_data_sane, run_string_dumper_unicode.
  cbn [bind emit_node]. intros [= <-].
  set (implicit := serializer_implicit Tag.str s).
  set (chosen := choose_scalar_style false (string_style s) implicit false
                   (analyze true s)).
  exists chosen.
  assert (I2 : implicit.2 = true) by reflexivity.
  assert (P : chosen = None -> implicit.1 = true)
    by (apply choose_plain_implicit).
  split; [|split].
  - f_equal. unfold scalar_tag_written. cbn [negb andb].
    destruct chosen as [st|].
    + rewrite I2. reflexivity.
    + rewrite (P eq_refl). reflexivity.
  - intros E. specialize (P E). unfold implicit, serializer_implicit in P.
    cbn [fst] in P. apply bool_decide_eq_true in P. symmetry. exact P.
  - intros b Hb <-. rewrite dump_with_unfold, represent_data_sane.
    rewrite (proj1 (run_string_dumper_bytes Tag.str b 0 Hb)). reflexivity.
Qed.

Lemma string_written_untagged_witness :
  exists style,
    EScalar None (Some SingleQuoted) (u "123") = EScalar None style (u "123")
    /\ (style = None -> resolve KScalar (u "123") (true, false) = Tag.str)
    /\ forall b, is_ascii (u b) = true -> u b = u "123" ->
                 dump (PStr b) = Ok (EScalar None (Some SingleQuoted) (u "123")).
Proof.
  apply (string_written_untagged PyEmitter.analyze_scalar PyEmitter.prepare_tag
           (u "123") (EScalar None (Some SingleQuoted) (u "123"))).
  vm_compute. reflexivity.
Defined.

(** X12: an int is written as its decimal digits under the int tag, with
    no style asked for, however long it is; after a cycle it is the text of
    those digits. *)
Theorem int_written_as_digits analyze prepare z :
  represent_data SaneDumper_table None (PInt z)
  = Ok (ScalarNode Tag.int (scalar_text (PInt z)) None)
  /\ exists d, dump_with analyze prepare (PInt z) = Ok d
               /\ load_stream [d] = Ok (PUnicode (scalar_text (PInt z))).
Proof.
  split.
  - rewrite represent_data_sane.
    rewrite (proj2 (proj2 (run_string_dumper_bytes Tag.int "" z eq_refl))).
    do 2 f_equal. unfold string_style.
    rewrite (no_char_below LF 45 57 _ (int_repr_chars z)) by (vm_compute; reflexivity).
    rewrite (no_char_below SPACE 45 57 _ (int_repr_chars z)) by (vm_compute; reflexivity).
    rewrite andb_false_r. reflexivity.
  - apply (cycle_as_loaded analyze prepare (PInt z)); reflexivity.
Qed.
